(** * Pure ROR Matcher: a shallow embedding of [src/App.tsx]

    The application links "external organization" records of a Pure
    catalog to identifiers of the ROR registry.  This file embeds the
    orchestration code of the React component [App] (helpers, catalog
    and registry clients, the [loadNext] / [doLink] actions, points and
    history) and proves or refutes the properties the specification
    states about it.

    Conventions of the embedding.
    - JavaScript strings are the byte strings ([string]) of their UTF-8
      encoding.  [trim] strips the white space and the line terminators
      of ECMAScript, multi-byte ones included.  [toLowerCase] is a
      parameter of [rorAliasList], and [Number] on strings and objects
      is an oracle of the environment: their tables and the grammar and
      rounding of numeric texts are not modelled, so what is proved
      holds for whatever these built-ins answer.  [parseInt] skips the
      white space of the ASCII range.
    - A JavaScript [number] is an exact rational, [NaN] or one of the two
      infinities.  Scores are only compared, with each other (through the
      sign of their difference) and with the literals 0.6, 0.7 and 0.8,
      and points only grow by small integers; a decimal literal is
      modelled by the rational it writes, which agrees with doubles on
      these operations because rounding to the nearest double is
      monotone and the difference of two distinct finite doubles is
      never rounded to zero.
    - [async] functions are run sequentially: a computation takes the
      application state (React state plus the log of issued HTTP
      requests) and returns an outcome (value or thrown exception) and a
      new state.  The network, [Math.random] and [Date.now] are an
      environment [Env] of oracles that may depend on the requests issued
      so far.
    - In the computations the hook [useLimitedFetch] is modelled by the
      headers it adds to the request.  Its waiting is a real-time
      property and is modelled apart, on the readings of the clock
      ([limiterSleep]).
    - The page is modelled by its events ([Event]), each offered as the
      [disabled] flags and the condition of the modal allow and handled
      to its end before the next one. *)

From Stdlib Require Import List String Ascii ZArith QArith Qround Bool Lia Lqa.
From Stdlib Require Import Permutation Sorted DecimalString DecimalPos.
Import ListNotations.

Local Open Scope list_scope.
Local Open Scope string_scope.

(** ** JavaScript built-ins used by the program *)

Module Js.

(** [number]: finite values are exact rationals. *)
Inductive number : Type :=
| Finite (q : Q)
| NaN
| PosInfinity
| NegInfinity.

(** [Number.isFinite]. *)
Definition isFinite (n : number) : bool :=
  match n with Finite _ => true | _ => false end.

(** [a + b] on numbers. *)
Definition add (a b : number) : number :=
  match a, b with
  | NaN, _ | _, NaN => NaN
  | Finite x, Finite y => Finite (x + y)
  | PosInfinity, NegInfinity | NegInfinity, PosInfinity => NaN
  | PosInfinity, _ | _, PosInfinity => PosInfinity
  | NegInfinity, _ | _, NegInfinity => NegInfinity
  end.

(** Truthiness of a string: non-empty. *)
Definition truthy (s : string) : bool :=
  match s with EmptyString => false | _ => true end.

(** [x || d] on strings. *)
Definition orElse (x d : string) : string := if truthy x then x else d.

(** [String(n)] for an integer, as in a template literal. *)
Definition showZ (z : Z) : string := NilZero.string_of_int (Z.to_int z).

(** [s.endsWith(suffix)]. *)
Definition endsWith (s suffix : string) : bool :=
  let n := String.length s in
  let m := String.length suffix in
  (m <=? n)%nat && String.eqb (substring (n - m) m s) suffix.

Definition isSlash (c : ascii) : bool := Ascii.eqb c "/"%char.

(** [s.replace(/^\/+/, "")]. *)
Fixpoint dropLeading (p : ascii -> bool) (s : string) : string :=
  match s with
  | String c rest => if p c then dropLeading p rest else s
  | EmptyString => EmptyString
  end.

(** [s.replace(/\/+$/, "")]: a character is kept when a character that
    is not dropped follows it or it is itself not dropped. *)
Fixpoint dropTrailing (p : ascii -> bool) (s : string) : string :=
  match s with
  | String c rest =>
      match dropTrailing p rest with
      | EmptyString => if p c then EmptyString else String c EmptyString
      | kept => String c kept
      end
  | EmptyString => EmptyString
  end.

(** White space of the ASCII range: tab, line feed, vertical tab, form
    feed, carriage return and space. *)
Definition isSpace (c : ascii) : bool :=
  let n := nat_of_ascii c in
  ((9 <=? n) && (n <=? 13))%nat || (n =? 32)%nat.

(** The white space of two bytes: U+00A0 (C2 A0). *)
Definition isSpace2 (c1 c2 : ascii) : bool :=
  ((nat_of_ascii c1 =? 194) && (nat_of_ascii c2 =? 160))%nat.

(** The white space and the line terminators of three bytes: U+1680
    (E1 9A 80), U+2000 to U+200A (E2 80 80 to E2 80 8A), U+2028 and
    U+2029 (E2 80 A8, E2 80 A9), U+202F (E2 80 AF), U+205F (E2 81 9F),
    U+3000 (E3 80 80) and U+FEFF (EF BB BF). *)
Definition isSpace3 (c1 c2 c3 : ascii) : bool :=
  let n1 := nat_of_ascii c1 in
  let n2 := nat_of_ascii c2 in
  let n3 := nat_of_ascii c3 in
  ((n1 =? 225) && (n2 =? 154) && (n3 =? 128)
   || (n1 =? 226) && (n2 =? 128)
      && (((128 <=? n3) && (n3 <=? 138)) || (n3 =? 168) || (n3 =? 169) || (n3 =? 175))
   || (n1 =? 226) && (n2 =? 129) && (n3 =? 159)
   || (n1 =? 227) && (n2 =? 128) && (n3 =? 128)
   || (n1 =? 239) && (n2 =? 187) && (n3 =? 191))%nat.

(** The longest run of white space at the front of [s] is dropped; the
    tests [two] and [three] recognise the white space of two and of
    three bytes. *)
Fixpoint dropSpaces (two : ascii -> ascii -> bool) (three : ascii -> ascii -> ascii -> bool)
    (s : string) : string :=
  match s with
  | String c1 rest1 =>
      if isSpace c1 then dropSpaces two three rest1
      else
        match rest1 with
        | String c2 rest2 =>
            if two c1 c2 then dropSpaces two three rest2
            else
              match rest2 with
              | String c3 rest3 => if three c1 c2 c3 then dropSpaces two three rest3 else s
              | EmptyString => s
              end
        | EmptyString => s
        end
  | EmptyString => s
  end.

Fixpoint reverse (s : string) : string :=
  match s with
  | String c rest => reverse rest ++ String c EmptyString
  | EmptyString => EmptyString
  end.

(** [s.trimStart()]. *)
Definition trimStart (s : string) : string := dropSpaces isSpace2 isSpace3 s.

(** [s.trimEnd()]: the same from the end, where the bytes of a character
    come in the opposite order. *)
Definition trimEnd (s : string) : string :=
  reverse (dropSpaces (fun c2 c1 => isSpace2 c1 c2) (fun c3 c2 c1 => isSpace3 c1 c2 c3)
                      (reverse s)).

(** [s.trim()]. *)
Definition trim (s : string) : string := trimEnd (trimStart s).

(** [s.replace(pat, rep)] for a string pattern: the first occurrence
    only. *)
Fixpoint replaceFirst (pat rep s : string) : string :=
  if prefix pat s then rep ++ substring (String.length pat) (String.length s - String.length pat) s
  else match s with
       | String c rest => String c (replaceFirst pat rep rest)
       | EmptyString => EmptyString
       end.

Definition hexDigit (n : nat) : ascii :=
  if (n <? 10)%nat then ascii_of_nat (48 + n) else ascii_of_nat (55 + n).

(** Characters [encodeURIComponent] leaves alone: letters, digits and
    [- _ . ! ~ * ' ( )]. *)
Definition unreserved (c : ascii) : bool :=
  let n := nat_of_ascii c in
  (((65 <=? n) && (n <=? 90)) || ((97 <=? n) && (n <=? 122)) || ((48 <=? n) && (n <=? 57))
   || existsb (Nat.eqb n) [45; 95; 46; 33; 126; 42; 39; 40; 41])%nat.

(** [encodeURIComponent(s)] on the UTF-8 bytes of [s]. *)
Fixpoint encodeURIComponent (s : string) : string :=
  match s with
  | String c rest =>
      if unreserved c then String c (encodeURIComponent rest)
      else let n := nat_of_ascii c in
           String "%"%char (String (hexDigit (n / 16)) (String (hexDigit (n mod 16))
             (encodeURIComponent rest)))
  | EmptyString => EmptyString
  end.

(** [arr.includes(x)] on strings. *)
Definition includes (arr : list string) (x : string) : bool := existsb (String.eqb x) arr.

(** [Array.from(new Set(arr))]: the first occurrence of every string,
    in insertion order; a [Set] compares strings exactly. *)
Fixpoint dedupe (seen : list string) (arr : list string) : list string :=
  match arr with
  | [] => []
  | x :: rest => if includes seen x then dedupe seen rest else x :: dedupe (x :: seen) rest
  end.

(** A thrown value: an [Error] object with its class name and message. *)
Record Exn : Type := mkExn { exnName : string; message : string }.

(** [new Error(msg)]. *)
Definition Error (msg : string) : Exn := mkExn "Error" msg.
(** [new TypeError(msg)], as raised by a property read on [undefined]. *)
Definition TypeError (msg : string) : Exn := mkExn "TypeError" msg.

(** [e.message || String(e)]: [String(e)] of an error with an empty
    message is its name. *)
Definition errorText (e : Exn) : string := orElse (message e) (exnName e).

(** Result of evaluating an expression that may throw. *)
Inductive Outcome (A : Type) : Type :=
| Ok (a : A)
| Throw (e : Exn).
Arguments Ok {A} a.
Arguments Throw {A} e.

(** [parseInt(s, 10)]: leading white space (of the ASCII range), an
    optional sign, then the longest run of decimal digits; [NaN] when
    there is no digit. *)
Definition digitOf (c : ascii) : option Z :=
  let n := nat_of_ascii c in
  if ((48 <=? n) && (n <=? 57))%nat then Some (Z.of_nat (n - 48)) else None.

Fixpoint digitsValue (acc : Z) (s : string) : Z :=
  match s with
  | String c rest =>
      match digitOf c with
      | Some d => digitsValue (10 * acc + d) rest
      | None => acc
      end
  | EmptyString => acc
  end.

Definition startsWithDigit (s : string) : bool :=
  match s with
  | String c _ => match digitOf c with Some _ => true | None => false end
  | EmptyString => false
  end.

Definition parseDigits (sign : Z) (s : string) : number :=
  if startsWithDigit s then Finite (inject_Z (sign * digitsValue 0 s)) else NaN.

Definition parseInt10 (s : string) : number :=
  match dropLeading isSpace s with
  | String "-"%char rest => parseDigits (-1) rest
  | String "+"%char rest => parseDigits 1 rest
  | t => parseDigits 1 t
  end.

End Js.

Import Js.

(** ** Types of [App.tsx] *)

(** A parsed JSON value. *)
#[warnings="-register-all"]
Inductive JSON : Type :=
| JNull
| JBool (b : bool)
| JNumber (n : Q)
| JString (s : string)
| JArray (elements : list JSON)
| JObject (fields : list (string * JSON)).

(** A value read from a parsed body: [undefined] for an absent property,
    [null], a boolean, a number, a string, or an object (an array
    included). *)
Inductive Value : Type :=
| VUndefined
| VNull
| VBoolean (b : bool)
| VNumber (n : number)
| VString (s : string)
| VObject (o : JSON).

(** [LocaleMap] and [Term]: objects from locale tag to text, as the list
    of their entries in [Object.keys] order. *)
Definition LocaleMap : Type := list (string * string).
Definition Term : Type := LocaleMap.

(** [map[key]]. *)
Fixpoint lookup (map : LocaleMap) (key : string) : option string :=
  match map with
  | [] => None
  | (k, v) :: rest => if String.eqb k key then Some v else lookup rest key
  end.

Record IdentifierType : Type := mkIdentifierType { uri : string; term : Term }.

(** [Identifier = ClassifiedId | any]: the three properties the program
    reads, and the other properties of the object.  [typeDiscriminator] is
    [None] when absent or not a string; [type] is [None] when
    [id?.type?.uri] is not a string. *)
Record Identifier : Type := mkIdentifier {
  typeDiscriminator : option string;
  id : option string;
  type : option IdentifierType;
  identifierOthers : list (string * JSON)
}.

Record Country : Type := mkCountry { countryUri : option string; countryTerm : option Term }.
Record Address : Type := mkAddress { city : option string; country : option Country }.
Record Workflow : Type := mkWorkflow { step : option string; description : option Term }.

Record ExtOrgItem : Type := mkExtOrgItem {
  uuid : string;
  version : string;
  name : option LocaleMap;
  orgType : option IdentifierType;
  identifiers : option (list Identifier);
  address : option Address;
  workflow : option Workflow
}.

Record PageResponse : Type := mkPageResponse { count : Z; items : list ExtOrgItem }.

Record RorName : Type := mkRorName { value : string; types : option (list string); lang : option string }.

Record GeonamesDetails : Type := mkGeonamesDetails {
  country_name : option string;
  country_code : option string;
  country_subdivision_name : option string
}.
Record Location : Type := mkLocation { geonames_details : option GeonamesDetails; geonames_id : option Z }.

(** [RorOrg].  [rorId] is the property [id]: it is absent in the empty
    object that stands for a hit without [organization].  [rorOthers]
    holds the properties the program only displays or carries along
    ([country], [acronyms], [links], [types], [score]). *)
Record RorOrg : Type := mkRorOrg {
  rorId : option string;
  rorName : option string;
  names : option (list RorName);
  aliases : option (list string);
  locations : option (list Location);
  rorOthers : list (string * JSON)
}.

(** The empty object [{} as RorOrg]. *)
Definition emptyRorOrg : RorOrg := mkRorOrg None None None None None [].

(** A candidate, [RorOrg & { scoreLocal; matching_type; chosen; substring }].
    [scoreLocal] is finite by construction (see [toCandidate]). *)
Record Candidate : Type := mkCandidate {
  organization : RorOrg;
  scoreLocal : Q;
  matching_type : option string;
  chosen : bool;
  substring : option string
}.

Inductive ToastType : Type := success | failure.
Record Toast : Type := mkToast { toastType : ToastType; toastMessage : string }.

Record HistoryEntry : Type := mkHistoryEntry {
  ts : Z;
  entryUuid : string;
  orgName : string;
  entryRorId : option string;
  score : Q;
  matchType : option string
}.

(** ** Configuration ([config.example.ts]) *)

Definition PURE_BASE_URL : string := "https://your-institution.pure.elsevier.com/ws/api".
Definition PURE_API_KEY : string := "your-api-key-here".
Definition ROR_TYPE : IdentifierType :=
  mkIdentifierType "/dk/atira/pure/ueoexternalorganisation/ueoexternalorganisationsources/ror"
                   [("en_GB", "ROR ID"); ("da_DK", "ROR ID")].

(** ** Helpers *)

Definition buildUrl (base path : string) : string :=
  let b := dropTrailing isSlash base in
  let p := dropLeading isSlash path in
  b ++ "/" ++ p.

Record Picked : Type := mkPicked { pickedValue : string; pickedKey : string }.

(** The [for (const key of preferred)] loop of [pickPreferredLocale]. *)
Fixpoint firstPreferred (map : LocaleMap) (preferred : list string) : option Picked :=
  match preferred with
  | [] => None
  | key :: rest =>
      match lookup map key with
      | Some v => if truthy v then Some (mkPicked v key) else firstPreferred map rest
      | None => firstPreferred map rest
      end
  end.

Definition pickPreferredLocaleFrom (map : option LocaleMap) (preferred : list string) : Picked :=
  match map with
  | None => mkPicked "" ""
  | Some m =>
      match firstPreferred m preferred with
      | Some p => p
      | None =>
          match m with
          | [] => mkPicked "" ""
          | (firstKey, _) :: _ =>
              mkPicked (if truthy firstKey
                        then match lookup m firstKey with Some v => v | None => "" end
                        else "")
                       firstKey
          end
      end
  end.

Definition pickPreferredLocale (map : option LocaleMap) : Picked :=
  pickPreferredLocaleFrom map ["en_GB"; "da_DK"].

(** The predicate of [identifiers.some(...)] in [hasRorIdentifier]. *)
Definition isRorIdentifier (i : Identifier) : bool :=
  match typeDiscriminator i with
  | Some d => String.eqb d "ClassifiedId"
  | None => false
  end
  && match type i with
     | Some t => endsWith (uri t) "/ror"
     | None => false
     end.

Definition hasRorIdentifier (identifiers : option (list Identifier)) : bool :=
  match identifiers with
  | None => false
  | Some ids => existsb isRorIdentifier ids
  end.

(** [n.types?.includes(tag)]. *)
Definition hasType (tag : string) (n : RorName) : bool :=
  match types n with
  | Some ts => includes ts tag
  | None => false
  end.

(** [rorDisplayName]; [None] is [undefined], the value of [r.id] of an
    organization without [id]. *)
Definition rorDisplayName (r : RorOrg) : option string :=
  let named := match rorName r with
               | Some n => truthy n && truthy (trim n)
               | None => false
               end in
  if named then rorName r
  else
    let ns := match names r with Some l => l | None => [] end in
    let pick :=
      match find (hasType "ror_display") ns with
      | Some n => Some n
      | None =>
          match find (hasType "label") ns with
          | Some n => Some n
          | None => hd_error ns
          end
      end in
    match pick with
    | Some n => if truthy (value n) then Some (value n) else rorId r
    | None => rorId r
    end.

(** [rorAliasList]: it throws a [TypeError] when the display name is
    [undefined], on [.toLowerCase()].  The built-in
    [String.prototype.toLowerCase] is the parameter [toLowerCase]. *)
Definition rorAliasList (toLowerCase : string -> string) (r : RorOrg) : Outcome (list string) :=
  let fromNames :=
    filter truthy
      (map value (filter (hasType "alias") (match names r with Some l => l | None => [] end))) in
  let fromAliasesField := match aliases r with Some l => l | None => [] end in
  match rorDisplayName r with
  | None => Throw (TypeError "Cannot read properties of undefined (reading 'toLowerCase')")
  | Some d =>
      let display := toLowerCase d in
      let merged := dedupe [] (fromAliasesField ++ fromNames) in
      Ok (filter (fun a => truthy a && negb (String.eqb (toLowerCase a) display)) merged)
  end.

(** ** Points and history (inside [doLink]) *)

(** [Number(chosen.scoreLocal) || 0]. *)
Definition scoreOf (scoreLocal : Q) : Q := if Qeq_bool scoreLocal 0 then 0 else scoreLocal.

(** [sl >= 0.8 ? 10 : sl >= 0.6 ? 5 : 1]. *)
Definition award (sl : Q) : Z :=
  if Qle_bool 0.8 sl then 10 else if Qle_bool 0.6 sl then 5 else 1.

(** The updater of [setHistory]: [[entry, ...h].slice(0, 50)]. *)
Definition insertHistory (entry : HistoryEntry) (h : list HistoryEntry) : list HistoryEntry :=
  let next := entry :: h in
  firstn 50 next.

(** ** Initial state from [localStorage] *)

(** [localStorage.getItem(key) || fallback]: [None] is [null]. *)
Definition storedOr (stored : option string) (fallback : string) : string :=
  match stored with
  | Some s => orElse s fallback
  | None => fallback
  end.

(** The initializer of [points]. *)
Definition loadPoints (stored : option string) : number := parseInt10 (storedOr stored "0").

(** The initializer of [history]; [JSON.parse] is a parameter. *)
Definition loadHistory (JSON_parse : string -> Outcome JSON) (stored : option string) : JSON :=
  match JSON_parse (storedOr stored "[]") with
  | Ok v => v
  | Throw _ => JArray []
  end.

(** ** Ranking of candidates (inside [searchRor]) *)

Definition boolToNumber (b : bool) : Q := if b then 1 else 0.

(** The comparator of [items.sort]:
    [Number(!!b.chosen) - Number(!!a.chosen) || b.scoreLocal - a.scoreLocal]. *)
Definition compareCandidates (a b : Candidate) : Q :=
  let byChosen := boolToNumber (chosen b) - boolToNumber (chosen a) in
  if Qeq_bool byChosen 0 then scoreLocal b - scoreLocal a else byChosen.

(** [Array.prototype.sort(comparefn)].  ECMAScript requires the sort to be
    stable, and with a consistent comparator its result is the one stable
    ordering; it is modelled by insertion from the right, where an
    element moves behind another exactly when the comparator is
    positive. *)
Fixpoint insertBy {A : Type} (comparefn : A -> A -> Q) (x : A) (sorted : list A) : list A :=
  match sorted with
  | [] => [x]
  | y :: rest =>
      if Qle_bool (comparefn x y) 0 then x :: sorted
      else y :: insertBy comparefn x rest
  end.

Definition sort {A : Type} (comparefn : A -> A -> Q) (arr : list A) : list A :=
  fold_right (insertBy comparefn) [] arr.

Definition rankCandidates (items : list Candidate) : list Candidate :=
  sort compareCandidates items.

(** ** The network and the other oracles *)

Inductive Method : Type := GET | PUT.

(** The object [{ version, identifiers }] that [putOrg] serializes as the
    request body. *)
Record PutPayload : Type := mkPutPayload {
  payloadVersion : string;
  payloadIdentifiers : list Identifier
}.

Record Request : Type := mkRequest {
  method : Method;
  url : string;
  headers : list (string * string);
  body : option PutPayload
}.

(** A [Response] whose body, read by [res.json()], is typed by the caller. *)
Record Response (A : Type) : Type := mkResponse {
  status : Z;
  statusText : string;
  json : Outcome A
}.
Arguments mkResponse {A} status statusText json.
Arguments status {A} r.
Arguments statusText {A} r.
Arguments json {A} r.

(** [res.ok]: by the Fetch standard, the status is in the range 200-299. *)
Definition ok {A : Type} (res : Response A) : bool :=
  ((200 <=? status res) && (status res <=? 299))%Z.

(** The promise returned by [fetch]: rejected (network failure) or
    resolved with a response. *)
Inductive FetchResult (A : Type) : Type :=
| Rejected (e : Exn)
| Resolved (res : Response A).
Arguments Rejected {A} e.
Arguments Resolved {A} res.

(** A raw hit of the affiliation search, as [searchRor] reads it:
    [hitScore] is the value of [it?.score], whatever its type,
    [hitChosen] the truthiness of [it?.chosen], the two strings are
    [None] when the property is not a string. *)
Record RawHit : Type := mkRawHit {
  hitOrganization : option RorOrg;
  hitScore : Value;
  hitMatchingType : option string;
  hitChosen : bool;
  hitSubstring : option string
}.

(** Body of the affiliation search: [searchItems] is [None] when
    [data?.items] is not an array. *)
Record SearchData : Type := mkSearchData { searchItems : option (list RawHit) }.

(** Body of the detail endpoint.  A body that parses to [null] behaves
    like one that does not parse: reading [detailData.locations] throws
    inside the same [try]. *)
Record DetailData : Type := mkDetailData { detailLocations : option (list Location) }.

(** The environment: what each endpoint answers to a request, given the
    requests issued before it, the values of [Math.random()] and
    [Date.now()], and the number the built-in [Number(v)] gives for a
    string ([stringToNumber]) and for an object ([objectToNumber]). *)
Record Env : Type := mkEnv {
  catalogPage : list Request -> Request -> FetchResult PageResponse;
  catalogItem : list Request -> Request -> FetchResult ExtOrgItem;
  catalogPut : list Request -> Request -> FetchResult JSON;
  rorSearch : list Request -> Request -> FetchResult SearchData;
  rorDetail : list Request -> Request -> FetchResult DetailData;
  random : list Request -> Q;
  now : list Request -> Z;
  stringToNumber : string -> number;
  objectToNumber : JSON -> number
}.

(** ** React state of [App] and the computations over it *)

Record AppState : Type := mkAppState {
  points : number;
  history : list HistoryEntry;
  org : option ExtOrgItem;
  candidates : list Candidate;
  selectedIdx : option Z;
  error : option string;
  loading : bool;
  toast : option Toast;
  confirmOpen : bool;
  requests : list Request
}.

Definition M (A : Type) : Type := AppState -> Outcome A * AppState.

Definition ret {A : Type} (a : A) : M A := fun s => (Ok a, s).

Definition throw {A : Type} (e : Exn) : M A := fun s => (Throw e, s).

Definition bind {A B : Type} (m : M A) (k : A -> M B) : M B :=
  fun s =>
    match m s with
    | (Ok a, s') => k a s'
    | (Throw e, s') => (Throw e, s')
    end.

(** [try { m } catch (e) { handler e }]. *)
Definition tryCatch {A : Type} (m : M A) (handler : Exn -> M A) : M A :=
  fun s =>
    match m s with
    | (Ok a, s') => (Ok a, s')
    | (Throw e, s') => handler e s'
    end.

(** [try { m } finally { cleanup }], for a cleanup that does not throw. *)
Definition tryFinally {A : Type} (m : M A) (cleanup : AppState -> AppState) : M A :=
  fun s => let (r, s') := m s in (r, cleanup s').

(** [await x] for a value that may be a rejection. *)
Definition await {A : Type} (x : Outcome A) : M A :=
  match x with
  | Ok a => ret a
  | Throw e => throw e
  end.

Definition modify (f : AppState -> AppState) : M unit := fun s => (Ok tt, f s).

Declare Scope js_scope.
Delimit Scope js_scope with js.
Notation "x <- m ;; k" := (bind m (fun x => k))
  (at level 61, m at next level, right associativity) : js_scope.
Notation "m ;; k" := (bind m (fun _ => k))
  (at level 61, right associativity) : js_scope.
Local Open Scope js_scope.

(** [await Promise.all(items.map(f))] with every request issued in the
    order of the items. *)
Fixpoint mapM {A B : Type} (f : A -> M B) (l : list A) : M (list B) :=
  match l with
  | [] => ret []
  | x :: rest => y <- f x ;; ys <- mapM f rest ;; ret (y :: ys)
  end.

(** The state setters. *)
Definition withPoints (f : number -> number) (s : AppState) : AppState :=
  mkAppState (f (points s)) (history s) (org s) (candidates s) (selectedIdx s) (error s)
             (loading s) (toast s) (confirmOpen s) (requests s).
Definition withHistory (f : list HistoryEntry -> list HistoryEntry) (s : AppState) : AppState :=
  mkAppState (points s) (f (history s)) (org s) (candidates s) (selectedIdx s) (error s)
             (loading s) (toast s) (confirmOpen s) (requests s).
Definition withOrg (v : option ExtOrgItem) (s : AppState) : AppState :=
  mkAppState (points s) (history s) v (candidates s) (selectedIdx s) (error s)
             (loading s) (toast s) (confirmOpen s) (requests s).
Definition withCandidates (v : list Candidate) (s : AppState) : AppState :=
  mkAppState (points s) (history s) (org s) v (selectedIdx s) (error s)
             (loading s) (toast s) (confirmOpen s) (requests s).
Definition withSelectedIdx (v : option Z) (s : AppState) : AppState :=
  mkAppState (points s) (history s) (org s) (candidates s) v (error s)
             (loading s) (toast s) (confirmOpen s) (requests s).
Definition withError (v : option string) (s : AppState) : AppState :=
  mkAppState (points s) (history s) (org s) (candidates s) (selectedIdx s) v
             (loading s) (toast s) (confirmOpen s) (requests s).
Definition withLoading (v : bool) (s : AppState) : AppState :=
  mkAppState (points s) (history s) (org s) (candidates s) (selectedIdx s) (error s)
             v (toast s) (confirmOpen s) (requests s).
Definition withToast (v : option Toast) (s : AppState) : AppState :=
  mkAppState (points s) (history s) (org s) (candidates s) (selectedIdx s) (error s)
             (loading s) v (confirmOpen s) (requests s).
Definition withConfirmOpen (v : bool) (s : AppState) : AppState :=
  mkAppState (points s) (history s) (org s) (candidates s) (selectedIdx s) (error s)
             (loading s) (toast s) v (requests s).
Definition withRequest (req : Request) (s : AppState) : AppState :=
  mkAppState (points s) (history s) (org s) (candidates s) (selectedIdx s) (error s)
             (loading s) (toast s) (confirmOpen s) (requests s ++ [req])%list.

Definition setPoints (f : number -> number) : M unit := modify (withPoints f).
Definition setHistory (f : list HistoryEntry -> list HistoryEntry) : M unit := modify (withHistory f).
Definition setOrg (v : option ExtOrgItem) : M unit := modify (withOrg v).
Definition setCandidates (v : list Candidate) : M unit := modify (withCandidates v).
Definition setSelectedIdx (v : option Z) : M unit := modify (withSelectedIdx v).
Definition setError (v : option string) : M unit := modify (withError v).
Definition setLoading (v : bool) : M unit := modify (withLoading v).
Definition setToast (v : option Toast) : M unit := modify (withToast v).
Definition setConfirmOpen (v : bool) : M unit := modify (withConfirmOpen v).

(** ** The application *)

Section App.

Variable env : Env.

(** [fetch(input, init)], answered by the endpoint the call site
    addresses; the request is logged whether or not it is answered. *)
Definition fetch {A : Type} (endpoint : Env -> list Request -> Request -> FetchResult A)
    (req : Request) : M (Response A) :=
  fun s =>
    match endpoint env (requests s) req with
    | Rejected e => (Throw e, withRequest req s)
    | Resolved res => (Ok res, withRequest req s)
    end.

(** The function returned by [useLimitedFetch]: it adds the [Accept] and
    [api-key] headers in front of those of [init]. *)
Definition limitedFetch {A : Type} (endpoint : Env -> list Request -> Request -> FetchResult A)
    (input : string) (initMethod : Method) (initHeaders : list (string * string))
    (initBody : option PutPayload) : M (Response A) :=
  let headers := ([("Accept", "application/json"); ("api-key", PURE_API_KEY)] ++ initHeaders)%list in
  fetch endpoint (mkRequest initMethod input headers initBody).

(** [Math.random()]. *)
Definition mathRandom : M Q := fun s => (Ok (random env (requests s)), s).

(** [Date.now()]. *)
Definition dateNow : M Z := fun s => (Ok (now env (requests s)), s).

Definition getCount : M Z :=
  let url := buildUrl PURE_BASE_URL "/external-organizations?size=1&offset=0" in
  res <- limitedFetch catalogPage url GET [] None ;;
  if negb (ok res)
  then throw (Error ("Failed to fetch count: " ++ showZ (status res) ++ " " ++ statusText res))
  else
    data <- await (json res) ;;
    ret (if (count data =? 0)%Z then 0%Z else count data).

(** [item?.workflow?.step]. *)
Definition workflowStep (item : ExtOrgItem) : option string :=
  match workflow item with
  | Some w => step w
  | None => None
  end.

Definition stepIs (item : ExtOrgItem) (expected : string) : bool :=
  match workflowStep item with
  | Some st => String.eqb st expected
  | None => false
  end.

Definition fetchRandomOrg : M (option ExtOrgItem) :=
  count <- getCount ;;
  if (count =? 0)%Z then ret None
  else
    rnd <- mathRandom ;;
    let offset := Qfloor (rnd * inject_Z count) in
    let url := buildUrl PURE_BASE_URL ("/external-organizations?size=1&offset=" ++ showZ offset) in
    res <- limitedFetch catalogPage url GET [] None ;;
    if negb (ok res) then throw (Error ("Failed to fetch org: " ++ showZ (status res)))
    else
      data <- await (json res) ;;
      match hd_error (items data) with
      | Some item =>
          if (stepIs item "forApproval" || stepIs item "approved")
             && negb (hasRorIdentifier (identifiers item))
          then ret (Some item)
          else ret None
      | None => ret None
      end.

Definition fetchOrg (uuid : string) : M ExtOrgItem :=
  let url := buildUrl PURE_BASE_URL ("/external-organizations/" ++ uuid) in
  res <- limitedFetch catalogItem url GET [] None ;;
  if negb (ok res) then throw (Error ("Failed to fetch organization: " ++ showZ (status res)))
  else await (json res).

Definition putOrg (payloadUuid payloadVersion : string) (payloadIdentifiers : list Identifier)
    : M JSON :=
  let url := buildUrl PURE_BASE_URL ("/external-organizations/" ++ payloadUuid) in
  let bodyToSend := mkPutPayload payloadVersion payloadIdentifiers in
  res <- limitedFetch catalogPut url PUT [("Content-Type", "application/json")] (Some bodyToSend) ;;
  let responseBody :=
    match json res with
    | Ok parsed => parsed
    | Throw _ => JObject [("status", JNumber (inject_Z (status res)))]
    end in
  if negb (ok res) then throw (Error ("PUT failed: " ++ showZ (status res)))
  else ret responseBody.

(** [Number(v)]: [NaN] for [undefined], 0 for [null], 1 and 0 for [true]
    and [false], the number itself, and the conversion of the
    environment for a string and for an object. *)
Definition toNumber (v : Value) : number :=
  match v with
  | VUndefined => NaN
  | VNull => Finite 0
  | VBoolean b => Finite (if b then 1 else 0)
  | VNumber n => n
  | VString text => stringToNumber env text
  | VObject o => objectToNumber env o
  end.

(** [Number.isFinite(sc) ? sc : 0]. *)
Definition finiteOrZero (sc : number) : Q :=
  match sc with
  | Finite q => q
  | _ => 0
  end.

(** The callback of [raw.map] in [searchRor]. *)
Definition toCandidate (it : RawHit) : Candidate :=
  let r := match hitOrganization it with Some o => o | None => emptyRorOrg end in
  let sc := toNumber (hitScore it) in
  let scoreLocal := finiteOrZero sc in
  mkCandidate r scoreLocal (hitMatchingType it) (hitChosen it) (hitSubstring it).

(** [{ ...item, locations }]. *)
Definition withLocations (item : Candidate) (locs : option (list Location)) : Candidate :=
  let r := organization item in
  mkCandidate (mkRorOrg (rorId r) (rorName r) (names r) (aliases r) locs (rorOthers r))
              (scoreLocal item) (matching_type item) (chosen item) (substring item).

Definition detailRequest (canonicalId : string) : Request :=
  let rorId := replaceFirst "https://ror.org/" "" canonicalId in
  let detailUrl := "https://api.ror.org/v2/organizations/" ++ rorId in
  mkRequest GET detailUrl [("Accept", "application/json")] None.

(** The callback of [items.slice(0, 10).map] in [searchRor]. *)
Definition fetchLocations (item : Candidate) : M Candidate :=
  tryCatch
    (match rorId (organization item) with
     | None => throw (TypeError "Cannot read properties of undefined (reading 'replace')")
     | Some canonicalId =>
         detailRes <- fetch rorDetail (detailRequest canonicalId) ;;
         if ok detailRes
         then
           detailData <- await (json detailRes) ;;
           ret (withLocations item (detailLocations detailData))
         else ret item
     end)
    (fun _ => ret item).

Definition searchRequest (nameOnly : string) : Request :=
  let url := "https://api.ror.org/organizations?affiliation=" ++ encodeURIComponent nameOnly in
  mkRequest GET url [("Accept", "application/json")] None.

Definition searchRor (o : ExtOrgItem) : M (list Candidate) :=
  let nameOnly := trim (orElse (pickedValue (pickPreferredLocale (name o))) "") in
  if negb (truthy nameOnly) then ret []
  else
    res <- fetch rorSearch (searchRequest nameOnly) ;;
    if negb (ok res)
    then throw (Error ("ROR affiliation search failed: " ++ showZ (status res)))
    else
      data <- await (json res) ;;
      let raw := match searchItems data with Some l => l | None => [] end in
      let items := map toCandidate raw in
      let items := rankCandidates items in
      itemsWithLocations <- mapM fetchLocations (firstn 10 items) ;;
      let top := match hd_error itemsWithLocations with
                 | Some c => scoreLocal c
                 | None => 0
                 end in
      (if Qle_bool 0.7 top then setSelectedIdx (Some 0%Z) else ret tt) ;;
      ret itemsWithLocations.

Definition loadNext : M unit :=
  setError None ;;
  setLoading true ;;
  setCandidates [] ;;
  setSelectedIdx None ;;
  setOrg None ;;
  tryFinally
    (tryCatch
       (candidate <- fetchRandomOrg ;;
        match candidate with
        | None => throw (Error "No eligible external organizations found right now.")
        | Some candidate =>
            setOrg (Some candidate) ;;
            rorList <- searchRor candidate ;;
            setCandidates rorList
        end)
       (fun e => setError (Some (errorText e))))
    (withLoading false).

(** The entry [doLink] puts in front of the history. *)
Definition historyEntry (timestamp : Z) (latest : ExtOrgItem) (chosen : Candidate) : HistoryEntry :=
  let sl := scoreOf (scoreLocal chosen) in
  let orgName := orElse (pickedValue (pickPreferredLocale (name latest))) "External organization" in
  mkHistoryEntry timestamp (uuid latest) orgName (rorId (organization chosen)) sl
                 (matching_type chosen).

Definition doLink : M unit :=
  fun s =>
    match org s, selectedIdx s with
    | Some org, Some selectedIdx =>
        if (selectedIdx <? 0)%Z then (Ok tt, s)
        else
          let chosen := nth_error (candidates s) (Z.to_nat selectedIdx) in
          tryFinally
            (tryCatch
               (setLoading true ;;
                setError None ;;
                latest <- fetchOrg (uuid org) ;;
                if hasRorIdentifier (identifiers latest)
                then
                  setToast (Some (mkToast success "Already linked: ROR ID is present.")) ;;
                  setConfirmOpen false ;;
                  loadNext
                else
                  match chosen with
                  | None => throw (TypeError "Cannot read properties of undefined (reading 'id')")
                  | Some chosen =>
                      let newIdentifiers :=
                        (match identifiers latest with Some l => l | None => [] end
                         ++ [mkIdentifier (Some "ClassifiedId") (rorId (organization chosen))
                                          (Some ROR_TYPE) []])%list in
                      putOrg (uuid latest) (version latest) newIdentifiers ;;
                      let sl := scoreOf (scoreLocal chosen) in
                      let award := award sl in
                      setPoints (fun p => add p (Finite (inject_Z award))) ;;
                      timestamp <- dateNow ;;
                      setHistory (insertHistory (historyEntry timestamp latest chosen)) ;;
                      setToast (Some (mkToast success
                        ("Linked ROR to “"
                         ++ orElse (pickedValue (pickPreferredLocale (name latest))) "Org"
                         ++ "”."))) ;;
                      setConfirmOpen false ;;
                      loadNext
                  end)
               (fun e =>
                  setError (Some (errorText e)) ;;
                  setToast (Some (mkToast failure ("Failed to write to Pure: " ++ errorText e)))))
            (withLoading false) s
    | _, _ => (Ok tt, s)
    end.

Definition openConfirm : M unit :=
  fun s =>
    match org s, selectedIdx s with
    | Some _, Some selectedIdx =>
        if (selectedIdx <? 0)%Z then (Ok tt, s) else setConfirmOpen true s
    | _, _ => (Ok tt, s)
    end.

End App.

(** ** Sample data *)

Module Examples.

(** A ROR identifier as [doLink] writes it. *)
Definition classified (canonicalId : string) : Identifier :=
  mkIdentifier (Some "ClassifiedId") (Some canonicalId) (Some ROR_TYPE) [].

(** An identifier of another registry. *)
Definition isni : Identifier :=
  mkIdentifier (Some "ClassifiedId") (Some "0000000107424187")
               (Some (mkIdentifierType
                        "/dk/atira/pure/ueoexternalorganisation/ueoexternalorganisationsources/isni"
                        [("en_GB", "ISNI")]))
               [].

(** An identifier of another discriminator whose type URI ends in "/ror". *)
Definition unclassified (canonicalId : string) : Identifier :=
  mkIdentifier (Some "Id") (Some canonicalId) (Some ROR_TYPE) [].

Definition aalborg : string := "https://ror.org/04m5j1k67".

(** A catalog record in workflow step [st] with identifiers [ids]. *)
Definition record (st : string) (ids : option (list Identifier)) : ExtOrgItem :=
  mkExtOrgItem "6a1f0c2e" "v7" (Some [("en_GB", "Aalborg University")]) None ids None
               (Some (mkWorkflow (Some st) None)).

Definition candidate (sc : Q) (recommended : bool) : Candidate :=
  mkCandidate (mkRorOrg (Some aalborg) (Some "Aalborg University") None None None [])
              sc (Some "EXACT") recommended None.

Definition hit (sc : Value) : RawHit :=
  mkRawHit (Some (mkRorOrg (Some aalborg) (Some "Aalborg University") None None None []))
           sc (Some "EXACT") false None.

Definition offline {A : Type} : FetchResult A := Rejected (TypeError "Failed to fetch").

Definition answer {A : Type} (code : Z) (parsed : Outcome A) : FetchResult A :=
  Resolved (mkResponse code "" parsed).

Definition unparsable {A : Type} : Outcome A :=
  Throw (mkExn "SyntaxError" "Unexpected end of JSON input").

(** A sample of the conversion [Number(text)], for the environments of
    the examples: the numeric texts of ECMAScript (white space around,
    the empty text, a sign, "Infinity", decimal digits with a fraction
    and an exponent, and the prefixes 0x, 0o and 0b), read as the
    rational the text writes; a text beyond the range of a double gives
    an infinity or 0, every other text gives [NaN]. *)
Definition digitIn (base : Z) (c : ascii) : option Z :=
  let n := Z.of_nat (nat_of_ascii c) in
  let d := if ((48 <=? n) && (n <=? 57))%Z then Some (n - 48)%Z
           else if ((97 <=? n) && (n <=? 102))%Z then Some (n - 87)%Z
           else if ((65 <=? n) && (n <=? 70))%Z then Some (n - 55)%Z
           else None in
  match d with
  | Some v => if (v <? base)%Z then Some v else None
  | None => None
  end.

(** The longest run of digits at the front of [s]: its value on top of
    [acc], the number of digits read, and the rest. *)
Fixpoint readDigits (base acc : Z) (count : nat) (s : string) : Z * nat * string :=
  match s with
  | String c rest =>
      match digitIn base c with
      | Some d => readDigits base (base * acc + d)%Z (S count) rest
      | None => (acc, count, s)
      end
  | EmptyString => (acc, count, s)
  end.

(** A decimal literal [int.frac e exp] as mantissa and power of ten. *)
Definition readDecimal (t : string) : option (Z * Z) :=
  let '(int, ni, r1) := readDigits 10 0 0 t in
  let '(mant, nf, r2) :=
    match r1 with
    | String "."%char r => readDigits 10 int 0 r
    | _ => (int, 0%nat, r1)
    end in
  if (ni + nf =? 0)%nat then None
  else
    match r2 with
    | EmptyString => Some (mant, (- Z.of_nat nf)%Z)
    | String c r3 =>
        if Ascii.eqb c "e"%char || Ascii.eqb c "E"%char then
          let '(sign, r4) :=
            match r3 with
            | String "-"%char r => ((-1)%Z, r)
            | String "+"%char r => (1%Z, r)
            | _ => (1%Z, r3)
            end in
          let '(ex, ne, r5) := readDigits 10 0 0 r4 in
          if (ne =? 0)%nat then None
          else match r5 with
               | EmptyString => Some (mant, (sign * ex - Z.of_nat nf)%Z)
               | _ => None
               end
        else None
    end.

(** [sign * mant * 10^power], within the range of a double. *)
Definition scaled (sign mant power : Z) : number :=
  if (mant =? 0)%Z then Finite 0
  else if (400 <? power)%Z then (if (sign <? 0)%Z then NegInfinity else PosInfinity)
  else if (power <? - 400 - Z.log2 mant)%Z then Finite 0
  else
    let v := if (0 <=? power)%Z then inject_Z (mant * 10 ^ power)
             else Qmake mant (Z.to_pos (10 ^ (- power))) in
    if Qle_bool (inject_Z (2 ^ 1024 - 2 ^ 970)) v
    then (if (sign <? 0)%Z then NegInfinity else PosInfinity)
    else if Qle_bool v (Qmake 1 (2 ^ 1075)) then Finite 0
    else Finite (inject_Z sign * v).

Definition prefixed (base : Z) (digits : string) : number :=
  match readDigits base 0 0 digits with
  | (v, S _, EmptyString) => scaled 1 v 0
  | _ => NaN
  end.

Definition signed (sign : Z) (t : string) : number :=
  if String.eqb t "Infinity" then (if (sign <? 0)%Z then NegInfinity else PosInfinity)
  else match readDecimal t with
       | Some (mant, power) => scaled sign mant power
       | None => NaN
       end.

Definition numeric (text : string) : number :=
  match trim text with
  | EmptyString => Finite 0
  | String "-"%char t => signed (-1) t
  | String "+"%char t => signed 1 t
  | String "0"%char (String c t) =>
      if Ascii.eqb c "x"%char || Ascii.eqb c "X"%char then prefixed 16 t
      else if Ascii.eqb c "o"%char || Ascii.eqb c "O"%char then prefixed 8 t
      else if Ascii.eqb c "b"%char || Ascii.eqb c "B"%char then prefixed 2 t
      else signed 1 (trim text)
  | t => signed 1 t
  end.

(** A sample of [Number(o)] for an object: an array is converted
    through its text, which is numeric when the array is empty or holds
    one element that is [null], a number, a numeric string or such an
    array; a plain object is not numeric. *)
Fixpoint numericObject (o : JSON) : number :=
  match o with
  | JArray [] => Finite 0
  | JArray [x] =>
      match x with
      | JNull => Finite 0
      | JBool _ => NaN
      | JNumber q => Finite q
      | JString t => numeric t
      | JArray _ => numericObject x
      | JObject _ => NaN
      end
  | _ => NaN
  end.

(** An environment whose endpoints answer every request the same way. *)
Definition scripted (page : FetchResult PageResponse) (item : FetchResult ExtOrgItem)
    (put : FetchResult JSON) (search : FetchResult SearchData)
    (detail : FetchResult DetailData) : Env :=
  mkEnv (fun _ _ => page) (fun _ _ => item) (fun _ _ => put) (fun _ _ => search)
        (fun _ _ => detail) (fun _ => 1 # 2) (fun _ => 1700000000000%Z)
        numeric numericObject.

(** A catalog that holds the record in step "approved" with the
    identifiers [ids] and accepts every update; the registry is
    unreachable. *)
Definition catalogWith (ids : option (list Identifier)) : Env :=
  scripted (answer 200 (Ok (mkPageResponse 1 [record "approved" ids])))
           (answer 200 (Ok (record "approved" ids)))
           (answer 200 (Ok JNull)) offline offline.

(** The state after a record was loaded and its first candidate
    selected, with the confirmation modal open. *)
Definition confirming (o : ExtOrgItem) : AppState :=
  mkAppState (Finite 0) [] (Some o) [candidate 0.95 true] (Some 0%Z) None false None true [].

Definition idle : AppState :=
  mkAppState (Finite 0) [] None [] None None false None false [].

(** [JSON.parse] on the three texts the examples store; every other
    text is taken as unparsable. *)
Definition parseLiteral (text : string) : Outcome JSON :=
  if String.eqb text "[]" then Ok (JArray [])
  else if String.eqb text "null" then Ok JNull
  else if String.eqb text "{}" then Ok (JObject [])
  else Throw (mkExn "SyntaxError" "Unexpected token").




(** [toLowerCase] on ASCII text, where it maps the letters A to Z to
    a to z and nothing else; the examples hold ASCII text only. *)
Definition lowerAscii (s : string) : string :=
  let lower (c : ascii) :=
    let n := nat_of_ascii c in
    if ((65 <=? n) && (n <=? 90))%nat then ascii_of_nat (n + 32) else c in
  (fix go (t : string) : string :=
     match t with
     | String c rest => String (lower c) (go rest)
     | EmptyString => EmptyString
     end) s.

(** A registry organization with the curated name [n] and the aliases
    [al]. *)
Definition named (n : string) (al : list string) : RorOrg :=
  mkRorOrg (Some aalborg) (Some n) None (Some al) None [].

(** Entry number [n] of a history. *)
Definition entry (n : nat) : HistoryEntry :=
  mkHistoryEntry (Z.of_nat n) "6a1f0c2e" "Aalborg University" (Some aalborg) 0.95 (Some "EXACT").

End Examples.

(** ** Vocabulary of the properties *)

(** The identifier [doLink] appends:
    [{ typeDiscriminator: "ClassifiedId", id: chosen.id, type: ROR_TYPE }]. *)
Definition newRorIdentifier (canonicalId : option string) : Identifier :=
  mkIdentifier (Some "ClassifiedId") canonicalId (Some ROR_TYPE) [].

(** Every run of [m] relates the state before it to the state after it
    by [R]. *)
Definition respects {A : Type} (R : AppState -> AppState -> Prop) (m : M A) : Prop :=
  forall s r s', m s = (r, s') -> R s s'.

(** Between [s] and [s'] the log of requests only grew, by requests that
    satisfy [P]. *)
Definition requestsGrowBy (P : Request -> Prop) (s s' : AppState) : Prop :=
  exists new, requests s' = (requests s ++ new)%list /\ Forall P new.

(** A request of method [GET]. *)
Definition isGet (req : Request) : Prop := method req = GET.

(** A [PUT] request carries a list [hasRorIdentifier] rejects followed by
    the new ROR identifier, so a list with exactly one identifier that
    [hasRorIdentifier] recognises. *)
Definition putsOneRor (req : Request) : Prop :=
  method req = PUT ->
  exists v refreshed canonicalId,
    body req = Some (mkPutPayload v (refreshed ++ [newRorIdentifier canonicalId]))
    /\ existsb isRorIdentifier refreshed = false
    /\ List.length (filter isRorIdentifier (refreshed ++ [newRorIdentifier canonicalId])) = 1%nat.

(** [loadNext] leaves points, history, toast and the confirmation modal
    alone and issues [GET] requests only. *)
Definition keepsProgress (s s' : AppState) : Prop :=
  points s' = points s /\ history s' = history s /\ toast s' = toast s
  /\ confirmOpen s' = confirmOpen s /\ requestsGrowBy isGet s s'.

(** The [GET] request [limitedFetch] issues for [url]. *)
Definition catalogGet (url : string) : Request :=
  mkRequest GET url [("Accept", "application/json"); ("api-key", PURE_API_KEY)] None.

(** The request of [fetchOrg]. *)
Definition itemRequest (uuid : string) : Request :=
  catalogGet (buildUrl PURE_BASE_URL ("/external-organizations/" ++ uuid)).

(** The toast of the short-circuit in [doLink]. *)
Definition alreadyLinked : Toast := mkToast success "Already linked: ROR ID is present.".

(** The reading of the specification: an identifier "whose type URI ends
    in the registry suffix", whatever its discriminator. *)
Definition typeUriEndsInRor (i : Identifier) : bool :=
  match type i with
  | Some t => endsWith (uri t) "/ror"
  | None => false
  end.

(** Insertions of [entries], oldest first, into the history [h]. *)
Definition insertAll (entries : list HistoryEntry) (h : list HistoryEntry) : list HistoryEntry :=
  fold_left (fun acc entry => insertHistory entry acc) entries h.

(** A history of at most 50 entries stays so. *)
Definition historyCapped (s s' : AppState) : Prop :=
  (List.length (history s) <= 50)%nat -> (List.length (history s') <= 50)%nat.

(** The request of [getCount]. *)
Definition countRequest : Request :=
  catalogGet (buildUrl PURE_BASE_URL "/external-organizations?size=1&offset=0").

(** The request [fetchRandomOrg] issues for the page at [offset]. *)
Definition pageRequest (offset : Z) : Request :=
  catalogGet (buildUrl PURE_BASE_URL ("/external-organizations?size=1&offset=" ++ showZ offset)).

(** [item.identifiers || []]. *)
Definition identifierList (item : ExtOrgItem) : list Identifier :=
  match identifiers item with Some l => l | None => [] end.

(** Eligibility as the program decides it: the step is "forApproval" or
    "approved", and no identifier has both the discriminator
    "ClassifiedId" and a type URI ending in "/ror". *)
Definition recognisedEligible (item : ExtOrgItem) : Prop :=
  (workflowStep item = Some "forApproval" \/ workflowStep item = Some "approved")
  /\ forall i, In i (identifierList item) ->
               ~ (typeDiscriminator i = Some "ClassifiedId" /\ typeUriEndsInRor i = true).

(** Eligibility as the specification words it: no identifier at all has
    a type URI ending in "/ror". *)
Definition statedEligible (item : ExtOrgItem) : Prop :=
  (workflowStep item = Some "forApproval" \/ workflowStep item = Some "approved")
  /\ forall i, In i (identifierList item) -> typeUriEndsInRor i = false.

(** The offset [Math.floor(Math.random() * count)] drawn after the count
    request. *)
Definition probeOffset (env : Env) (s : AppState) (total : Z) : Z :=
  Qfloor (random env (requests (withRequest countRequest s)) * inject_Z total).

(** The request of [putOrg]. *)
Definition putRequest (u v : string) (ids : list Identifier) : Request :=
  mkRequest PUT (buildUrl PURE_BASE_URL ("/external-organizations/" ++ u))
            [("Accept", "application/json"); ("api-key", PURE_API_KEY);
             ("Content-Type", "application/json")]
            (Some (mkPutPayload v ids)).

(** The detail requests [fetchLocations] issues for a candidate: one when
    the candidate has an [id], none otherwise. *)
Definition lookupRequests (item : Candidate) : list Request :=
  match rorId (organization item) with
  | Some canonicalId => [detailRequest canonicalId]
  | None => []
  end.

(** The candidate [fetchLocations] returns when [log] holds the requests
    issued before it runs. *)
Definition lookupResult (env : Env) (log : list Request) (item : Candidate) : Candidate :=
  match rorId (organization item) with
  | None => item
  | Some canonicalId =>
      match rorDetail env log (detailRequest canonicalId) with
      | Rejected _ => item
      | Resolved res =>
          if ok res
          then match json res with
               | Ok detailData => withLocations item (detailLocations detailData)
               | Throw _ => item
               end
          else item
      end
  end.

(** The candidates the fan-out of [searchRor] returns for [items], the
    requests of earlier items being logged before those of later ones. *)
Fixpoint lookupAll (env : Env) (log : list Request) (items : list Candidate) : list Candidate :=
  match items with
  | [] => []
  | item :: rest =>
      lookupResult env log item :: lookupAll env (log ++ lookupRequests item) rest
  end.

(** The state after the requests [reqs] were issued. *)
Definition logged (reqs : list Request) (s : AppState) : AppState :=
  fold_left (fun st req => withRequest req st) reqs s.

(** The search term of [searchRor]. *)
Definition nameOnlyOf (o : ExtOrgItem) : string :=
  trim (orElse (pickedValue (pickPreferredLocale (name o))) "").

(** The raw hits of a search body: [Array.isArray(data?.items) ? data.items : []]. *)
Definition rawHits (data : SearchData) : list RawHit :=
  match searchItems data with Some l => l | None => [] end.

(** A lookup that does not answer with a success status and a parsable
    body. *)
Definition lookupFailed (answer : FetchResult DetailData) : Prop :=
  match answer with
  | Rejected _ => True
  | Resolved res =>
      ok res = false \/ exists e, json res = Throw e
  end.

(** [a] may stand before [b]: [a] is recommended and [b] is not, or they
    agree on the flag and [a] scores at least as much as [b]. *)
Definition rankedBefore (a b : Candidate) : Prop :=
  (chosen a = true /\ chosen b = false)
  \/ (chosen a = chosen b /\ scoreLocal b <= scoreLocal a).

(** Candidates with the same sort key: flag [flag] and score [sc]. *)
Definition sameKey (flag : bool) (sc : Q) (c : Candidate) : bool :=
  Bool.eqb (chosen c) flag && Qeq_bool (scoreLocal c) sc.

(** [r.names || []] and [r.aliases || []]. *)
Definition nameList (r : RorOrg) : list RorName :=
  match names r with Some l => l | None => [] end.

Definition aliasField (r : RorOrg) : list string :=
  match aliases r with Some l => l | None => [] end.

(** [a] is listed as an alias of [r]: in the [aliases] field or as the
    value of a name tagged "alias". *)
Definition listedAlias (r : RorOrg) (a : string) : Prop :=
  In a (aliasField r)
  \/ exists n, In n (nameList r) /\ hasType "alias" n = true /\ value n = a.

(** The [PUT] request of [doLink] for the refreshed record [latest] and
    the candidate [chosen]. *)
Definition linkRequest (chosen : Candidate) (latest : ExtOrgItem) : Request :=
  putRequest (uuid latest) (version latest)
             (identifierList latest ++ [newRorIdentifier (rorId (organization chosen))]).

(** [Date.now()] as [doLink] reads it for the history entry, after the
    refresh and the [PUT]. *)
Definition linkTimestamp (env : Env) (s : AppState) (o : ExtOrgItem) (chosen : Candidate)
    (latest : ExtOrgItem) : Z :=
  now env (requests s ++ [itemRequest (uuid o); linkRequest chosen latest]).

(** A [doLink] call that writes: record [o] and candidate [chosen] are
    selected, the refresh answers [latest], in which [hasRorIdentifier]
    finds nothing, and the [PUT] is answered with a success status. *)
Definition linkSucceeds (env : Env) (s : AppState) (o : ExtOrgItem) (i : Z)
    (chosen : Candidate) (latest : ExtOrgItem) : Prop :=
  org s = Some o
  /\ selectedIdx s = Some i
  /\ (0 <= i)%Z
  /\ nth_error (candidates s) (Z.to_nat i) = Some chosen
  /\ (exists res,
        catalogItem env (requests s) (itemRequest (uuid o)) = Resolved res
        /\ ok res = true
        /\ json res = Ok latest)
  /\ hasRorIdentifier (identifiers latest) = false
  /\ exists written,
      catalogPut env (requests s ++ [itemRequest (uuid o)]) (linkRequest chosen latest)
      = Resolved written
      /\ ok written = true.

(** ** Further parts of [App.tsx] *)

(** [a >= b] on numbers: false as soon as one side is [NaN]. *)
Definition numberGeq (a b : number) : bool :=
  match a, b with
  | NaN, _ | _, NaN => false
  | Finite x, Finite y => Qle_bool y x
  | PosInfinity, _ => true
  | _, NegInfinity => true
  | _, PosInfinity => false
  | NegInfinity, _ => false
  end.

Record LevelStop : Type := mkLevelStop { label : string; threshold : Z }.

Definition levelStops : list LevelStop :=
  [ mkLevelStop "Unstructured Newbie 👶" 0;
    mkLevelStop "Metadata Apprentice 🧙‍♀️" 250;
    mkLevelStop "Pure Data influencer 🧑‍💻" 500;
    mkLevelStop "Persistent Identifier Pro 😎" 700;
    mkLevelStop "Final Boss of Metadata 👹" 900 ].

(** [[...stops].reverse().find((s) => points >= s.threshold)]. *)
Definition reachedStop (stops : list LevelStop) (points : number) : option LevelStop :=
  find (fun s => numberGeq points (Finite (inject_Z (threshold s)))) (rev stops).

(** [currentLevel]: the label of the last stop reached, or else the
    label of the first stop. *)
Definition currentLevel (points : number) : string :=
  let first := match levelStops with s :: _ => label s | [] => "" end in
  match reachedStop levelStops points with
  | Some s => orElse (label s) first
  | None => first
  end.

(** [String(points)], the text the effect on [points] stores.  A finite
    total is an integer (it starts from [parseInt] and grows by awards),
    printed in decimal digits. *)
Definition pointsText (points : number) : string :=
  match points with
  | Finite q => showZ (Qfloor q)
  | NaN => "NaN"
  | PosInfinity => "Infinity"
  | NegInfinity => "-Infinity"
  end.

(** The wait of the function returned by [useLimitedFetch]: with
    [now = Date.now()] and [delta = now - lastCall.current], it sleeps
    [rateLimitMs - delta] milliseconds when [delta < rateLimitMs] and does
    not sleep otherwise. *)
Definition limiterSleep (rateLimitMs lastCall now : Z) : option Z :=
  let delta := (now - lastCall)%Z in
  if (delta <? rateLimitMs)%Z then Some (rateLimitMs - delta)%Z else None.

(** The clock does not run backwards between the two readings of
    [Date.now()] in the limiter, and a sleep lasts at least as long as
    asked. *)
Definition resumedAfter (wait : option Z) (now resumed : Z) : Prop :=
  match wait with
  | Some ms => (now + ms <= resumed)%Z
  | None => (now <= resumed)%Z
  end.

(** ** Further vocabulary *)

(** The requests the program issues: to the catalog, under
    [PURE_BASE_URL] and with the API key, or to the registry, with the
    [Accept] header only. *)
Inductive issued : Request -> Prop :=
| issuedCatalogGet (path : string) :
    issued (catalogGet (buildUrl PURE_BASE_URL path))
| issuedPut (u v : string) (ids : list Identifier) :
    issued (putRequest u v ids)
| issuedSearch (nameOnly : string) :
    issued (searchRequest nameOnly)
| issuedDetail (canonicalId : string) :
    issued (detailRequest canonicalId).

(** The request carries the API key. *)
Definition carriesKey (req : Request) : Prop := In ("api-key", PURE_API_KEY) (headers req).

(** The request goes to the catalog: its URL starts with the base URL. *)
Definition toCatalog (req : Request) : Prop :=
  prefix (dropTrailing isSlash PURE_BASE_URL ++ "/") (url req) = true.

(** The request goes to the registry. *)
Definition toRegistry (req : Request) : Prop := prefix "https://api.ror.org/" (url req) = true.

(** The React state of [s'] is that of [s]; only the log of requests may
    differ. *)
Definition sameView (s s' : AppState) : Prop :=
  points s' = points s /\ history s' = history s /\ org s' = org s
  /\ candidates s' = candidates s /\ selectedIdx s' = selectedIdx s
  /\ error s' = error s /\ loading s' = loading s /\ toast s' = toast s
  /\ confirmOpen s' = confirmOpen s.

(** What a failed [doLink] leaves: the error text in [error] and in a
    failure toast, [loading] off, and everything else as before. *)
Definition reportsFailure (e : Exn) (s s' : AppState) : Prop :=
  error s' = Some (errorText e)
  /\ toast s' = Some (mkToast failure ("Failed to write to Pure: " ++ errorText e))
  /\ loading s' = false
  /\ points s' = points s /\ history s' = history s /\ org s' = org s
  /\ candidates s' = candidates s /\ selectedIdx s' = selectedIdx s
  /\ confirmOpen s' = confirmOpen s.

(** Every character of [s] satisfies [p]. *)
Fixpoint allChars (p : ascii -> bool) (s : string) : bool :=
  match s with
  | String c rest => p c && allChars p rest
  | EmptyString => true
  end.

(** Characters of an encoded URI component: unreserved ones and the
    percent sign. *)
Definition encodedChar (c : ascii) : bool := unreserved c || Ascii.eqb c "%"%char.

(** The state [loadNext] starts its attempt from: the previous record,
    candidates, selection and error are cleared and [loading] is on. *)
Definition cleared (s : AppState) : AppState :=
  withOrg None (withSelectedIdx None (withCandidates [] (withLoading true (withError None s)))).

(** The state [loadNext] ends in when it reports [msg]. *)
Definition stopped (msg : string) (s : AppState) : AppState :=
  withLoading false (withError (Some msg) s).

(** The state [doLink] starts its attempt from. *)
Definition started (s : AppState) : AppState := withError None (withLoading true s).

(** The state [doLink] ends in when its attempt throws [e] in state [s]. *)
Definition failed (e : Exn) (s : AppState) : AppState :=
  withLoading false
    (withToast (Some (mkToast failure ("Failed to write to Pure: " ++ errorText e)))
       (withError (Some (errorText e)) s)).

(** The refresh of [doLink] fails with [e]: the request is rejected with
    [e], or answered with a non-success status, or its body does not
    parse. *)
Definition refreshFails (env : Env) (s : AppState) (o : ExtOrgItem) (e : Exn) : Prop :=
  match catalogItem env (requests s) (itemRequest (uuid o)) with
  | Rejected rejection => e = rejection
  | Resolved res =>
      if ok res then json res = Throw e
      else e = Error ("Failed to fetch organization: " ++ showZ (status res))
  end.

(** The refresh of [doLink] answers the record [latest]. *)
Definition refreshes (env : Env) (s : AppState) (o latest : ExtOrgItem) : Prop :=
  exists res,
    catalogItem env (requests s) (itemRequest (uuid o)) = Resolved res
    /\ ok res = true
    /\ json res = Ok latest.

(** The [PUT] of [doLink] fails with [e]: rejected with [e], or answered
    with a non-success status. *)
Definition putFails (env : Env) (s : AppState) (o : ExtOrgItem) (chosen : Candidate)
    (latest : ExtOrgItem) (e : Exn) : Prop :=
  match catalogPut env (requests s ++ [itemRequest (uuid o)]) (linkRequest chosen latest) with
  | Rejected rejection => e = rejection
  | Resolved res => ok res = false /\ e = Error ("PUT failed: " ++ showZ (status res))
  end.

(** The guard of [doLink] and [openConfirm] lets the call through. *)
Definition selected (s : AppState) (o : ExtOrgItem) (i : Z) : Prop :=
  org s = Some o /\ selectedIdx s = Some i /\ (0 <= i)%Z.

(** The state [doLink] reaches after a successful [PUT], before it runs
    [loadNext]: award added, entry inserted, success toast, modal closed. *)
Definition linkedView (timestamp : Z) (latest : ExtOrgItem) (chosen : Candidate)
    (s : AppState) : AppState :=
  withConfirmOpen false
    (withToast
       (Some (mkToast success
                ("Linked ROR to “"
                 ++ orElse (pickedValue (pickPreferredLocale (name latest))) "Org"
                 ++ "”.")))
       (withHistory (insertHistory (historyEntry timestamp latest chosen))
          (withPoints (fun p => add p (Finite (inject_Z (award (scoreOf (scoreLocal chosen))))))
             s))).

(** Successive calls of the limited function, one after the other: each
    call is the pair [(now, resumed)] of its two readings of
    [Date.now()], and [resumed] is the value it leaves in
    [lastCall.current].  [timed] says that every call slept as
    [limiterSleep] asks. *)
Fixpoint timed (rateLimitMs lastCall : Z) (calls : list (Z * Z)) : Prop :=
  match calls with
  | [] => True
  | (now, resumed) :: rest =>
      resumedAfter (limiterSleep rateLimitMs lastCall now) now resumed
      /\ timed rateLimitMs resumed rest
  end.

(** Each time of [times] is at least [gap] after the one before it,
    the first one after [last]. *)
Fixpoint spaced (gap last : Z) (times : list Z) : Prop :=
  match times with
  | [] => True
  | t :: rest => (last + gap <= t)%Z /\ spaced gap t rest
  end.

(** Between [s] and [s'] the log grew by at most [catalogMax] requests to
    the catalog followed by at most [registryMax] requests to the
    registry. *)
Definition withinBudget (catalogMax registryMax : nat) (s s' : AppState) : Prop :=
  exists catalog registry,
    requests s' = (requests s ++ catalog ++ registry)%list
    /\ Forall toCatalog catalog /\ (List.length catalog <= catalogMax)%nat
    /\ Forall toRegistry registry /\ (List.length registry <= registryMax)%nat.

(** ** The buttons of [App.tsx] *)

(** The modal is rendered when
    [confirmOpen && org && selectedIdx !== null && candidates[selectedIdx]]. *)
Definition modalShown (s : AppState) : bool :=
  confirmOpen s
  && match org s with Some _ => true | None => false end
  && match selectedIdx s with
     | Some i =>
         (0 <=? i)%Z
         && match nth_error (candidates s) (Z.to_nat i) with Some _ => true | None => false end
     | None => false
     end.

(** What the user, or the timer of the toast, can do. *)
Inductive Event : Type :=
| nextClicked
| linkClicked
| confirmClicked
| cancelClicked
| candidateSelected (i : nat)
| historyCleared
| toastExpired.

(** The event can happen in [s]: "Next random org" has
    [disabled={loading}], "Link selected ROR" has
    [disabled={loading || selectedIdx === null}], "Confirm & link" and
    the three ways to cancel are in the modal, the first with
    [disabled={loading}], there is one radio button for each candidate on
    display, and the timer runs while there is a toast. *)
Definition offered (ev : Event) (s : AppState) : bool :=
  match ev with
  | nextClicked => negb (loading s)
  | linkClicked =>
      negb (loading s || match selectedIdx s with None => true | Some _ => false end)
  | confirmClicked => modalShown s && negb (loading s)
  | cancelClicked => modalShown s
  | candidateSelected i => (i <? List.length (candidates s))%nat
  | historyCleared => true
  | toastExpired => match toast s with Some _ => true | None => false end
  end.

(** The handler of the event, run to its end: [onClick={loadNext}],
    [onClick={openConfirm}], [onClick={doLink}],
    [setConfirmOpen(false)], [setSelectedIdx(i)], [setHistory([])] and
    [setToast(null)]. *)
Definition handle (env : Env) (ev : Event) (s : AppState) : AppState :=
  if offered ev s then
    match ev with
    | nextClicked => snd (loadNext env s)
    | linkClicked => snd (openConfirm s)
    | confirmClicked => snd (doLink env s)
    | cancelClicked => withConfirmOpen false s
    | candidateSelected i => withSelectedIdx (Some (Z.of_nat i)) s
    | historyCleared => withHistory (fun _ => []) s
    | toastExpired => withToast None s
    end
  else s.

(** The events handled one after the other, each handler finishing
    before the next event. *)
Definition run (env : Env) (events : list Event) (s : AppState) : AppState :=
  fold_left (fun st ev => handle env ev st) events s.

(** The state of the first render, and the state after the effect that
    runs [loadNext] on mount. *)
Definition initial (storedPoints : number) (storedHistory : list HistoryEntry) : AppState :=
  mkAppState storedPoints storedHistory None [] None None false None false [].

Definition mounted (env : Env) (storedPoints : number) (storedHistory : list HistoryEntry)
  : AppState :=
  snd (loadNext env (initial storedPoints storedHistory)).

(** A state between two events: nothing is in flight, the record on
    display is eligible, at most 10 candidates are on display and only
    beside a record, the selection points at one of them, and the
    history holds at most 50 entries. *)
Definition settled (s : AppState) : Prop :=
  loading s = false
  /\ (forall o, org s = Some o -> recognisedEligible o)
  /\ (List.length (candidates s) <= 10)%nat
  /\ (candidates s <> [] -> org s <> None)
  /\ (forall i, selectedIdx s = Some i -> (0 <= i < Z.of_nat (List.length (candidates s)))%Z)
  /\ (List.length (history s) <= 50)%nat.

(** * Properties *)

(** ** Reasoning about computations: relations every run respects *)

Section Respects.

Variable R : AppState -> AppState -> Prop.
Hypothesis R_refl : forall s, R s s.
Hypothesis R_trans : forall s1 s2 s3, R s1 s2 -> R s2 s3 -> R s1 s3.

Lemma respects_ret {A : Type} (a : A) : respects R (ret a).
Proof. intros s r s' H. inversion H; subst. apply R_refl. Qed.

Lemma respects_throw {A : Type} (e : Exn) : respects R (@throw A e).
Proof. intros s r s' H. inversion H; subst. apply R_refl. Qed.

Lemma respects_await {A : Type} (x : Outcome A) : respects R (await x).
Proof. destruct x; [apply respects_ret | apply respects_throw]. Qed.

Lemma respects_modify (f : AppState -> AppState) :
  (forall s, R s (f s)) -> respects R (modify f).
Proof. intros Hf s r s' H. inversion H; subst. apply Hf. Qed.

Lemma respects_bind {A B : Type} (m : M A) (k : A -> M B) :
  respects R m -> (forall a, respects R (k a)) -> respects R (bind m k).
Proof.
  intros Hm Hk s r s' H. unfold bind in H.
  destruct (m s) as [[a | e] s1] eqn:E.
  - eapply R_trans; [eapply Hm; exact E | eapply Hk; exact H].
  - inversion H; subst. eapply Hm; exact E.
Qed.

Lemma respects_tryCatch {A : Type} (m : M A) (handler : Exn -> M A) :
  respects R m -> (forall e, respects R (handler e)) -> respects R (tryCatch m handler).
Proof.
  intros Hm Hh s r s' H. unfold tryCatch in H.
  destruct (m s) as [[a | e] s1] eqn:E.
  - inversion H; subst. eapply Hm; exact E.
  - eapply R_trans; [eapply Hm; exact E | eapply Hh; exact H].
Qed.

Lemma respects_tryFinally {A : Type} (m : M A) (cleanup : AppState -> AppState) :
  respects R m -> (forall s, R s (cleanup s)) -> respects R (tryFinally m cleanup).
Proof.
  intros Hm Hc s r s' H. unfold tryFinally in H.
  destruct (m s) as [r1 s1] eqn:E. inversion H; subst.
  eapply R_trans; [eapply Hm; exact E | apply Hc].
Qed.

Lemma respects_mapM {A B : Type} (f : A -> M B) (l : list A) :
  (forall a, respects R (f a)) -> respects R (mapM f l).
Proof.
  intros Hf. induction l as [| x rest IH]; simpl.
  - apply respects_ret.
  - apply respects_bind; [apply Hf | intros y].
    apply respects_bind; [exact IH | intros ys]. apply respects_ret.
Qed.

Lemma respects_fetch {A : Type} (env : Env)
    (endpoint : Env -> list Request -> Request -> FetchResult A) (req : Request) :
  (forall s, R s (withRequest req s)) -> respects R (fetch env endpoint req).
Proof.
  intros Hreq s r s' H. unfold fetch in H.
  destruct (endpoint env (requests s) req); inversion H; subst; apply Hreq.
Qed.

Lemma respects_mathRandom (env : Env) : respects R (mathRandom env).
Proof. intros s r s' H. inversion H; subst. apply R_refl. Qed.

Lemma respects_dateNow (env : Env) : respects R (dateNow env).
Proof. intros s r s' H. inversion H; subst. apply R_refl. Qed.

(** What [loadNext] does to the state: it sets [error], [loading],
    [candidates], [selectedIdx] and [org], and it issues [GET]
    requests. *)
Hypothesis R_error : forall v s, R s (withError v s).
Hypothesis R_loading : forall v s, R s (withLoading v s).
Hypothesis R_candidates : forall v s, R s (withCandidates v s).
Hypothesis R_selectedIdx : forall v s, R s (withSelectedIdx v s).
Hypothesis R_org : forall v s, R s (withOrg v s).
Hypothesis R_get : forall req s, method req = GET -> R s (withRequest req s).

Ltac respects_step :=
  first
    [ apply respects_ret
    | apply respects_throw
    | apply respects_await
    | apply respects_mathRandom
    | apply respects_dateNow
    | apply respects_modify; intros; solve [auto]
    | apply respects_fetch; intros; apply R_get; reflexivity
    | apply respects_bind; [| intros ]
    | apply respects_tryCatch; [| intros ]
    | apply respects_tryFinally; [| intros; solve [auto] ]
    | apply respects_mapM; intros
    | match goal with
      | |- respects _ (if ?b then _ else _) => destruct b
      | |- respects _ (match ?x with _ => _ end) => destruct x
      end ].

Lemma respects_getCount (env : Env) : respects R (getCount env).
Proof. unfold getCount, limitedFetch. cbv zeta. repeat respects_step. Qed.

Lemma respects_fetchRandomOrg (env : Env) : respects R (fetchRandomOrg env).
Proof.
  unfold fetchRandomOrg, limitedFetch. cbv zeta.
  apply respects_bind; [apply respects_getCount | intros].
  repeat respects_step.
Qed.

Lemma respects_fetchOrg (env : Env) (uuid : string) : respects R (fetchOrg env uuid).
Proof. unfold fetchOrg, limitedFetch. cbv zeta. repeat respects_step. Qed.

Lemma respects_fetchLocations (env : Env) (item : Candidate) :
  respects R (fetchLocations env item).
Proof. unfold fetchLocations. repeat respects_step. Qed.

Lemma respects_searchRor (env : Env) (o : ExtOrgItem) : respects R (searchRor env o).
Proof.
  unfold searchRor. cbv zeta.
  destruct (negb _); [apply respects_ret |].
  apply respects_bind; [apply respects_fetch; intros; apply R_get; reflexivity | intros res].
  destruct (negb _); [apply respects_throw |].
  apply respects_bind; [apply respects_await | intros data].
  apply respects_bind; [apply respects_mapM; intros; apply respects_fetchLocations | intros l].
  unfold setSelectedIdx. repeat respects_step.
Qed.

Lemma respects_loadNext (env : Env) : respects R (loadNext env).
Proof.
  unfold loadNext, setError, setLoading, setCandidates, setSelectedIdx, setOrg.
  do 5 (apply respects_bind; [apply respects_modify; intros; auto | intros]).
  apply respects_tryFinally; [| intros; auto].
  apply respects_tryCatch; [| intros; apply respects_modify; intros; auto].
  apply respects_bind; [apply respects_fetchRandomOrg | intros [candidate |]].
  - apply respects_bind; [apply respects_modify; intros; auto | intros].
    apply respects_bind; [apply respects_searchRor | intros].
    apply respects_modify; intros; auto.
  - apply respects_throw.
Qed.

(** What [doLink] adds: it sets [toast], [confirmOpen], [points] and
    [history], and it issues one [PUT] request, whose identifier list is
    a list [hasRorIdentifier] rejects followed by the new identifier. *)
Hypothesis R_toast : forall v s, R s (withToast v s).
Hypothesis R_confirmOpen : forall v s, R s (withConfirmOpen v s).
Hypothesis R_points : forall f s, R s (withPoints f s).
Hypothesis R_history : forall entry s, R s (withHistory (insertHistory entry) s).
Hypothesis R_put : forall req v refreshed canonicalId s,
  method req = PUT ->
  body req = Some (mkPutPayload v (refreshed ++ [newRorIdentifier canonicalId])) ->
  existsb isRorIdentifier refreshed = false ->
  R s (withRequest req s).

Lemma respects_putOrg (env : Env) (u v : string) (refreshed : list Identifier)
    (canonicalId : option string) :
  existsb isRorIdentifier refreshed = false ->
  respects R (putOrg env u v (refreshed ++ [newRorIdentifier canonicalId])).
Proof.
  intros Hnone. unfold putOrg, limitedFetch. cbv zeta.
  apply respects_bind.
  - apply respects_fetch. intros s. eapply R_put; [reflexivity | reflexivity | exact Hnone].
  - intros res. destruct (negb (ok res)); [apply respects_throw | apply respects_ret].
Qed.

Lemma hasRorIdentifier_false (ids : option (list Identifier)) :
  hasRorIdentifier ids = false ->
  existsb isRorIdentifier (match ids with Some l => l | None => [] end) = false.
Proof. destruct ids; intros H; [exact H | reflexivity]. Qed.

Lemma respects_doLink (env : Env) : respects R (doLink env).
Proof.
  intros s r s' H. unfold doLink in H.
  destruct (org s) as [o |]; [| inversion H; subst; apply R_refl].
  destruct (selectedIdx s) as [i |]; [| inversion H; subst; apply R_refl].
  destruct (i <? 0)%Z; [inversion H; subst; apply R_refl |].
  match type of H with
  | ?m s = _ => assert (Hm : respects R m); [| exact (Hm _ _ _ H)]
  end.
  clear H.
  unfold setLoading, setError, setToast, setConfirmOpen, setPoints, setHistory.
  apply respects_tryFinally; [| intros; auto].
  apply respects_tryCatch.
  - do 2 (apply respects_bind; [apply respects_modify; intros; auto | intros]).
    apply respects_bind; [apply respects_fetchOrg | intros latest].
    destruct (hasRorIdentifier (identifiers latest)) eqn:Hlinked.
    + do 2 (apply respects_bind; [apply respects_modify; intros; auto | intros]).
      apply respects_loadNext.
    + destruct (nth_error (candidates s) (Z.to_nat i)) as [chosen |];
        [| apply respects_throw].
      apply respects_bind;
        [apply (respects_putOrg env _ _ _ (rorId (organization chosen)));
         apply hasRorIdentifier_false; exact Hlinked | intros].
      apply respects_bind; [apply respects_modify; intros; auto | intros].
      apply respects_bind; [apply respects_dateNow | intros].
      do 3 (apply respects_bind; [apply respects_modify; intros; auto | intros]).
      apply respects_loadNext.
  - intros e. do 2 respects_step.
Qed.

End Respects.

(** ** Requests issued by a computation *)

Lemma requestsGrowBy_refl (P : Request -> Prop) (s : AppState) : requestsGrowBy P s s.
Proof. exists []. split; [symmetry; apply app_nil_r | constructor]. Qed.

Lemma requestsGrowBy_trans (P : Request -> Prop) (s1 s2 s3 : AppState) :
  requestsGrowBy P s1 s2 -> requestsGrowBy P s2 s3 -> requestsGrowBy P s1 s3.
Proof.
  intros (n1 & E1 & F1) (n2 & E2 & F2). exists (n1 ++ n2)%list. split.
  - rewrite E2, E1. symmetry. apply app_assoc.
  - apply Forall_app. split; assumption.
Qed.

Lemma requestsGrowBy_same (P : Request -> Prop) (s s' : AppState) :
  requests s' = requests s -> requestsGrowBy P s s'.
Proof. intros E. exists []. split; [rewrite E; symmetry; apply app_nil_r | constructor]. Qed.

Lemma requestsGrowBy_request (P : Request -> Prop) (req : Request) (s : AppState) :
  P req -> requestsGrowBy P s (withRequest req s).
Proof. intros H. exists [req]. split; [reflexivity | constructor; [exact H | constructor]]. Qed.

Lemma keepsProgress_same (s s' : AppState) :
  points s' = points s -> history s' = history s -> toast s' = toast s ->
  confirmOpen s' = confirmOpen s -> requests s' = requests s -> keepsProgress s s'.
Proof.
  intros. repeat split; try assumption. apply requestsGrowBy_same. assumption.
Qed.

Lemma keepsProgress_trans (s1 s2 s3 : AppState) :
  keepsProgress s1 s2 -> keepsProgress s2 s3 -> keepsProgress s1 s3.
Proof.
  intros (A1 & B1 & C1 & D1 & E1) (A2 & B2 & C2 & D2 & E2).
  repeat split; try congruence. eapply requestsGrowBy_trans; eassumption.
Qed.

Lemma loadNext_keepsProgress (env : Env) : respects keepsProgress (loadNext env).
Proof.
  apply respects_loadNext;
    try (intros; apply keepsProgress_same; reflexivity).
  - exact keepsProgress_trans.
  - intros req s Hget. repeat split. apply requestsGrowBy_request. exact Hget.
Qed.

Lemma bind_modify {B : Type} (f : AppState -> AppState) (k : unit -> M B) (s : AppState) :
  bind (modify f) k s = k tt (f s).
Proof. reflexivity. Qed.

(** [loadNext] catches every exception: it always returns normally. *)
Lemma loadNext_returns (env : Env) (s : AppState) : fst (loadNext env s) = Ok tt.
Proof.
  unfold loadNext, setError, setLoading, setCandidates, setSelectedIdx, setOrg.
  rewrite !bind_modify. unfold tryFinally, tryCatch.
  match goal with
  | |- context [bind ?m ?k ?st] => destruct (bind m k st) as [[[] | e] s1]
  end; reflexivity.
Qed.

Lemma bind_ok {A B : Type} (m : M A) (k : A -> M B) (s s1 : AppState) (a : A) :
  m s = (Ok a, s1) -> bind m k s = k a s1.
Proof. intros H. unfold bind. rewrite H. reflexivity. Qed.

Lemma limitedFetch_get {A : Type} (env : Env)
    (endpoint : Env -> list Request -> Request -> FetchResult A) (url : string) :
  limitedFetch env endpoint url GET [] None = fetch env endpoint (catalogGet url).
Proof. reflexivity. Qed.

Lemma fetch_resolved {A : Type} (env : Env)
    (endpoint : Env -> list Request -> Request -> FetchResult A) (req : Request)
    (s : AppState) (res : Response A) :
  endpoint env (requests s) req = Resolved res ->
  fetch env endpoint req s = (Ok res, withRequest req s).
Proof. intros H. unfold fetch. rewrite H. reflexivity. Qed.

Lemma fetchOrg_ok (env : Env) (uuid : string) (s : AppState)
    (res : Response ExtOrgItem) (latest : ExtOrgItem) :
  catalogItem env (requests s) (itemRequest uuid) = Resolved res ->
  ok res = true ->
  json res = Ok latest ->
  fetchOrg env uuid s = (Ok latest, withRequest (itemRequest uuid) s).
Proof.
  intros Hres Hok Hjson. unfold fetchOrg. cbv zeta. rewrite limitedFetch_get.
  rewrite (bind_ok _ _ _ _ _ (fetch_resolved _ _ _ _ _ Hres)).
  rewrite Hok, Hjson. reflexivity.
Qed.

(** ** The identifier lists written by [doLink] *)

Lemma filter_none {A : Type} (p : A -> bool) (l : list A) :
  existsb p l = false -> filter p l = [].
Proof.
  induction l as [| x rest IH]; intros H; [reflexivity |].
  simpl in H. apply orb_false_iff in H. destruct H as [Hx Hrest].
  simpl. rewrite Hx. apply IH. exact Hrest.
Qed.

Lemma appended_one_ror (refreshed : list Identifier) (canonicalId : option string) :
  existsb isRorIdentifier refreshed = false ->
  List.length (filter isRorIdentifier (refreshed ++ [newRorIdentifier canonicalId])) = 1%nat.
Proof.
  intros Hnone. rewrite filter_app, (filter_none _ _ Hnone). reflexivity.
Qed.

Lemma doLink_puts_one_ror (env : Env) : respects (requestsGrowBy putsOneRor) (doLink env).
Proof.
  apply respects_doLink;
    try (intros; apply requestsGrowBy_same; reflexivity).
  - apply requestsGrowBy_trans.
  - intros req s Hget. apply requestsGrowBy_request. intros Hput.
    rewrite Hget in Hput. discriminate Hput.
  - intros req v refreshed canonicalId s _ Hbody Hnone.
    apply requestsGrowBy_request. intros _.
    exists v, refreshed, canonicalId.
    split; [exact Hbody | split; [exact Hnone | apply appended_one_ror; exact Hnone]].
Qed.

(** C3 as stated fails: when the refreshed record carries an identifier
    whose type URI ends in "/ror" under a discriminator other than
    "ClassifiedId", [doLink] writes a list with two identifiers whose type
    URI ends in "/ror". *)
Lemma doLink_writes_second_ror_uri :
  exists req payload,
    In req (requests (snd (doLink
              (Examples.scripted Examples.offline
                 (Examples.answer 200 (Ok (Examples.record "approved"
                                             (Some [Examples.unclassified Examples.aalborg]))))
                 (Examples.answer 200 (Ok JNull)) Examples.offline Examples.offline)
              (Examples.confirming (Examples.record "approved" None)))))
    /\ method req = PUT
    /\ body req = Some payload
    /\ List.length (filter typeUriEndsInRor (payloadIdentifiers payload)) = 2%nat.
Proof.
  eexists. eexists. split; [| split; [| split]].
  - vm_compute. right. left. reflexivity.
  - reflexivity.
  - reflexivity.
  - vm_compute. reflexivity.
Qed.

(** ** The eligibility probe *)

Lemma stepIs_true (item : ExtOrgItem) (expected : string) :
  stepIs item expected = true <-> workflowStep item = Some expected.
Proof.
  unfold stepIs. destruct (workflowStep item) as [st |].
  - rewrite String.eqb_eq. split; intros H; [subst; reflexivity | inversion H; reflexivity].
  - split; discriminate.
Qed.

Lemma isRorIdentifier_true (i : Identifier) :
  isRorIdentifier i = true
  <-> typeDiscriminator i = Some "ClassifiedId" /\ typeUriEndsInRor i = true.
Proof.
  unfold isRorIdentifier, typeUriEndsInRor. rewrite andb_true_iff.
  destruct (typeDiscriminator i) as [d |].
  - rewrite String.eqb_eq. split; intros [Hd Hu]; split; try exact Hu.
    + subst. reflexivity.
    + inversion Hd. reflexivity.
  - split; intros [Hd _]; discriminate.
Qed.

Lemma hasRorIdentifier_false_iff (item : ExtOrgItem) :
  hasRorIdentifier (identifiers item) = false
  <-> forall i, In i (identifierList item) ->
                ~ (typeDiscriminator i = Some "ClassifiedId" /\ typeUriEndsInRor i = true).
Proof.
  unfold hasRorIdentifier, identifierList. destruct (identifiers item) as [ids |].
  - split.
    + intros Hnone i Hin Hror. apply isRorIdentifier_true in Hror.
      assert (Hex : existsb isRorIdentifier ids = true)
        by (apply existsb_exists; exists i; split; assumption).
      rewrite Hnone in Hex. discriminate.
    + intros Hall. destruct (existsb isRorIdentifier ids) eqn:E; [| reflexivity].
      apply existsb_exists in E. destruct E as (i & Hin & Hror).
      apply isRorIdentifier_true in Hror. exfalso. exact (Hall i Hin Hror).
  - split; [intros _ i [] | reflexivity].
Qed.

Lemma eligible_iff (item : ExtOrgItem) :
  (stepIs item "forApproval" || stepIs item "approved")
  && negb (hasRorIdentifier (identifiers item)) = true
  <-> recognisedEligible item.
Proof.
  unfold recognisedEligible.
  rewrite andb_true_iff, orb_true_iff, negb_true_iff, !stepIs_true, hasRorIdentifier_false_iff.
  reflexivity.
Qed.

Lemma getCount_ok (env : Env) (s : AppState) (cres : Response PageResponse)
    (cpage : PageResponse) :
  catalogPage env (requests s) countRequest = Resolved cres ->
  ok cres = true ->
  json cres = Ok cpage ->
  getCount env s = (Ok (count cpage), withRequest countRequest s).
Proof.
  intros Hres Hok Hjson. unfold getCount. cbv zeta. rewrite limitedFetch_get.
  fold countRequest.
  rewrite (bind_ok _ _ _ _ _ (fetch_resolved _ _ _ _ _ Hres)).
  rewrite Hok, Hjson. cbn [negb await]. unfold bind, ret.
  destruct (count cpage =? 0)%Z eqn:E; [| reflexivity].
  apply Z.eqb_eq in E. rewrite E. reflexivity.
Qed.

(** Every run of [getCount] issues the count request and nothing else. *)
Lemma getCount_requests (env : Env) (s : AppState) (r : Outcome Z) (s' : AppState) :
  getCount env s = (r, s') -> s' = withRequest countRequest s.
Proof.
  unfold getCount. cbv zeta. rewrite limitedFetch_get. fold countRequest.
  unfold bind, fetch. intros H.
  destruct (catalogPage env (requests s) countRequest) as [e | res].
  - inversion H. reflexivity.
  - destruct (negb (ok res)); [inversion H; reflexivity |].
    destruct (json res); inversion H; reflexivity.
Qed.

Lemma fetchRandomOrg_after_count (env : Env) (s : AppState) (total : Z) :
  getCount env s = (Ok total, withRequest countRequest s) ->
  total <> 0%Z ->
  fetchRandomOrg env s =
  bind (fetch env catalogPage (pageRequest (probeOffset env s total)))
       (fun res =>
          if negb (ok res) then throw (Error ("Failed to fetch org: " ++ showZ (status res)))
          else
            bind (await (json res))
                 (fun data =>
                    match hd_error (items data) with
                    | Some item =>
                        if (stepIs item "forApproval" || stepIs item "approved")
                           && negb (hasRorIdentifier (identifiers item))
                        then ret (Some item)
                        else ret None
                    | None => ret None
                    end))
       (withRequest countRequest s).
Proof.
  intros Hcount Hnz. unfold fetchRandomOrg.
  rewrite (bind_ok _ _ _ _ _ Hcount).
  replace (total =? 0)%Z with false by (symmetry; apply Z.eqb_neq; exact Hnz).
  reflexivity.
Qed.

(** C1, amended.  [fetchRandomOrg] issues the count request and then at
    most one page request: none when the count is 0 (it returns [null]),
    exactly one otherwise.  When both are answered successfully it
    returns the first record of the page if and only if its step is
    "forApproval" or "approved" and no identifier has both the
    discriminator "ClassifiedId" and a type URI ending in "/ror"; for any
    other record and for an empty page it returns [null].  Whatever the
    answers, a record it returns satisfies that condition. *)
Theorem fetchRandomOrg_single_probe (env : Env) (s : AppState) :
  (forall r s',
      fetchRandomOrg env s = (r, s') ->
      (requests s' = (requests s ++ [countRequest])%list
       \/ exists offset, requests s' = (requests s ++ [countRequest; pageRequest offset])%list)
      /\ (forall item,
             r = Ok (Some item) ->
             recognisedEligible item
             /\ exists offset,
                 requests s' = (requests s ++ [countRequest; pageRequest offset])%list))
  /\ (forall cres cpage,
         catalogPage env (requests s) countRequest = Resolved cres ->
         ok cres = true ->
         json cres = Ok cpage ->
         let counted := withRequest countRequest s in
         let probed := withRequest (pageRequest (probeOffset env s (count cpage))) counted in
         (count cpage = 0%Z -> fetchRandomOrg env s = (Ok None, counted))
         /\ (count cpage <> 0%Z ->
             forall pres ppage,
               catalogPage env (requests counted) (pageRequest (probeOffset env s (count cpage)))
               = Resolved pres ->
               ok pres = true ->
               json pres = Ok ppage ->
               match hd_error (items ppage) with
               | Some item =>
                   (recognisedEligible item -> fetchRandomOrg env s = (Ok (Some item), probed))
                   /\ (~ recognisedEligible item -> fetchRandomOrg env s = (Ok None, probed))
               | None => fetchRandomOrg env s = (Ok None, probed)
               end)).
Proof.
  split.
  - intros r s' H. unfold fetchRandomOrg in H. unfold bind at 1 in H.
    destruct (getCount env s) as [[total | e] s1] eqn:Hcount;
      pose proof (getCount_requests env s _ _ Hcount) as Hs1; subst s1.
    2: { inversion H; subst. split; [left; reflexivity | intros item Hitem; discriminate]. }
    destruct (total =? 0)%Z eqn:Hzero.
    { inversion H; subst. split; [left; reflexivity | intros item Hitem; discriminate]. }
    unfold bind at 1, mathRandom in H. rewrite limitedFetch_get in H.
    fold (probeOffset env s total) in H. fold (pageRequest (probeOffset env s total)) in H.
    unfold bind at 1, fetch in H.
    assert (Hprobed : forall st : AppState,
               st = withRequest (pageRequest (probeOffset env s total))
                                (withRequest countRequest s) ->
               exists offset,
                 requests st = (requests s ++ [countRequest; pageRequest offset])%list).
    { intros st Hst. exists (probeOffset env s total). subst st. simpl.
      rewrite <- app_assoc. reflexivity. }
    destruct (catalogPage env (requests (withRequest countRequest s))
                          (pageRequest (probeOffset env s total))) as [e | res].
    { inversion H; subst. split; [right; apply Hprobed; reflexivity | intros; discriminate]. }
    destruct (negb (ok res)).
    { inversion H; subst. split; [right; apply Hprobed; reflexivity | intros; discriminate]. }
    unfold bind in H. destruct (json res) as [data | e]; simpl in H.
    2: { inversion H; subst. split; [right; apply Hprobed; reflexivity | intros; discriminate]. }
    destruct (hd_error (items data)) as [item |].
    2: { inversion H; subst. split; [right; apply Hprobed; reflexivity | intros; discriminate]. }
    destruct ((stepIs item "forApproval" || stepIs item "approved")
              && negb (hasRorIdentifier (identifiers item))) eqn:Helig;
      inversion H; subst; (split; [right; apply Hprobed; reflexivity |]).
    + intros item' Hitem. inversion Hitem; subst item'.
      split; [apply eligible_iff; exact Helig | apply Hprobed; reflexivity].
    + intros item' Hitem. discriminate.
  - intros cres cpage Hres Hok Hjson counted probed.
    pose proof (getCount_ok env s cres cpage Hres Hok Hjson) as Hcount.
    split.
    + intros Hzero. unfold fetchRandomOrg. rewrite (bind_ok _ _ _ _ _ Hcount).
      rewrite Hzero. reflexivity.
    + intros Hnz pres ppage Hpres Hpok Hpjson.
      rewrite (fetchRandomOrg_after_count env s (count cpage) Hcount Hnz).
      rewrite (bind_ok _ _ _ _ _ (fetch_resolved _ _ _ _ _ Hpres)).
      rewrite Hpok, Hpjson. cbn [negb await]. unfold bind, ret. fold counted. fold probed.
      destruct (hd_error (items ppage)) as [item |]; [| reflexivity].
      destruct ((stepIs item "forApproval" || stepIs item "approved")
                && negb (hasRorIdentifier (identifiers item))) eqn:Helig.
      * split; [reflexivity |]. intros Hnot. exfalso. apply Hnot. apply eligible_iff. exact Helig.
      * split; [| reflexivity]. intros Helig'. apply eligible_iff in Helig'.
        rewrite Helig in Helig'. discriminate.
Qed.

Lemma fetchRandomOrg_single_probe_witness :
  fetchRandomOrg
    (Examples.scripted
       (Examples.answer 200 (Ok (mkPageResponse 1 [Examples.record "forApproval" None])))
       Examples.offline Examples.offline Examples.offline Examples.offline)
    Examples.idle
  = (Ok (Some (Examples.record "forApproval" None)),
     withRequest (pageRequest 0) (withRequest countRequest Examples.idle)).
Proof.
  destruct (fetchRandomOrg_single_probe
              (Examples.scripted
                 (Examples.answer 200 (Ok (mkPageResponse 1 [Examples.record "forApproval" None])))
                 Examples.offline Examples.offline Examples.offline Examples.offline)
              Examples.idle) as [_ H].
  specialize (H (mkResponse 200 "" (Ok (mkPageResponse 1 [Examples.record "forApproval" None])))
                (mkPageResponse 1 [Examples.record "forApproval" None])
                eq_refl eq_refl eq_refl).
  cbv zeta in H. destruct H as [_ H].
  assert (Hnz : count (mkPageResponse 1 [Examples.record "forApproval" None]) <> 0%Z)
    by (simpl; lia).
  specialize (H Hnz
                (mkResponse 200 "" (Ok (mkPageResponse 1 [Examples.record "forApproval" None])))
                (mkPageResponse 1 [Examples.record "forApproval" None])
                eq_refl eq_refl eq_refl).
  simpl hd_error in H. destruct H as [H _].
  apply H. split; [left; reflexivity | intros i []].
Defined.

(** C1 as stated fails twice.  A record whose only identifier has a type
    URI ending in "/ror" under a discriminator other than "ClassifiedId"
    is returned; and when the catalog is empty no page is probed. *)
Lemma fetchRandomOrg_returns_ror_uri :
  (exists item i,
      fst (fetchRandomOrg
             (Examples.scripted
                (Examples.answer 200
                   (Ok (mkPageResponse 1
                          [Examples.record "approved"
                             (Some [Examples.unclassified Examples.aalborg])])))
                Examples.offline Examples.offline Examples.offline Examples.offline)
             Examples.idle) = Ok (Some item)
      /\ In i (identifierList item)
      /\ typeUriEndsInRor i = true
      /\ ~ statedEligible item)
  /\ fetchRandomOrg
       (Examples.scripted (Examples.answer 200 (Ok (mkPageResponse 0 [])))
          Examples.offline Examples.offline Examples.offline Examples.offline)
       Examples.idle
     = (Ok None, withRequest countRequest Examples.idle).
Proof.
  split.
  - exists (Examples.record "approved" (Some [Examples.unclassified Examples.aalborg])).
    exists (Examples.unclassified Examples.aalborg).
    split; [vm_compute; reflexivity |].
    split; [left; reflexivity |].
    split; [vm_compute; reflexivity |].
    intros [_ Hnone].
    specialize (Hnone (Examples.unclassified Examples.aalborg) (or_introl eq_refl)).
    vm_compute in Hnone. discriminate Hnone.
  - vm_compute. reflexivity.
Qed.

(** ** The update call *)

Lemma putOrg_unfold (env : Env) (u v : string) (ids : list Identifier) (s : AppState) :
  putOrg env u v ids s =
  match catalogPut env (requests s) (putRequest u v ids) with
  | Rejected e => (Throw e, withRequest (putRequest u v ids) s)
  | Resolved res =>
      if ok res
      then (Ok match json res with
               | Ok parsed => parsed
               | Throw _ => JObject [("status", JNumber (inject_Z (status res)))]
               end,
            withRequest (putRequest u v ids) s)
      else (Throw (Error ("PUT failed: " ++ showZ (status res))),
            withRequest (putRequest u v ids) s)
  end.
Proof.
  unfold putOrg. cbv zeta.
  change (limitedFetch env catalogPut _ PUT _ _) with (fetch env catalogPut (putRequest u v ids)).
  unfold fetch, bind.
  destruct (catalogPut env (requests s) (putRequest u v ids)) as [e | res]; [reflexivity |].
  destruct (ok res); reflexivity.
Qed.

(** C4, amended.  A [putOrg] call answered with a non-success status
    [st] throws the generic [Error] "PUT failed: st", whatever the status
    and whatever the body: a rejection of a stale version has no error
    kind of its own and differs from other failures only by the status
    in the message.  Answered with a success status it returns the parsed
    body, or the object [{ status }] when the body does not parse. *)
Theorem putOrg_outcomes (env : Env) (u v : string) (ids : list Identifier) (s : AppState)
    (res : Response JSON) :
  catalogPut env (requests s) (putRequest u v ids) = Resolved res ->
  let sent := withRequest (putRequest u v ids) s in
  (ok res = false ->
   putOrg env u v ids s = (Throw (Error ("PUT failed: " ++ showZ (status res))), sent))
  /\ (ok res = true ->
      forall parsed, json res = Ok parsed -> putOrg env u v ids s = (Ok parsed, sent))
  /\ (ok res = true ->
      forall e, json res = Throw e ->
                putOrg env u v ids s
                = (Ok (JObject [("status", JNumber (inject_Z (status res)))]), sent)).
Proof.
  intros Hres sent. rewrite putOrg_unfold, Hres.
  split; [| split].
  - intros Hok. rewrite Hok. reflexivity.
  - intros Hok parsed Hjson. rewrite Hok, Hjson. reflexivity.
  - intros Hok e Hjson. rewrite Hok, Hjson. reflexivity.
Qed.

Lemma putOrg_outcomes_witness :
  putOrg (Examples.scripted Examples.offline Examples.offline
            (Examples.answer 409 Examples.unparsable) Examples.offline Examples.offline)
         "6a1f0c2e" "v7" [Examples.classified Examples.aalborg] Examples.idle
  = (Throw (Error "PUT failed: 409"),
     withRequest (putRequest "6a1f0c2e" "v7" [Examples.classified Examples.aalborg])
                 Examples.idle).
Proof.
  exact (proj1 (putOrg_outcomes
                  (Examples.scripted Examples.offline Examples.offline
                     (Examples.answer 409 Examples.unparsable) Examples.offline
                     Examples.offline)
                  "6a1f0c2e" "v7" [Examples.classified Examples.aalborg] Examples.idle
                  (mkResponse 409 "" Examples.unparsable) eq_refl)
               eq_refl).
Defined.

(** C4 as stated fails: the error thrown for status 409 (conflict) and the
    error thrown for status 500 are both plain [Error] objects; the
    program has no [ConflictError] and no [TransportError]. *)
Lemma putOrg_conflict_is_generic_error :
  exists conflict other,
    fst (putOrg (Examples.scripted Examples.offline Examples.offline
                   (Examples.answer 409 (Ok JNull)) Examples.offline Examples.offline)
                "6a1f0c2e" "v7" [Examples.classified Examples.aalborg] Examples.idle)
    = Throw conflict
    /\ fst (putOrg (Examples.scripted Examples.offline Examples.offline
                      (Examples.answer 500 (Ok JNull)) Examples.offline Examples.offline)
                   "6a1f0c2e" "v7" [Examples.classified Examples.aalborg] Examples.idle)
       = Throw other
    /\ exnName conflict = "Error"
    /\ exnName other = "Error"
    /\ message conflict = "PUT failed: 409"
    /\ message other = "PUT failed: 500".
Proof.
  exists (Error "PUT failed: 409"), (Error "PUT failed: 500").
  repeat split; vm_compute; reflexivity.
Qed.

(** ** The successful write *)

Lemma putOrg_ok (env : Env) (u v : string) (ids : list Identifier) (s : AppState)
    (res : Response JSON) :
  catalogPut env (requests s) (putRequest u v ids) = Resolved res ->
  ok res = true ->
  exists parsed, putOrg env u v ids s = (Ok parsed, withRequest (putRequest u v ids) s).
Proof.
  intros Hres Hok. rewrite putOrg_unfold, Hres, Hok. eexists. reflexivity.
Qed.

Lemma bind_dateNow {B : Type} (env : Env) (k : Z -> M B) (s : AppState) :
  bind (dateNow env) k s = k (now env (requests s)) s.
Proof. reflexivity. Qed.

(** The successful write: [doLink] adds the award to the points, puts the
    new entry in front of the history, closes the modal and runs
    [loadNext]; it issues the refresh, one [PUT] and then [GET] requests
    only. *)
Lemma doLink_success (env : Env) (s : AppState) (o : ExtOrgItem) (i : Z) (chosen : Candidate)
    (latest : ExtOrgItem) :
  linkSucceeds env s o i chosen latest ->
  let s' := snd (doLink env s) in
  fst (doLink env s) = Ok tt
  /\ points s' = add (points s) (Finite (inject_Z (award (scoreOf (scoreLocal chosen)))))
  /\ history s'
     = insertHistory (historyEntry (linkTimestamp env s o chosen latest) latest chosen)
                     (history s)
  /\ confirmOpen s' = false
  /\ exists more,
      requests s'
      = (requests s ++ itemRequest (uuid o) :: linkRequest chosen latest :: more)%list
      /\ Forall isGet more.
Proof.
  intros (Horg & Hsel & Hi & Hchosen & (res & Hres & Hok & Hjson) & Hfresh
          & written & Hput & Hwritten) s'.
  unfold linkTimestamp. unfold linkRequest in *.
  set (newIdentifiers :=
         (identifierList latest ++ [newRorIdentifier (rorId (organization chosen))])%list)
    in *.
  set (put := putRequest (uuid latest) (version latest) newIdentifiers) in *.
  set (timestamp := now env (requests s ++ [itemRequest (uuid o); put])).
  pose (linked :=
          withConfirmOpen false
            (withToast
               (Some (mkToast success
                        ("Linked ROR to “"
                         ++ orElse (pickedValue (pickPreferredLocale (name latest))) "Org"
                         ++ "”.")))
               (withHistory
                  (insertHistory
                     (historyEntry
                        (now env ((requests s ++ [itemRequest (uuid o)]) ++ [put])%list)
                        latest chosen))
                  (withPoints
                     (fun p => add p (Finite (inject_Z (award (scoreOf (scoreLocal chosen))))))
                     (withRequest put
                        (withRequest (itemRequest (uuid o))
                           (withError None (withLoading true s)))))))).
  assert (Hrun : doLink env s = (Ok tt, withLoading false (snd (loadNext env linked)))
                 /\ points linked
                    = add (points s) (Finite (inject_Z (award (scoreOf (scoreLocal chosen)))))
                 /\ history linked
                    = insertHistory (historyEntry timestamp latest chosen) (history s)
                 /\ confirmOpen linked = false
                 /\ requests linked = (requests s ++ [itemRequest (uuid o); put])%list).
  { split.
    - unfold doLink. rewrite Horg, Hsel, Hchosen.
      replace (i <? 0)%Z with false by (symmetry; apply Z.ltb_ge; exact Hi).
      unfold tryFinally, tryCatch, setLoading, setError.
      rewrite !bind_modify.
      rewrite (bind_ok _ _ _ _ _ (fetchOrg_ok env (uuid o)
                                   (withError None (withLoading true s))
                                   res latest Hres Hok Hjson)).
      rewrite Hfresh.
      fold (identifierList latest). fold (newRorIdentifier (rorId (organization chosen))).
      fold newIdentifiers.
      destruct (putOrg_ok env (uuid latest) (version latest) newIdentifiers
                          (withRequest (itemRequest (uuid o))
                                       (withError None (withLoading true s)))
                          written Hput Hwritten) as [parsed Hput_run].
      rewrite (bind_ok _ _ _ _ _ Hput_run).
      unfold setPoints, setHistory, setToast, setConfirmOpen.
      rewrite bind_modify, bind_dateNow, !bind_modify.
      change (loadNext env _) with (loadNext env linked).
      pose proof (loadNext_returns env linked) as Hret.
      destruct (loadNext env linked) as [[[] | e] s2]; simpl in Hret.
      + reflexivity.
      + discriminate Hret.
    - simpl. repeat split.
      + unfold timestamp. rewrite <- app_assoc. reflexivity.
      + rewrite <- app_assoc. reflexivity. }
  clearbody linked.
  destruct Hrun as (Hrun & Hpoints & Hhistory & Hconfirm & Hreqs).
  subst s'. rewrite Hrun. simpl fst. simpl snd.
  destruct (loadNext env linked) as [r s2] eqn:Hnext.
  pose proof (loadNext_keepsProgress env linked r s2 Hnext)
    as (Kpoints & Khistory & _ & Kconfirm & more & Kreqs & Kgets).
  simpl. repeat split.
  - rewrite Kpoints. exact Hpoints.
  - rewrite Khistory. exact Hhistory.
  - rewrite Kconfirm. exact Hconfirm.
  - exists more. split; [| exact Kgets].
    rewrite Kreqs, Hreqs. rewrite <- app_assoc. reflexivity.
Qed.

(** ** Points: the award tiers *)

Lemma scoreOf_eq (s : Q) : scoreOf s == s.
Proof.
  unfold scoreOf. destruct (Qeq_bool s 0) eqn:E.
  - apply Qeq_bool_iff in E. symmetry. exact E.
  - reflexivity.
Qed.

Lemma award_high (sl : Q) : 0.8 <= sl -> award sl = 10%Z.
Proof.
  intros H. unfold award. apply Qle_bool_iff in H. rewrite H. reflexivity.
Qed.

Lemma Qle_bool_false (x y : Q) : y < x -> Qle_bool x y = false.
Proof.
  intros H. destruct (Qle_bool x y) eqn:E; [| reflexivity].
  apply Qle_bool_iff in E. exfalso. apply (Qlt_not_le _ _ H E).
Qed.

Lemma award_middle (sl : Q) : 0.6 <= sl -> sl < 0.8 -> award sl = 5%Z.
Proof.
  intros Hlo Hhi. unfold award.
  rewrite (Qle_bool_false _ _ Hhi).
  apply Qle_bool_iff in Hlo. rewrite Hlo. reflexivity.
Qed.

Lemma award_low (sl : Q) : sl < 0.6 -> award sl = 1%Z.
Proof.
  intros H. unfold award.
  rewrite (Qle_bool_false 0.8 sl) by (eapply Qlt_trans; [exact H | reflexivity]).
  rewrite (Qle_bool_false _ _ H). reflexivity.
Qed.

(** C8.  The points [doLink] awards for a candidate of local score [s]
    are 10 when [s >= 0.8], 5 when [0.6 <= s < 0.8] and 1 when [s < 0.6];
    in particular 0.9 and 0.8 give 10, 0.79999 and 0.6 give 5, and 0.1
    gives 1.  A [doLink] call that writes adds exactly this award to the
    points. *)
Theorem award_tiers :
  (forall s : Q, 0.8 <= s -> award (scoreOf s) = 10%Z)
  /\ (forall s : Q, 0.6 <= s -> s < 0.8 -> award (scoreOf s) = 5%Z)
  /\ (forall s : Q, s < 0.6 -> award (scoreOf s) = 1%Z)
  /\ award (scoreOf 0.9) = 10%Z
  /\ award (scoreOf 0.8) = 10%Z
  /\ award (scoreOf 0.79999) = 5%Z
  /\ award (scoreOf 0.6) = 5%Z
  /\ award (scoreOf 0.1) = 1%Z
  /\ (forall env s o i chosen latest,
         linkSucceeds env s o i chosen latest ->
         points (snd (doLink env s))
         = add (points s) (Finite (inject_Z (award (scoreOf (scoreLocal chosen)))))).
Proof.
  repeat split; try reflexivity.
  - intros s H. apply award_high. rewrite scoreOf_eq. exact H.
  - intros s Hlo Hhi. apply award_middle; rewrite scoreOf_eq; assumption.
  - intros s H. apply award_low. rewrite scoreOf_eq. exact H.
  - intros env s o i chosen latest Hlink.
    destruct (doLink_success env s o i chosen latest Hlink) as (_ & Hpoints & _).
    exact Hpoints.
Qed.

Lemma award_tiers_witness :
  award (scoreOf (17 # 20)) = 10%Z
  /\ award (scoreOf (7 # 10)) = 5%Z
  /\ award (scoreOf (1 # 2)) = 1%Z
  /\ points (snd (doLink (Examples.catalogWith None)
                         (Examples.confirming (Examples.record "approved" None))))
     = Finite (0 + inject_Z 10).
Proof.
  destruct award_tiers as (Hhigh & Hmiddle & Hlow & _ & _ & _ & _ & _ & Hlink).
  split; [| split; [| split]].
  - apply Hhigh. vm_compute. discriminate.
  - apply Hmiddle; vm_compute; [discriminate | reflexivity].
  - apply Hlow. vm_compute. reflexivity.
  - apply (Hlink (Examples.catalogWith None)
                 (Examples.confirming (Examples.record "approved" None))
                 (Examples.record "approved" None) 0%Z (Examples.candidate 0.95 true)
                 (Examples.record "approved" None)).
    unfold linkSucceeds. repeat split; try reflexivity; try lia.
    + eexists. repeat split; reflexivity.
    + eexists. split; reflexivity.
Defined.

(** ** History *)

Lemma insertHistory_length (entry : HistoryEntry) (h : list HistoryEntry) :
  List.length (insertHistory entry h) = Nat.min 50 (S (List.length h)).
Proof. unfold insertHistory. cbv zeta. rewrite length_firstn. reflexivity. Qed.

Lemma firstn_app_firstn {A : Type} (n : nat) (a b : list A) :
  firstn n (a ++ firstn n b) = firstn n (a ++ b).
Proof.
  rewrite !firstn_app, firstn_firstn.
  replace (Nat.min (n - List.length a) n) with (n - List.length a)%nat by lia.
  reflexivity.
Qed.

Lemma insertAll_firstn (entries h : list HistoryEntry) :
  (List.length h <= 50)%nat -> insertAll entries h = firstn 50 (rev entries ++ h).
Proof.
  unfold insertAll. revert h. induction entries as [| e rest IH]; intros h Hh.
  - simpl rev. simpl app. symmetry. apply firstn_all2. exact Hh.
  - simpl fold_left. rewrite IH by (rewrite insertHistory_length; lia).
    unfold insertHistory. cbv zeta.
    rewrite firstn_app_firstn. simpl rev. rewrite <- app_assoc. reflexivity.
Qed.

Lemma insertAll_51 (first : HistoryEntry) (rest : list HistoryEntry) :
  List.length rest = 50%nat -> insertAll (first :: rest) [] = rev rest.
Proof.
  intros Hlen. rewrite insertAll_firstn by (simpl; lia). rewrite app_nil_r.
  simpl rev. rewrite firstn_app.
  rewrite length_rev, Hlen. rewrite Nat.sub_diag. simpl firstn at 2. rewrite app_nil_r.
  apply firstn_all2. rewrite length_rev. lia.
Qed.

Lemma doLink_historyCapped (env : Env) : respects historyCapped (doLink env).
Proof.
  apply respects_doLink; unfold historyCapped;
    try (intros; simpl; assumption).
  - intros s1 s2 s3 H12 H23 H. auto.
  - intros entry s _. cbn [history withHistory]. rewrite insertHistory_length. lia.
Qed.

(** C9.  Inserting a link entry puts it in front of the history and keeps
    the 49 newest of the previous entries, so the oldest ones are
    dropped and the history never exceeds 50 entries, also across
    [doLink]; 51 insertions into the empty history leave the last 50 in
    reverse order of insertion (newest first), without the first one.
    A [doLink] call that writes inserts its entry in this way. *)
Theorem history_capped :
  (forall entry h, insertHistory entry h = entry :: firstn 49 h)
  /\ (forall entry h, (List.length (insertHistory entry h) <= 50)%nat)
  /\ (forall entries, insertAll entries [] = firstn 50 (rev entries))
  /\ (forall first rest,
        List.length rest = 50%nat -> insertAll (first :: rest) [] = rev rest)
  /\ (forall first rest,
        List.length rest = 50%nat -> NoDup (first :: rest) ->
        ~ In first (insertAll (first :: rest) []))
  /\ (forall env s,
        (List.length (history s) <= 50)%nat ->
        (List.length (history (snd (doLink env s))) <= 50)%nat)
  /\ (forall env s o i chosen latest,
        linkSucceeds env s o i chosen latest ->
        history (snd (doLink env s))
        = insertHistory (historyEntry (linkTimestamp env s o chosen latest) latest chosen)
                        (history s)).
Proof.
  repeat split.
  - intros entry h. rewrite insertHistory_length. lia.
  - intros entries. rewrite insertAll_firstn by (simpl; lia). rewrite app_nil_r. reflexivity.
  - exact insertAll_51.
  - intros first rest Hlen Hnodup Hin. rewrite (insertAll_51 first rest Hlen) in Hin.
    apply in_rev in Hin. inversion Hnodup; subst. contradiction.
  - intros env s Hcap. destruct (doLink env s) as [r s'] eqn:H.
    exact (doLink_historyCapped env s r s' H Hcap).
  - intros env s o i chosen latest Hlink.
    destruct (doLink_success env s o i chosen latest Hlink) as (_ & _ & Hhistory & _).
    exact Hhistory.
Qed.

Lemma history_capped_witness :
  insertAll (map Examples.entry (seq 0 51)) [] = rev (map Examples.entry (seq 1 50))
  /\ ~ In (Examples.entry 0) (insertAll (map Examples.entry (seq 0 51)) []).
Proof.
  destruct history_capped as (_ & _ & _ & Horder & Habsent & _ & _).
  assert (Hlen : List.length (map Examples.entry (seq 1 50)) = 50%nat) by reflexivity.
  split.
  - exact (Horder (Examples.entry 0) (map Examples.entry (seq 1 50)) Hlen).
  - apply (Habsent (Examples.entry 0) (map Examples.entry (seq 1 50)) Hlen).
    change (NoDup (map Examples.entry (seq 0 51))).
    apply Finite.Injective_map_NoDup; [| apply seq_NoDup].
    intros a b Hab. unfold Examples.entry in Hab. inversion Hab. lia.
Defined.

(** ** The registry search *)

Lemma requests_logged (reqs : list Request) (s : AppState) :
  requests (logged reqs s) = (requests s ++ reqs)%list.
Proof.
  unfold logged. revert s. induction reqs as [| req rest IH]; intros s; simpl.
  - symmetry. apply app_nil_r.
  - rewrite IH. simpl. rewrite <- app_assoc. reflexivity.
Qed.

Lemma logged_app (a b : list Request) (s : AppState) :
  logged (a ++ b) s = logged b (logged a s).
Proof. unfold logged. apply fold_left_app. Qed.

Lemma fetchLocations_run (env : Env) (item : Candidate) (s : AppState) :
  fetchLocations env item s
  = (Ok (lookupResult env (requests s) item), logged (lookupRequests item) s).
Proof.
  unfold fetchLocations, lookupResult, lookupRequests, tryCatch.
  destruct (rorId (organization item)) as [canonicalId |]; [| reflexivity].
  unfold bind, fetch.
  destruct (rorDetail env (requests s) (detailRequest canonicalId)) as [e | res];
    [reflexivity |].
  destruct (ok res); [| reflexivity].
  destruct (json res); reflexivity.
Qed.

Lemma mapM_fetchLocations (env : Env) (items : list Candidate) (s : AppState) :
  mapM (fetchLocations env) items s
  = (Ok (lookupAll env (requests s) items), logged (flat_map lookupRequests items) s).
Proof.
  revert s. induction items as [| item rest IH]; intros s; [reflexivity |].
  simpl mapM. rewrite (bind_ok _ _ _ _ _ (fetchLocations_run env item s)).
  rewrite (bind_ok _ _ _ _ _ (IH _)). rewrite requests_logged.
  simpl flat_map. rewrite logged_app. reflexivity.
Qed.

Lemma lookupAll_pointwise (env : Env) (log : list Request) (items : list Candidate) :
  Forall2 (fun item r => r = item \/ exists locs, r = withLocations item locs)
          items (lookupAll env log items).
Proof.
  revert log. induction items as [| item rest IH]; intros log; simpl; constructor.
  - unfold lookupResult. destruct (rorId (organization item)); [| left; reflexivity].
    destruct (rorDetail env log _) as [e | res]; [left; reflexivity |].
    destruct (ok res); [| left; reflexivity].
    destruct (json res) as [d | e]; [right; eexists; reflexivity | left; reflexivity].
  - apply IH.
Qed.

Lemma lookupAll_length (env : Env) (log : list Request) (items : list Candidate) :
  List.length (lookupAll env log items) = List.length items.
Proof.
  revert log. induction items as [| item rest IH]; intros log; simpl; [reflexivity |].
  rewrite IH. reflexivity.
Qed.

Lemma insertBy_length {A : Type} (comparefn : A -> A -> Q) (x : A) (l : list A) :
  List.length (insertBy comparefn x l) = S (List.length l).
Proof.
  induction l as [| y rest IH]; simpl; [reflexivity |].
  destruct (Qle_bool (comparefn x y) 0); simpl; [reflexivity | rewrite IH; reflexivity].
Qed.

Lemma sort_length {A : Type} (comparefn : A -> A -> Q) (l : list A) :
  List.length (sort comparefn l) = List.length l.
Proof.
  unfold sort. induction l as [| x rest IH]; simpl; [reflexivity |].
  rewrite insertBy_length, IH. reflexivity.
Qed.

(** C5, amended.  A successful [searchRor] call maps every raw hit to a
    candidate, ranks the candidates, and returns the first 10 of the
    ranking only: the result has [min 10 n] candidates for [n] raw hits,
    in ranked order.  The score of a candidate is [Number(it?.score)]
    when that is finite and 0 otherwise: 0 for an absent score and for a
    number that is not finite, the number itself when it is finite, 0
    for [null], 1 and 0 for [true] and [false], and for a string or an
    object what the built-in conversion gives, or 0 when that is not
    finite.  Each returned candidate with an [id] gets one detail
    lookup; the candidate comes back with the locations of the answer,
    or unchanged when the lookup fails, and the search itself does not
    fail. *)
Theorem searchRor_returns_top_ten (env : Env) (o : ExtOrgItem) (s : AppState)
    (res : Response SearchData) (data : SearchData) :
  truthy (nameOnlyOf o) = true ->
  rorSearch env (requests s) (searchRequest (nameOnlyOf o)) = Resolved res ->
  ok res = true ->
  json res = Ok data ->
  let top := firstn 10 (rankCandidates (map (toCandidate env) (rawHits data))) in
  let result := lookupAll env (requests s ++ [searchRequest (nameOnlyOf o)]) top in
  (exists s',
      searchRor env o s = (Ok result, s')
      /\ requests s'
         = (requests s ++ searchRequest (nameOnlyOf o) :: flat_map lookupRequests top)%list)
  /\ List.length result = Nat.min 10 (List.length (rawHits data))
  /\ Forall2 (fun item r => r = item \/ exists locs, r = withLocations item locs) top result
  /\ (forall it,
         isFinite (toNumber env (hitScore it)) = false -> scoreLocal (toCandidate env it) = 0)
  /\ (forall it,
         scoreLocal (toCandidate env it)
         = match hitScore it with
           | VUndefined => 0
           | VNull => 0
           | VBoolean b => if b then 1 else 0
           | VNumber (Finite q) => q
           | VNumber _ => 0
           | VString text => finiteOrZero (stringToNumber env text)
           | VObject obj => finiteOrZero (objectToNumber env obj)
           end)
  /\ (forall log item canonicalId,
         rorId (organization item) = Some canonicalId ->
         lookupFailed (rorDetail env log (detailRequest canonicalId)) ->
         lookupResult env log item = item).
Proof.
  intros Hname Hres Hok Hjson top result.
  split; [| split; [| split; [| split; [| split]]]].
  - unfold searchRor. cbv zeta. fold (nameOnlyOf o). rewrite Hname. cbn [negb].
    rewrite (bind_ok _ _ _ _ _ (fetch_resolved _ _ _ _ _ Hres)).
    rewrite Hok, Hjson. cbn [negb await].
    rewrite bind_ok with (a := data) (s1 := withRequest (searchRequest (nameOnlyOf o)) s)
      by reflexivity.
    fold (rawHits data). fold top.
    rewrite (bind_ok _ _ _ _ _ (mapM_fetchLocations env top _)).
    cbn [requests withRequest]. fold result.
    destruct (Qle_bool 0.7 match hd_error result with
                           | Some c => scoreLocal c
                           | None => 0
                           end).
    + eexists. split; [reflexivity |].
      cbn [setSelectedIdx modify withSelectedIdx requests]. rewrite requests_logged.
      cbn [requests withRequest]. rewrite <- app_assoc. reflexivity.
    + eexists. split; [reflexivity |].
      rewrite requests_logged. cbn [requests withRequest]. rewrite <- app_assoc. reflexivity.
  - unfold result, top. rewrite lookupAll_length, length_firstn.
    unfold rankCandidates. rewrite sort_length, length_map. reflexivity.
  - apply lookupAll_pointwise.
  - intros it Hfin. unfold toCandidate. cbv zeta. cbn [scoreLocal].
    destruct (toNumber env (hitScore it)); [discriminate Hfin | | |]; reflexivity.
  - intros it. unfold toCandidate. cbv zeta. cbn [scoreLocal].
    destruct (hitScore it) as [| | [|] | [q | | |] | text | obj]; reflexivity.
  - intros log item canonicalId Hid Hfailed. unfold lookupResult. rewrite Hid.
    destruct (rorDetail env log (detailRequest canonicalId)) as [e | r]; [reflexivity |].
    simpl in Hfailed. destruct Hfailed as [Hnok | [e He]].
    + rewrite Hnok. reflexivity.
    + rewrite He. destruct (ok r); reflexivity.
Qed.

Lemma searchRor_returns_top_ten_witness :
  exists result s',
    searchRor (Examples.scripted Examples.offline Examples.offline Examples.offline
                 (Examples.answer 200
                    (Ok (mkSearchData (Some [Examples.hit VUndefined;
                                             Examples.hit (VString "0.9");
                                             Examples.hit (VString "n/a");
                                             Examples.hit (VNumber (Finite 0.95))]))))
                 (Examples.answer 404 Examples.unparsable))
              (Examples.record "approved" None) Examples.idle
    = (Ok result, s')
    /\ List.length result = 4%nat
    /\ map scoreLocal result = [0.95; 0.9; 0; 0].
Proof.
  destruct (searchRor_returns_top_ten
              (Examples.scripted Examples.offline Examples.offline Examples.offline
                 (Examples.answer 200
                    (Ok (mkSearchData (Some [Examples.hit VUndefined;
                                             Examples.hit (VString "0.9");
                                             Examples.hit (VString "n/a");
                                             Examples.hit (VNumber (Finite 0.95))]))))
                 (Examples.answer 404 Examples.unparsable))
              (Examples.record "approved" None) Examples.idle
              (mkResponse 200 ""
                 (Ok (mkSearchData (Some [Examples.hit VUndefined;
                                          Examples.hit (VString "0.9");
                                          Examples.hit (VString "n/a");
                                          Examples.hit (VNumber (Finite 0.95))]))))
              (mkSearchData (Some [Examples.hit VUndefined;
                                   Examples.hit (VString "0.9");
                                   Examples.hit (VString "n/a");
                                   Examples.hit (VNumber (Finite 0.95))]))
              eq_refl eq_refl eq_refl eq_refl)
    as ((s' & Hrun & _) & Hlen & _).
  eexists. exists s'. split; [exact Hrun | split; [exact Hlen | vm_compute; reflexivity]].
Defined.

(** C5 as stated fails: of 11 raw hits only 10 candidates are returned. *)
Lemma searchRor_drops_eleventh_hit :
  exists result,
    fst (searchRor (Examples.scripted Examples.offline Examples.offline Examples.offline
                      (Examples.answer 200
                         (Ok (mkSearchData
                                (Some (repeat (Examples.hit (VNumber (Finite 0.95))) 11)))))
                      Examples.offline)
                   (Examples.record "approved" None) Examples.idle)
    = Ok result
    /\ List.length (rawHits (mkSearchData
                               (Some (repeat (Examples.hit (VNumber (Finite 0.95))) 11))))
       = 11%nat
    /\ List.length result = 10%nat.
Proof.
  eexists. split; [vm_compute; reflexivity | split; vm_compute; reflexivity].
Qed.

(** ** Ranking *)

Lemma compareCandidates_le (a b : Candidate) :
  Qle_bool (compareCandidates a b) 0 = true <-> rankedBefore a b.
Proof.
  unfold compareCandidates, rankedBefore. cbv zeta.
  destruct (chosen a), (chosen b); simpl boolToNumber.
  - change (Qeq_bool (1 - 1) 0) with true. cbv iota. rewrite Qle_bool_iff.
    split.
    + intros H. right. split; [reflexivity | lra].
    + intros [[_ H] | [_ H]]; [discriminate | lra].
  - change (Qeq_bool (0 - 1) 0) with false. cbv iota.
    split; [intros _; left; split; reflexivity | intros _; reflexivity].
  - change (Qeq_bool (1 - 0) 0) with false. cbv iota.
    split; [intros H; discriminate H | intros [[H _] | [H _]]; discriminate H].
  - change (Qeq_bool (0 - 0) 0) with true. cbv iota. rewrite Qle_bool_iff.
    split.
    + intros H. right. split; [reflexivity | lra].
    + intros [[H _] | [_ H]]; [discriminate | lra].
Qed.

Lemma rankedBefore_total (a b : Candidate) : rankedBefore a b \/ rankedBefore b a.
Proof.
  unfold rankedBefore. destruct (chosen a), (chosen b); auto.
  - destruct (Qlt_le_dec (scoreLocal a) (scoreLocal b)) as [H | H].
    + right. right. split; [reflexivity | apply Qlt_le_weak; exact H].
    + left. right. split; [reflexivity | exact H].
  - destruct (Qlt_le_dec (scoreLocal a) (scoreLocal b)) as [H | H].
    + right. right. split; [reflexivity | apply Qlt_le_weak; exact H].
    + left. right. split; [reflexivity | exact H].
Qed.

Lemma rankedBefore_trans (a b c : Candidate) :
  rankedBefore a b -> rankedBefore b c -> rankedBefore a c.
Proof.
  unfold rankedBefore.
  intros [[Ha Hb] | [Hab Hs1]] [[Hb' Hc] | [Hbc Hs2]].
  - rewrite Hb in Hb'. discriminate.
  - left. split; [exact Ha | rewrite <- Hbc; exact Hb].
  - left. split; [rewrite Hab; exact Hb' | exact Hc].
  - right. split; [congruence | eapply Qle_trans; eassumption].
Qed.

Lemma sameKey_compare (flag : bool) (sc : Q) (a b : Candidate) :
  sameKey flag sc a = true -> sameKey flag sc b = true ->
  Qle_bool (compareCandidates a b) 0 = true.
Proof.
  unfold sameKey. intros Ha Hb.
  apply andb_true_iff in Ha. destruct Ha as [Hfa Hsa].
  apply andb_true_iff in Hb. destruct Hb as [Hfb Hsb].
  apply Bool.eqb_prop in Hfa. apply Bool.eqb_prop in Hfb.
  apply Qeq_bool_iff in Hsa. apply Qeq_bool_iff in Hsb.
  apply compareCandidates_le. right. split; [congruence |].
  rewrite Hsa, Hsb. apply Qle_refl.
Qed.

Lemma insertBy_perm {A : Type} (comparefn : A -> A -> Q) (x : A) (l : list A) :
  Permutation (x :: l) (insertBy comparefn x l).
Proof.
  induction l as [| y rest IH]; simpl; [apply Permutation_refl |].
  destruct (Qle_bool (comparefn x y) 0); [apply Permutation_refl |].
  eapply Permutation_trans; [apply perm_swap | apply perm_skip; exact IH].
Qed.

Lemma sort_perm {A : Type} (comparefn : A -> A -> Q) (l : list A) :
  Permutation l (sort comparefn l).
Proof.
  unfold sort. induction l as [| x rest IH]; simpl; [constructor |].
  eapply Permutation_trans; [apply perm_skip; exact IH | apply insertBy_perm].
Qed.

Lemma insertBy_sorted (x : Candidate) (l : list Candidate) :
  StronglySorted rankedBefore l ->
  StronglySorted rankedBefore (insertBy compareCandidates x l).
Proof.
  induction l as [| y rest IH]; intros Hsorted; simpl.
  - constructor; [constructor | constructor].
  - inversion Hsorted as [| y' rest' Hrest Hall]; subst.
    destruct (Qle_bool (compareCandidates x y) 0) eqn:Hcmp.
    + apply compareCandidates_le in Hcmp.
      constructor; [exact Hsorted |].
      constructor; [exact Hcmp |].
      eapply Forall_impl; [| exact Hall].
      intros z Hyz. eapply rankedBefore_trans; eassumption.
    + assert (Hyx : rankedBefore y x).
      { destruct (rankedBefore_total x y) as [H | H]; [| exact H].
        apply compareCandidates_le in H. rewrite H in Hcmp. discriminate. }
      constructor; [apply IH; exact Hrest |].
      eapply Permutation_Forall; [apply insertBy_perm |].
      constructor; assumption.
Qed.

Lemma rankCandidates_sorted (l : list Candidate) :
  StronglySorted rankedBefore (rankCandidates l).
Proof.
  unfold rankCandidates, sort. induction l as [| x rest IH]; simpl.
  - constructor.
  - apply insertBy_sorted. exact IH.
Qed.

Lemma insertBy_filter (p : Candidate -> bool) (x : Candidate) (l : list Candidate) :
  (forall y, p x = true -> p y = true -> Qle_bool (compareCandidates x y) 0 = true) ->
  filter p (insertBy compareCandidates x l) = filter p (x :: l).
Proof.
  intros Hkey. induction l as [| y rest IH]; [reflexivity |].
  simpl insertBy. destruct (Qle_bool (compareCandidates x y) 0) eqn:Hcmp; [reflexivity |].
  simpl filter at 1. rewrite IH. simpl.
  destruct (p x) eqn:Hx, (p y) eqn:Hy; try reflexivity.
  rewrite (Hkey y eq_refl Hy) in Hcmp. discriminate.
Qed.

Lemma rankCandidates_stable (flag : bool) (sc : Q) (l : list Candidate) :
  filter (sameKey flag sc) (rankCandidates l) = filter (sameKey flag sc) l.
Proof.
  unfold rankCandidates, sort. induction l as [| x rest IH]; [reflexivity |].
  simpl fold_right. rewrite insertBy_filter by (intros y; apply sameKey_compare).
  simpl. rewrite IH. reflexivity.
Qed.

(** C6.  The ranking of [searchRor] is a permutation of its input, puts
    recommended candidates before the others and, within the same flag,
    higher scores first; it is stable: the candidates of equal flag and
    equal score keep their order.  Of two candidates of equal score of
    which one is recommended, the recommended one comes first, whichever
    came first in the input; so it is for the score 0.95. *)
Theorem rankCandidates_stable_sort :
  (forall l, Permutation l (rankCandidates l))
  /\ (forall l, StronglySorted rankedBefore (rankCandidates l))
  /\ (forall flag sc l,
         filter (sameKey flag sc) (rankCandidates l) = filter (sameKey flag sc) l)
  /\ (forall a b,
         chosen a = true -> chosen b = false -> scoreLocal a == scoreLocal b ->
         rankCandidates [a; b] = [a; b] /\ rankCandidates [b; a] = [a; b])
  /\ rankCandidates [Examples.candidate 0.95 true; Examples.candidate 0.95 false]
     = [Examples.candidate 0.95 true; Examples.candidate 0.95 false].
Proof.
  split; [intros l; apply sort_perm |].
  split; [exact rankCandidates_sorted |].
  split; [exact rankCandidates_stable |].
  split; [| reflexivity].
  intros a b Ha Hb _.
  assert (Hab : Qle_bool (compareCandidates a b) 0 = true)
    by (apply compareCandidates_le; left; split; assumption).
  assert (Hba : Qle_bool (compareCandidates b a) 0 = false).
  { destruct (Qle_bool (compareCandidates b a) 0) eqn:E; [| reflexivity].
    apply compareCandidates_le in E.
    destruct E as [[E _] | [E _]]; congruence. }
  unfold rankCandidates, sort. simpl. rewrite Hab, Hba. split; reflexivity.
Qed.

Lemma rankCandidates_stable_sort_witness :
  rankCandidates [Examples.candidate 0.95 false; Examples.candidate 0.95 true]
  = [Examples.candidate 0.95 true; Examples.candidate 0.95 false].
Proof.
  destruct rankCandidates_stable_sort as (_ & _ & _ & Hpair & _).
  apply (Hpair (Examples.candidate 0.95 true) (Examples.candidate 0.95 false));
    reflexivity.
Defined.

(** ** Aliases *)

Lemma includes_In (arr : list string) (x : string) : includes arr x = true <-> In x arr.
Proof.
  unfold includes. rewrite existsb_exists. split.
  - intros (y & Hin & Heq). apply String.eqb_eq in Heq. subst. exact Hin.
  - intros Hin. exists x. split; [exact Hin | apply String.eqb_refl].
Qed.

Lemma dedupe_In (seen arr : list string) (a : string) :
  In a (dedupe seen arr) <-> In a arr /\ ~ In a seen.
Proof.
  revert seen. induction arr as [| x rest IH]; intros seen; simpl.
  - tauto.
  - destruct (includes seen x) eqn:Hseen.
    + apply includes_In in Hseen. rewrite IH. split.
      * intros [Hin Hnot]. split; [right; exact Hin | exact Hnot].
      * intros [[Heq | Hin] Hnot]; [subst; contradiction | split; assumption].
    + assert (Hx : ~ In x seen).
      { intros Hin. apply includes_In in Hin. rewrite Hin in Hseen. discriminate. }
      simpl. rewrite IH. simpl. split.
      * intros [Heq | [Hin Hnot]]; [subst; split; [left; reflexivity | exact Hx] |].
        split; [right; exact Hin | intros H; apply Hnot; right; exact H].
      * intros [[Heq | Hin] Hnot]; [left; exact Heq |].
        destruct (string_dec x a) as [E | E]; [left; exact E |].
        right. split; [exact Hin | intros [H | H]; [exact (E H) | exact (Hnot H)]].
Qed.

Lemma dedupe_NoDup (seen arr : list string) : NoDup (dedupe seen arr).
Proof.
  revert seen. induction arr as [| x rest IH]; intros seen; simpl.
  - constructor.
  - destruct (includes seen x); [apply IH |].
    constructor; [| apply IH].
    intros Hin. apply dedupe_In in Hin. destruct Hin as [_ Hnot].
    apply Hnot. left. reflexivity.
Qed.

Lemma truthy_true (s : string) : truthy s = true <-> s <> "".
Proof. destruct s; simpl; split; congruence. Qed.

(** C7, amended.  For a candidate with a display name, [rorAliasList]
    returns the non-empty strings listed as aliases (in the [aliases]
    field or as a name tagged "alias") whose lower-case form differs from
    that of the display name, each once: duplicates are removed by exact
    string comparison.  The result never contains the display name, in
    any case.  This holds whatever [String.prototype.toLowerCase]
    answers, so for every alphabet. *)
Theorem rorAliasList_exact_dedupe (toLowerCase : string -> string) (r : RorOrg)
    (display : string) :
  rorDisplayName r = Some display ->
  exists l,
    rorAliasList toLowerCase r = Ok l
    /\ (forall a, In a l
                  <-> listedAlias r a /\ a <> "" /\ toLowerCase a <> toLowerCase display)
    /\ NoDup l
    /\ (forall a, In a l -> toLowerCase a <> toLowerCase display).
Proof.
  intros Hdisplay. unfold rorAliasList. cbv zeta. rewrite Hdisplay.
  fold (nameList r). fold (aliasField r).
  eexists. split; [reflexivity |].
  assert (Hmember : forall a,
             In a (filter (fun a => truthy a
                                    && negb (String.eqb (toLowerCase a) (toLowerCase display)))
                          (dedupe [] (aliasField r
                                      ++ filter truthy
                                           (map value (filter (hasType "alias") (nameList r))))))
             <-> listedAlias r a /\ a <> "" /\ toLowerCase a <> toLowerCase display).
  { intros a. rewrite filter_In, dedupe_In, in_app_iff, filter_In, in_map_iff.
    rewrite andb_true_iff, negb_true_iff, truthy_true, String.eqb_neq.
    unfold listedAlias. split.
    - intros [[[Hfield | [(n & Hvalue & Hn) _]] _] [Hne Hlow]].
      + split; [left; exact Hfield | split; assumption].
      + apply filter_In in Hn. destruct Hn as [Hin Htag].
        split; [right; exists n; repeat split; assumption | split; assumption].
    - intros [[Hfield | (n & Hin & Htag & Hvalue)] [Hne Hlow]].
      + split; [split; [left; exact Hfield | intros []] | split; assumption].
      + split; [split; [| intros []] | split; assumption].
        right. split; [| exact Hne].
        exists n. split; [exact Hvalue | apply filter_In; split; assumption]. }
  split; [exact Hmember |].
  split; [apply NoDup_filter, dedupe_NoDup |].
  intros a Hin. apply Hmember in Hin. destruct Hin as (_ & _ & Hlow). exact Hlow.
Qed.

Lemma rorAliasList_exact_dedupe_witness :
  rorAliasList Examples.lowerAscii
               (Examples.named "Aalborg University" ["AAU"; "aalborg university"; "AAU"])
  = Ok ["AAU"].
Proof.
  destruct (rorAliasList_exact_dedupe Examples.lowerAscii
              (Examples.named "Aalborg University" ["AAU"; "aalborg university"; "AAU"])
              "Aalborg University" eq_refl) as (l & Hrun & _).
  rewrite Hrun. vm_compute in Hrun. inversion Hrun. reflexivity.
Defined.

(** C7 as stated fails: two aliases that differ only in case are both
    kept, whenever their lower-case form is not that of the display
    name. *)
Lemma rorAliasList_keeps_case_variants :
  rorAliasList Examples.lowerAscii (Examples.named "Aalborg University" ["AAU"; "aau"])
  = Ok ["AAU"; "aau"]
  /\ "AAU" <> "aau"
  /\ Examples.lowerAscii "AAU" = Examples.lowerAscii "aau"
  /\ forall toLowerCase : string -> string,
      toLowerCase "AAU" <> toLowerCase "Aalborg University" ->
      toLowerCase "aau" <> toLowerCase "Aalborg University" ->
      rorAliasList toLowerCase (Examples.named "Aalborg University" ["AAU"; "aau"])
      = Ok ["AAU"; "aau"].
Proof.
  split; [vm_compute; reflexivity |].
  split; [discriminate |].
  split; [vm_compute; reflexivity |].
  intros toLowerCase Hupper Hlower. unfold rorAliasList. cbv zeta.
  change (rorDisplayName (Examples.named "Aalborg University" ["AAU"; "aau"]))
    with (Some "Aalborg University").
  cbn [Examples.named aliases names app filter map dedupe includes existsb String.eqb
       Ascii.eqb Bool.eqb orb truthy andb negb].
  apply String.eqb_neq in Hupper, Hlower. rewrite Hupper, Hlower. reflexivity.
Qed.

(** ** Loading the stored progress *)

(** C10 fails on the program.  A stored points text that is not a number
    loads as [NaN], not as 0: [parseInt] is applied without a check, and
    only an absent or empty entry falls back to "0".  The history is
    guarded: a text [JSON.parse] rejects loads as the empty list, and a
    text it accepts loads as the parsed value, whatever its shape. *)
Theorem loadPoints_malformed_is_NaN :
  loadPoints (Some "abc") = NaN
  /\ NaN <> Finite 0
  /\ (forall c rest,
         digitOf c = None -> isSpace c = false -> c <> "-"%char -> c <> "+"%char ->
         loadPoints (Some (String c rest)) = NaN)
  /\ loadPoints None = Finite 0
  /\ loadPoints (Some "") = Finite 0
  /\ (forall JSON_parse stored e,
         JSON_parse (storedOr stored "[]") = Throw e ->
         loadHistory JSON_parse stored = JArray [])
  /\ (forall JSON_parse stored v,
         JSON_parse (storedOr stored "[]") = Ok v -> loadHistory JSON_parse stored = v)
  /\ loadHistory Examples.parseLiteral (Some "null") = JNull.
Proof.
  split; [reflexivity |].
  split; [discriminate |].
  split.
  { intros c rest Hdigit Hspace Hminus Hplus.
    unfold loadPoints, storedOr, orElse. cbn [truthy]. unfold parseInt10.
    cbn [dropLeading]. rewrite Hspace.
    assert (Hnan : parseDigits 1 (String c rest) = NaN)
      by (unfold parseDigits, startsWithDigit; rewrite Hdigit; reflexivity).
    destruct c as [b0 b1 b2 b3 b4 b5 b6 b7].
    destruct b0, b1, b2, b3, b4, b5, b6, b7; try exact Hnan; congruence. }
  split; [reflexivity |].
  split; [reflexivity |].
  split; [intros parse stored e H; unfold loadHistory; rewrite H; reflexivity |].
  split; [intros parse stored v H; unfold loadHistory; rewrite H; reflexivity |].
  reflexivity.
Qed.

(** * Further properties *)

(** ** URLs *)

Lemma dropTrailing_app_slash (b : string) :
  dropTrailing isSlash (b ++ "/") = dropTrailing isSlash b.
Proof.
  induction b as [| c rest IH]; [reflexivity |].
  simpl. rewrite IH. reflexivity.
Qed.

Lemma dropLeading_no_prefix (p : string) : prefix "/" (dropLeading isSlash p) = false.
Proof.
  induction p as [| c rest IH]; [reflexivity |].
  cbn [dropLeading]. destruct (isSlash c) eqn:E; [exact IH |].
  cbn [prefix]. destruct (Ascii.ascii_dec "/"%char c) as [Heq | Hne]; [| reflexivity].
  subst c. discriminate E.
Qed.

Lemma endsWith_cons (c : ascii) (rest : string) :
  endsWith (String c rest) "/"
  = match rest with EmptyString => isSlash c | _ => endsWith rest "/" end.
Proof.
  unfold endsWith. destruct rest as [| d r].
  - simpl. unfold isSlash. destruct (Ascii.eqb c "/"%char); reflexivity.
  - cbn [String.length]. simpl Nat.leb. simpl Nat.sub. rewrite !Nat.sub_0_r.
    reflexivity.
Qed.

Lemma dropTrailing_no_suffix (b : string) : endsWith (dropTrailing isSlash b) "/" = false.
Proof.
  induction b as [| c rest IH]; [reflexivity |].
  simpl. destruct (dropTrailing isSlash rest) as [| d kept] eqn:E.
  - destruct (isSlash c) eqn:Hc; [reflexivity |].
    rewrite endsWith_cons. exact Hc.
  - rewrite endsWith_cons. exact IH.
Qed.

Lemma dropTrailing_fixed (b : string) :
  endsWith b "/" = false -> dropTrailing isSlash b = b.
Proof.
  induction b as [| c rest IH]; [reflexivity |].
  rewrite endsWith_cons. destruct rest as [| d r].
  - intros Hc. simpl. rewrite Hc. reflexivity.
  - intros Hrest.
    change (dropTrailing isSlash (String c (String d r)))
      with (match dropTrailing isSlash (String d r) with
            | EmptyString => if isSlash c then EmptyString else String c EmptyString
            | String k kept => String c (String k kept)
            end).
    rewrite (IH Hrest). reflexivity.
Qed.

(** X1.  [buildUrl] joins base and path with exactly one slash: trailing
    slashes of the base and leading slashes of the path do not matter,
    what stands before the joint does not end in a slash and what stands
    after it does not start with one. *)
Theorem buildUrl_single_slash (base path : string) :
  buildUrl (base ++ "/") path = buildUrl base path
  /\ buildUrl base (String "/" path) = buildUrl base path
  /\ (exists b p,
         buildUrl base path = b ++ "/" ++ p
         /\ endsWith b "/" = false
         /\ prefix "/" p = false)
  /\ (endsWith base "/" = false -> prefix "/" path = false ->
      buildUrl base path = base ++ "/" ++ path).
Proof.
  unfold buildUrl. cbv zeta. split; [| split; [| split]].
  - rewrite dropTrailing_app_slash. reflexivity.
  - reflexivity.
  - exists (dropTrailing isSlash base), (dropLeading isSlash path).
    split; [reflexivity | split; [apply dropTrailing_no_suffix | apply dropLeading_no_prefix]].
  - intros Hbase Hpath. rewrite (dropTrailing_fixed base Hbase).
    destruct path as [| c rest]; [reflexivity |].
    cbn [prefix] in Hpath. cbn [dropLeading].
    destruct (Ascii.ascii_dec "/"%char c) as [Heq | Hne].
    + subst c. destruct rest; discriminate Hpath.
    + assert (Hc : isSlash c = false).
      { unfold isSlash. apply Ascii.eqb_neq. intros H. apply Hne. symmetry. exact H. }
      rewrite Hc. reflexivity.
Qed.

Lemma buildUrl_single_slash_witness :
  buildUrl "https://pure.example.org/ws/api" "external-organizations"
  = "https://pure.example.org/ws/api/external-organizations".
Proof.
  apply (proj2 (proj2 (proj2 (buildUrl_single_slash "https://pure.example.org/ws/api"
                                                    "external-organizations"))));
    reflexivity.
Defined.

Lemma hexDigit_encoded (c : ascii) :
  encodedChar (hexDigit (nat_of_ascii c / 16)) = true
  /\ encodedChar (hexDigit (nat_of_ascii c mod 16)) = true.
Proof.
  destruct c as [b0 b1 b2 b3 b4 b5 b6 b7].
  destruct b0, b1, b2, b3, b4, b5, b6, b7; split; vm_compute; reflexivity.
Qed.

Lemma encodedChar_safe (c : ascii) :
  encodedChar c = true ->
  existsb (Ascii.eqb c) ["&"; "="; "#"; "?"; "/"; " "; "+"]%char = false.
Proof.
  destruct c as [b0 b1 b2 b3 b4 b5 b6 b7].
  destruct b0, b1, b2, b3, b4, b5, b6, b7; vm_compute; congruence.
Qed.

Lemma allChars_impl (p q : ascii -> bool) (s : string) :
  (forall c, p c = true -> q c = true) -> allChars p s = true -> allChars q s = true.
Proof.
  intros Hpq. induction s as [| c rest IH]; [reflexivity |].
  simpl. intros H. apply andb_true_iff in H. destruct H as [Hc Hrest].
  rewrite (Hpq c Hc), (IH Hrest). reflexivity.
Qed.

(** X2.  [encodeURIComponent] yields unreserved characters and percent signs
    only, so the organization name cannot add a parameter, a fragment or
    a path segment to the search URL, whose query is the encoded name. *)
Theorem encodeURIComponent_alphabet (nameOnly : string) :
  allChars encodedChar (encodeURIComponent nameOnly) = true
  /\ allChars (fun c => negb (existsb (Ascii.eqb c) ["&"; "="; "#"; "?"; "/"; " "; "+"]%char))
              (encodeURIComponent nameOnly) = true
  /\ url (searchRequest nameOnly)
     = "https://api.ror.org/organizations?affiliation=" ++ encodeURIComponent nameOnly.
Proof.
  assert (H : allChars encodedChar (encodeURIComponent nameOnly) = true).
  { induction nameOnly as [| c rest IH]; [reflexivity |].
    cbn [encodeURIComponent]. destruct (unreserved c) eqn:Hc.
    - cbn [allChars]. unfold encodedChar at 1. rewrite Hc. exact IH.
    - destruct (hexDigit_encoded c) as [Hhi Hlo].
      cbv zeta. cbn [allChars]. rewrite Hhi, Hlo, IH. reflexivity. }
  split; [exact H | split; [| reflexivity]].
  eapply allChars_impl; [| exact H].
  intros c Hc. rewrite (encodedChar_safe c Hc). reflexivity.
Qed.

Lemma substring_all (s : string) : String.substring 0%nat (String.length s) s = s.
Proof. induction s as [| c rest IH]; [reflexivity |]. simpl. rewrite IH. reflexivity. Qed.

(** X3.  The detail lookup of a candidate whose id is the canonical
    [https://ror.org/<suffix>] goes to
    [https://api.ror.org/v2/organizations/<suffix>]. *)
Theorem detailRequest_strips_prefix (suffix : string) :
  url (detailRequest ("https://ror.org/" ++ suffix))
  = "https://api.ror.org/v2/organizations/" ++ suffix
  /\ headers (detailRequest ("https://ror.org/" ++ suffix)) = [("Accept", "application/json")]
  /\ method (detailRequest ("https://ror.org/" ++ suffix)) = GET.
Proof.
  split; [| split; reflexivity].
  unfold detailRequest. cbv zeta. cbn [url].
  assert (H : replaceFirst "https://ror.org/" "" ("https://ror.org/" ++ suffix) = suffix).
  { cbn -[String.substring String.length]. cbn [String.length append]. simpl Nat.sub.
    rewrite Nat.sub_0_r. cbn [String.substring].
    replace (prefix "" suffix) with true by (destruct suffix; reflexivity).
    apply substring_all. }
  rewrite H. reflexivity.
Qed.

(** ** Localized names *)

Lemma firstPreferred_sound (m : LocaleMap) (preferred : list string) (p : Picked) :
  firstPreferred m preferred = Some p ->
  lookup m (pickedKey p) = Some (pickedValue p)
  /\ pickedValue p <> ""
  /\ In (pickedKey p) preferred.
Proof.
  induction preferred as [| key rest IH]; [discriminate |].
  cbn [firstPreferred]. destruct (lookup m key) as [v |] eqn:E.
  - destruct (truthy v) eqn:Hv.
    + intros H. inversion H; subst. cbn [pickedKey pickedValue].
      split; [exact E | split; [apply truthy_true; exact Hv | left; reflexivity]].
    + intros H. destruct (IH H) as (A & B & C). split; [exact A | split; [exact B | right; exact C]].
  - intros H. destruct (IH H) as (A & B & C). split; [exact A | split; [exact B | right; exact C]].
Qed.

(** X4.  [pickPreferredLocale] returns a value the map really holds under
    the returned key.  A non-empty English name wins, then a non-empty
    Danish one, then the entry of the first key, whatever its locale; an
    absent or empty map gives the empty name. *)
Theorem pickPreferredLocale_sound (m : LocaleMap) :
  (pickedValue (pickPreferredLocale (Some m)) <> "" ->
   lookup m (pickedKey (pickPreferredLocale (Some m)))
   = Some (pickedValue (pickPreferredLocale (Some m))))
  /\ (forall v, lookup m "en_GB" = Some v -> v <> "" ->
                pickPreferredLocale (Some m) = mkPicked v "en_GB")
  /\ (forall v, lookup m "en_GB" = None \/ lookup m "en_GB" = Some "" ->
                lookup m "da_DK" = Some v -> v <> "" ->
                pickPreferredLocale (Some m) = mkPicked v "da_DK")
  /\ (forall k v rest,
         m = (k, v) :: rest -> k <> "" ->
         lookup m "en_GB" = None \/ lookup m "en_GB" = Some "" ->
         lookup m "da_DK" = None \/ lookup m "da_DK" = Some "" ->
         pickPreferredLocale (Some m) = mkPicked v k)
  /\ pickPreferredLocale None = mkPicked "" ""
  /\ pickPreferredLocale (Some []) = mkPicked "" "".
Proof.
  unfold pickPreferredLocale, pickPreferredLocaleFrom.
  split; [| split; [| split; [| split; [| split; reflexivity]]]].
  - destruct (firstPreferred m ["en_GB"; "da_DK"]) as [p |] eqn:E.
    + intros _. apply (firstPreferred_sound _ _ _ E).
    + destruct m as [| [k v] rest]; [intros H; exfalso; apply H; reflexivity |].
      cbn [pickedValue pickedKey]. destruct (truthy k) eqn:Hk.
      * intros _. cbn [lookup]. rewrite String.eqb_refl. reflexivity.
      * intros H. exfalso. apply H. reflexivity.
  - intros v Hen Hv. cbn [firstPreferred]. rewrite Hen.
    apply truthy_true in Hv. rewrite Hv. reflexivity.
  - intros v Hen Hda Hv. cbn [firstPreferred].
    apply truthy_true in Hv.
    destruct Hen as [Hen | Hen]; rewrite Hen, Hda; cbn [truthy]; rewrite Hv; reflexivity.
  - intros k v rest Hm Hk Hen Hda. cbn [firstPreferred].
    assert (Hnone : match lookup m "en_GB" with
                    | Some v0 => if truthy v0 then Some (mkPicked v0 "en_GB")
                                 else match lookup m "da_DK" with
                                      | Some v1 => if truthy v1 then Some (mkPicked v1 "da_DK")
                                                   else None
                                      | None => None
                                      end
                    | None => match lookup m "da_DK" with
                              | Some v1 => if truthy v1 then Some (mkPicked v1 "da_DK")
                                           else None
                              | None => None
                              end
                    end = None).
    { destruct Hen as [Hen | Hen], Hda as [Hda | Hda]; rewrite Hen, Hda; reflexivity. }
    rewrite Hnone. subst m. apply truthy_true in Hk. rewrite Hk.
    cbn [lookup]. rewrite String.eqb_refl. reflexivity.
Qed.

Lemma pickPreferredLocale_sound_witness :
  pickPreferredLocale (Some [("fr_FR", "Universite"); ("da_DK", "Aalborg Universitet")])
  = mkPicked "Aalborg Universitet" "da_DK".
Proof.
  destruct (pickPreferredLocale_sound
              [("fr_FR", "Universite"); ("da_DK", "Aalborg Universitet")])
    as (_ & _ & Hda & _).
  apply Hda; [left; reflexivity | reflexivity | discriminate].
Defined.

(** ** Display names *)




(** ** Stored points *)

Ltac eval_digit :=
  cbn [digitsValue];
  match goal with
  | |- context [digitOf ?c] =>
      let v := eval vm_compute in (digitOf c) in change (digitOf c) with v
  end;
  cbv iota.

Lemma digitsValue_acc (d : Decimal.uint) (acc : positive) :
  digitsValue (Z.pos acc) (NilEmpty.string_of_uint d) = Z.pos (Pos.of_uint_acc d acc).
Proof.
  revert acc. induction d; intros acc; cbn [NilEmpty.string_of_uint Pos.of_uint_acc];
    [reflexivity | ..];
    eval_digit; rewrite <- IHd; f_equal; lia.
Qed.

Lemma digitsValue_uint (d : Decimal.uint) :
  digitsValue 0 (NilEmpty.string_of_uint d) = Z.of_N (Pos.of_uint d).
Proof.
  induction d; cbn [NilEmpty.string_of_uint Pos.of_uint];
    [reflexivity | eval_digit; exact IHd | ..];
    eval_digit; apply digitsValue_acc.
Qed.

Lemma parseDigits_uint (sign : Z) (p : positive) :
  parseDigits sign (NilEmpty.string_of_uint (Pos.to_uint p))
  = Finite (inject_Z (sign * Z.pos p)).
Proof.
  unfold parseDigits.
  rewrite digitsValue_uint, DecimalPos.Unsigned.of_to. cbn [Z.of_N].
  pose proof (DecimalPos.Unsigned.to_uint_nonnil p) as Hnonnil.
  destruct (Pos.to_uint p); [contradiction | ..]; reflexivity.
Qed.

Lemma parseInt10_showZ (z : Z) : parseInt10 (showZ z) = Finite (inject_Z z).
Proof.
  unfold showZ. destruct z as [| p | p]; [reflexivity | |].
  - cbn [Z.to_int NilZero.string_of_int]. unfold NilZero.string_of_uint.
    pose proof (parseDigits_uint 1 p) as Hdigits.
    pose proof (DecimalPos.Unsigned.to_uint_nonnil p) as Hnonnil.
    destruct (Pos.to_uint p); [contradiction | ..];
      (unfold parseInt10; cbn [NilEmpty.string_of_uint dropLeading];
       cbn [NilEmpty.string_of_uint] in Hdigits; exact Hdigits).
  - cbn [Z.to_int NilZero.string_of_int]. unfold NilZero.string_of_uint.
    pose proof (parseDigits_uint (-1) p) as Hdigits.
    pose proof (DecimalPos.Unsigned.to_uint_nonnil p) as Hnonnil.
    destruct (Pos.to_uint p); [contradiction | ..];
      (unfold parseInt10; cbn [dropLeading]; exact Hdigits).
Qed.

Lemma showZ_truthy (z : Z) : truthy (showZ z) = true.
Proof.
  unfold showZ. destruct z as [| p | p]; [reflexivity | | reflexivity].
  cbn [Z.to_int NilZero.string_of_int]. unfold NilZero.string_of_uint.
  pose proof (DecimalPos.Unsigned.to_uint_nonnil p) as Hnonnil.
  destruct (Pos.to_uint p); [contradiction | ..]; reflexivity.
Qed.

(** X6.  Round trip of the points through [localStorage]: an integer total
    within the safe integer range, stored as [String(points)], loads as
    the same total.  A total that is [NaN] stays [NaN]: awards do not
    change it and its stored text loads as [NaN] again. *)
Theorem points_round_trip :
  (forall z, (Z.abs z <= 2 ^ 53)%Z ->
             loadPoints (Some (pointsText (Finite (inject_Z z)))) = Finite (inject_Z z))
  /\ (forall awarded, add NaN awarded = NaN)
  /\ loadPoints (Some (pointsText NaN)) = NaN.
Proof.
  split; [| split; [intros awarded; destruct awarded; reflexivity | reflexivity]].
  intros z _. unfold loadPoints, pointsText, storedOr, orElse.
  rewrite Qfloor_Z, showZ_truthy. apply parseInt10_showZ.
Qed.

Lemma points_round_trip_witness :
  loadPoints (Some (pointsText (Finite (inject_Z 1250)))) = Finite (inject_Z 1250).
Proof.
  apply (proj1 points_round_trip). vm_compute. discriminate.
Defined.

(** ** Outcomes of [loadNext] *)

Lemma bind_throw {A B : Type} (m : M A) (k : A -> M B) (s s1 : AppState) (e : Exn) :
  m s = (Throw e, s1) -> bind m k s = (Throw e, s1).
Proof. intros H. unfold bind. rewrite H. reflexivity. Qed.

Lemma sameView_refl (s : AppState) : sameView s s.
Proof. repeat split. Qed.

Lemma sameView_trans (s1 s2 s3 : AppState) : sameView s1 s2 -> sameView s2 s3 -> sameView s1 s3.
Proof. unfold sameView. intros H12 H23. intuition congruence. Qed.

Lemma sameView_request (req : Request) (s : AppState) : sameView s (withRequest req s).
Proof. repeat split. Qed.

(** [fetchRandomOrg] only reads the network: the React state is as
    before, and a record it returns is eligible. *)
Lemma fetchRandomOrg_view (env : Env) (s : AppState) (r : Outcome (option ExtOrgItem))
    (s' : AppState) :
  fetchRandomOrg env s = (r, s') ->
  sameView s s' /\ forall item, r = Ok (Some item) -> recognisedEligible item.
Proof.
  intros H. split.
  - apply (respects_fetchRandomOrg sameView sameView_refl sameView_trans
             (fun req st _ => sameView_request req st) env s r s' H).
  - intros item Hitem. subst r. unfold fetchRandomOrg in H. unfold bind at 1 in H.
    destruct (getCount env s) as [[total | e] s1]; [| discriminate H].
    destruct (total =? 0)%Z; [discriminate H |].
    unfold bind at 1, mathRandom in H. unfold bind at 1 in H.
    destruct (limitedFetch env catalogPage _ GET [] None s1) as [[res | e] s2];
      [| discriminate H].
    destruct (negb (ok res)); [discriminate H |].
    unfold bind in H. destruct (await (json res) s2) as [[data | e] s3]; [| discriminate H].
    destruct (hd_error (items data)) as [first |]; [| discriminate H].
    destruct ((stepIs first "forApproval" || stepIs first "approved")
              && negb (hasRorIdentifier (identifiers first))) eqn:Helig;
      [| discriminate H].
    inversion H; subst. apply eligible_iff. exact Helig.
Qed.

(** What [searchRor] does to the React state: it preselects the first
    candidate when that one scores at least 0.7, and changes nothing
    else; it returns at most 10 candidates. *)
Lemma searchRor_view (env : Env) (o : ExtOrgItem) (s : AppState)
    (r : Outcome (list Candidate)) (s' : AppState) :
  searchRor env o s = (r, s') ->
  match r with
  | Throw _ => sameView s s'
  | Ok result =>
      (List.length result <= 10)%nat
      /\ points s' = points s /\ history s' = history s /\ org s' = org s
      /\ candidates s' = candidates s /\ error s' = error s /\ loading s' = loading s
      /\ toast s' = toast s /\ confirmOpen s' = confirmOpen s
      /\ ((selectedIdx s' = Some 0%Z
           /\ exists top rest, result = top :: rest /\ 0.7 <= scoreLocal top)
          \/ (selectedIdx s' = selectedIdx s
              /\ (result = [] \/ exists top rest, result = top :: rest /\ scoreLocal top < 0.7)))
  end.
Proof.
  unfold searchRor. cbv zeta. fold (nameOnlyOf o).
  destruct (negb (truthy (nameOnlyOf o))).
  { intros H. inversion H; subst. split; [simpl; lia |].
    repeat split. right. split; [reflexivity | left; reflexivity]. }
  unfold bind at 1, fetch.
  destruct (rorSearch env (requests s) (searchRequest (nameOnlyOf o))) as [e | res].
  { intros H. inversion H; subst. apply sameView_request. }
  destruct (negb (ok res)).
  { intros H. inversion H; subst. apply sameView_request. }
  destruct (json res) as [data | e].
  2: { intros H. inversion H; subst. apply sameView_request. }
  cbn [await]. rewrite bind_ok with (a := data) (s1 := withRequest (searchRequest (nameOnlyOf o)) s)
    by reflexivity.
  rewrite (bind_ok _ _ _ _ _ (mapM_fetchLocations env _ _)).
  set (result := lookupAll env _ _).
  assert (Hlen : (List.length result <= 10)%nat).
  { unfold result. rewrite lookupAll_length. apply firstn_le_length. }
  assert (Hview : forall reqs st, sameView st (logged reqs st)).
  { intros reqs. induction reqs as [| req rest IH]; intros st; [apply sameView_refl |].
    unfold logged. cbn [fold_left]. eapply sameView_trans; [apply sameView_request |].
    apply IH. }
  match goal with
  | |- context [logged ?reqs ?st] =>
      pose proof (Hview reqs st) as Hlogged; set (after := logged reqs st) in *
  end.
  assert (Hsame : sameView s after).
  { eapply sameView_trans; [apply sameView_request | exact Hlogged]. }
  destruct Hsame as (A & B & C & D & E & F & G & H' & I).
  destruct (hd_error result) as [top |] eqn:Htop.
  - destruct result as [| top' rest]; [discriminate Htop |].
    inversion Htop; subst top'.
    destruct (Qle_bool 0.7 (scoreLocal top)) eqn:Hscore.
    + intros H. inversion H; subst. split; [exact Hlen |].
      repeat split; try assumption.
      left. split; [reflexivity |]. exists top, rest. split; [reflexivity |].
      apply Qle_bool_iff. exact Hscore.
    + intros H. inversion H; subst. split; [exact Hlen |].
      repeat split; try assumption.
      right. split; [exact E |]. right. exists top, rest. split; [reflexivity |].
      apply Qnot_le_lt. intros Hle. apply Qle_bool_iff in Hle. congruence.
  - destruct result as [| top rest]; [| discriminate Htop].
    change (Qle_bool 0.7 0) with false. cbv iota.
    intros H. inversion H; subst. split; [exact Hlen |].
    repeat split; try assumption.
    right. split; [exact E | left; reflexivity].
Qed.

(** [loadNext], case by case. *)
Lemma loadNext_unfold (env : Env) (s : AppState) :
  loadNext env s =
  match fetchRandomOrg env (cleared s) with
  | (Throw e, s1) => (Ok tt, stopped (errorText e) s1)
  | (Ok None, s1) =>
      (Ok tt, stopped "No eligible external organizations found right now." s1)
  | (Ok (Some candidate), s1) =>
      match searchRor env candidate (withOrg (Some candidate) s1) with
      | (Ok rorList, s2) => (Ok tt, withLoading false (withCandidates rorList s2))
      | (Throw e, s2) => (Ok tt, stopped (errorText e) s2)
      end
  end.
Proof.
  unfold loadNext, setError, setLoading, setCandidates, setSelectedIdx, setOrg.
  rewrite !bind_modify. fold (cleared s).
  unfold tryFinally, tryCatch. unfold bind at 1.
  destruct (fetchRandomOrg env (cleared s)) as [[[candidate |] | e] s1]; try reflexivity.
  rewrite bind_modify. unfold bind.
  destruct (searchRor env candidate (withOrg (Some candidate) s1)) as [[rorList | e] s2];
    reflexivity.
Qed.

(** What [loadNext] leaves, whatever the network answered. *)
Lemma loadNext_view (env : Env) (s : AppState) :
  let s' := snd (loadNext env s) in
  fst (loadNext env s) = Ok tt
  /\ loading s' = false
  /\ (forall o, org s' = Some o -> recognisedEligible o)
  /\ (List.length (candidates s') <= 10)%nat
  /\ (selectedIdx s' = None
      \/ (selectedIdx s' = Some 0%Z
          /\ (exists top rest, candidates s' = top :: rest /\ 0.7 <= scoreLocal top)
          /\ exists o, org s' = Some o))
  /\ (error s' = None -> exists o, org s' = Some o)
  /\ (org s' = None -> candidates s' = [] /\ exists msg, error s' = Some msg)
  /\ (error s' <> None -> candidates s' = [] /\ selectedIdx s' = None).
Proof.
  cbv zeta. rewrite loadNext_unfold.
  destruct (fetchRandomOrg env (cleared s)) as [[[candidate |] | e] s1] eqn:Hprobe;
    destruct (fetchRandomOrg_view env _ _ _ Hprobe)
      as ((A & B & C & D & E & F & G & H & I) & Helig);
    cbn in C, D, E, F, G.
  - destruct (searchRor env candidate (withOrg (Some candidate) s1)) as [[rorList | e] s2]
      eqn:Hsearch;
      pose proof (searchRor_view env _ _ _ _ Hsearch) as Hview.
    + destruct Hview as (Hlen & _ & _ & Horg & _ & Herror & _ & _ & _ & Hsel).
      cbn in Horg, Herror, Hsel |- *. rewrite F in Herror. rewrite E in Hsel.
      split; [reflexivity | split; [reflexivity |]].
      split; [intros o Ho; rewrite Horg in Ho; inversion Ho; subst; apply Helig; reflexivity |].
      split; [exact Hlen |].
      split.
      { destruct Hsel as [[Hsel Htop] | [Hsel _]].
        - right. split; [exact Hsel | split; [exact Htop | exists candidate; exact Horg]].
        - left. exact Hsel. }
      split; [intros _; exists candidate; exact Horg |].
      split; [intros Hnone; rewrite Horg in Hnone; discriminate |].
      intros Herr. exfalso. apply Herr. exact Herror.
    + destruct Hview as (_ & _ & Horg & Hcand & Hsel & _).
      cbn in Horg, Hcand, Hsel |- *. rewrite D in Hcand. rewrite E in Hsel.
      split; [reflexivity | split; [reflexivity |]].
      split; [intros o Ho; rewrite Horg in Ho; inversion Ho; subst; apply Helig; reflexivity |].
      split; [rewrite Hcand; simpl; lia |].
      split; [left; exact Hsel |].
      split; [intros Hnone; discriminate |].
      split; [intros Hnone; rewrite Horg in Hnone; discriminate |].
      intros _. split; assumption.
  - cbn. split; [reflexivity | split; [reflexivity |]].
    split; [intros o Ho; rewrite C in Ho; discriminate |].
    split; [rewrite D; simpl; lia |].
    split; [left; exact E |].
    split; [intros Hnone; discriminate |].
    split; [intros _; split; [exact D | eexists; reflexivity] |].
    intros _. split; assumption.
  - cbn. split; [reflexivity | split; [reflexivity |]].
    split; [intros o Ho; rewrite C in Ho; discriminate |].
    split; [rewrite D; simpl; lia |].
    split; [left; exact E |].
    split; [intros Hnone; discriminate |].
    split; [intros _; split; [exact D | eexists; reflexivity] |].
    intros _. split; assumption.
Qed.

(** X7.  After [loadNext], whatever the network answered: the call returned
    normally and [loading] is off; a record on display is eligible; at
    most 10 candidates are on display; a preselection is the first
    candidate, which then exists and scores at least 0.7; without an
    error a record is on display, and with an error no candidate is on
    display and nothing is selected. *)
Theorem loadNext_outcome (env : Env) (s : AppState) :
  let s' := snd (loadNext env s) in
  fst (loadNext env s) = Ok tt
  /\ loading s' = false
  /\ (forall o, org s' = Some o -> recognisedEligible o)
  /\ (List.length (candidates s') <= 10)%nat
  /\ (selectedIdx s' = None
      \/ (selectedIdx s' = Some 0%Z
          /\ (exists top rest, candidates s' = top :: rest /\ 0.7 <= scoreLocal top)
          /\ exists o, org s' = Some o))
  /\ (error s' = None -> exists o, org s' = Some o)
  /\ (org s' = None -> candidates s' = [] /\ exists msg, error s' = Some msg)
  /\ (error s' <> None -> candidates s' = [] /\ selectedIdx s' = None).
Proof. exact (loadNext_view env s). Qed.

Lemma loadNext_outcome_witness :
  org (snd (loadNext (Examples.catalogWith None) Examples.idle))
  = Some (Examples.record "approved" None)
  /\ recognisedEligible (Examples.record "approved" None).
Proof.
  assert (Horg : org (snd (loadNext (Examples.catalogWith None) Examples.idle))
                 = Some (Examples.record "approved" None)) by (vm_compute; reflexivity).
  split; [exact Horg |].
  destruct (loadNext_outcome (Examples.catalogWith None) Examples.idle)
    as (_ & _ & Helig & _).
  apply Helig. exact Horg.
Defined.

Lemma getCount_failed (env : Env) (s : AppState) (res : Response PageResponse) :
  catalogPage env (requests s) countRequest = Resolved res ->
  ok res = false ->
  getCount env s
  = (Throw (Error ("Failed to fetch count: " ++ showZ (status res) ++ " " ++ statusText res)),
     withRequest countRequest s).
Proof.
  intros Hres Hok. unfold getCount. cbv zeta. rewrite limitedFetch_get. fold countRequest.
  rewrite (bind_ok _ _ _ _ _ (fetch_resolved _ _ _ _ _ Hres)). rewrite Hok. reflexivity.
Qed.

Lemma getCount_rejected (env : Env) (s : AppState) (e : Exn) :
  catalogPage env (requests s) countRequest = Rejected e ->
  getCount env s = (Throw e, withRequest countRequest s).
Proof.
  intros Hres. unfold getCount. cbv zeta. rewrite limitedFetch_get. fold countRequest.
  unfold bind, fetch. rewrite Hres. reflexivity.
Qed.

(** X8.  How [loadNext] reports that no record could be loaded.  A count
    request answered with a non-success status puts "Failed to fetch
    count: <status> <statusText>" in [error]; a rejected one puts the
    text of the rejection there; an empty catalog puts the message "No
    eligible external organizations found right now." there.  In each
    case only the count request was issued and no record is on display. *)
Theorem loadNext_reports_count (env : Env) (s : AppState) :
  (forall res,
      catalogPage env (requests s) countRequest = Resolved res ->
      ok res = false ->
      snd (loadNext env s)
      = stopped ("Failed to fetch count: " ++ showZ (status res) ++ " " ++ statusText res)
                (withRequest countRequest (cleared s)))
  /\ (forall e,
         catalogPage env (requests s) countRequest = Rejected e ->
         snd (loadNext env s) = stopped (errorText e) (withRequest countRequest (cleared s)))
  /\ (forall res page,
         catalogPage env (requests s) countRequest = Resolved res ->
         ok res = true ->
         json res = Ok page ->
         count page = 0%Z ->
         snd (loadNext env s)
         = stopped "No eligible external organizations found right now."
                   (withRequest countRequest (cleared s))).
Proof.
  split; [| split].
  - intros res Hres Hok. rewrite loadNext_unfold. unfold fetchRandomOrg.
    rewrite (bind_throw _ _ _ _ _ (getCount_failed env (cleared s) res Hres Hok)).
    reflexivity.
  - intros e Hres. rewrite loadNext_unfold. unfold fetchRandomOrg.
    rewrite (bind_throw _ _ _ _ _ (getCount_rejected env (cleared s) e Hres)).
    reflexivity.
  - intros res page Hres Hok Hjson Hzero. rewrite loadNext_unfold. unfold fetchRandomOrg.
    rewrite (bind_ok _ _ _ _ _ (getCount_ok env (cleared s) res page Hres Hok Hjson)).
    rewrite Hzero. reflexivity.
Qed.

Lemma loadNext_reports_count_witness :
  error (snd (loadNext (Examples.scripted
                          (Resolved (mkResponse 503 "Service Unavailable" Examples.unparsable))
                          Examples.offline Examples.offline Examples.offline Examples.offline)
                       Examples.idle))
  = Some "Failed to fetch count: 503 Service Unavailable".
Proof.
  rewrite (proj1 (loadNext_reports_count
                    (Examples.scripted
                       (Resolved (mkResponse 503 "Service Unavailable" Examples.unparsable))
                       Examples.offline Examples.offline Examples.offline Examples.offline)
                    Examples.idle)
                 (mkResponse 503 "Service Unavailable" Examples.unparsable) eq_refl eq_refl).
  reflexivity.
Defined.

(** ** Outcomes of [doLink] *)

(** [doLink] past its guard, case by case. *)
Lemma doLink_unfold (env : Env) (s : AppState) (o : ExtOrgItem) (i : Z) :
  selected s o i ->
  doLink env s =
  match fetchOrg env (uuid o) (started s) with
  | (Throw e, s1) => (Ok tt, failed e s1)
  | (Ok latest, s1) =>
      if hasRorIdentifier (identifiers latest)
      then (Ok tt,
            withLoading false
              (snd (loadNext env (withConfirmOpen false (withToast (Some alreadyLinked) s1)))))
      else
        match nth_error (candidates s) (Z.to_nat i) with
        | None =>
            (Ok tt, failed (TypeError "Cannot read properties of undefined (reading 'id')") s1)
        | Some chosen =>
            match putOrg env (uuid latest) (version latest)
                         (identifierList latest
                          ++ [newRorIdentifier (rorId (organization chosen))]) s1 with
            | (Throw e, s2) => (Ok tt, failed e s2)
            | (Ok _, s2) =>
                (Ok tt,
                 withLoading false
                   (snd (loadNext env (linkedView (now env (requests s2)) latest chosen s2))))
            end
        end
  end.
Proof.
  intros (Horg & Hsel & Hi). unfold doLink. rewrite Horg, Hsel.
  replace (i <? 0)%Z with false by (symmetry; apply Z.ltb_ge; exact Hi).
  unfold tryFinally, tryCatch, setLoading, setError.
  rewrite !bind_modify. fold (started s).
  destruct (fetchOrg env (uuid o) (started s)) as [[latest | e] s1] eqn:Hrefresh.
  2: { rewrite (bind_throw _ _ _ _ _ Hrefresh). reflexivity. }
  rewrite (bind_ok _ _ _ _ _ Hrefresh).
  destruct (hasRorIdentifier (identifiers latest)).
  { unfold setToast, setConfirmOpen. rewrite !bind_modify. fold alreadyLinked.
    match goal with
    | |- context [loadNext env ?st] =>
        pose proof (loadNext_returns env st) as Hret;
        destruct (loadNext env st) as [[[] | e] s2]; simpl in Hret
    end; [reflexivity | discriminate Hret]. }
  destruct (nth_error (candidates s) (Z.to_nat i)) as [chosen |]; [| reflexivity].
  fold (identifierList latest). fold (newRorIdentifier (rorId (organization chosen))).
  destruct (putOrg env (uuid latest) (version latest)
                   (identifierList latest ++ [newRorIdentifier (rorId (organization chosen))])
                   s1) as [[parsed | e] s2] eqn:Hput.
  2: { rewrite (bind_throw _ _ _ _ _ Hput). reflexivity. }
  rewrite (bind_ok _ _ _ _ _ Hput).
  unfold setPoints, setHistory, setToast, setConfirmOpen.
  rewrite bind_modify, bind_dateNow, !bind_modify.
  change (loadNext env _) with (loadNext env (linkedView (now env (requests s2)) latest chosen s2)).
  pose proof (loadNext_returns env (linkedView (now env (requests s2)) latest chosen s2))
    as Hret.
  destruct (loadNext env (linkedView (now env (requests s2)) latest chosen s2))
    as [[[] | e] s3]; simpl in Hret; [reflexivity | discriminate Hret].
Qed.

Lemma guard_cases (s : AppState) :
  (exists o i, selected s o i)
  \/ (org s = None \/ selectedIdx s = None \/ exists i, selectedIdx s = Some i /\ (i < 0)%Z).
Proof.
  unfold selected. destruct (org s) as [o |]; [| right; left; reflexivity].
  destruct (selectedIdx s) as [i |]; [| right; right; left; reflexivity].
  destruct (Z.lt_ge_cases i 0) as [Hneg | Hpos].
  - right. right. right. exists i. split; [reflexivity | exact Hneg].
  - left. exists o, i. repeat split. exact Hpos.
Qed.

Lemma doLink_blocked (env : Env) (s : AppState) :
  (org s = None \/ selectedIdx s = None \/ exists i, selectedIdx s = Some i /\ (i < 0)%Z) ->
  doLink env s = (Ok tt, s) /\ openConfirm s = (Ok tt, s).
Proof.
  unfold doLink, openConfirm. intros [Horg | [Hsel | (i & Hsel & Hneg)]].
  - rewrite Horg. split; reflexivity.
  - rewrite Hsel. destruct (org s); split; reflexivity.
  - rewrite Hsel. apply Z.ltb_lt in Hneg. rewrite Hneg. destruct (org s); split; reflexivity.
Qed.

(** X9.  [doLink] never throws: every failure of the refresh or of the write
    is caught.  Without a record, without a selection or with a negative
    index it does nothing at all, and neither does [openConfirm];
    otherwise it ends with [loading] off. *)
Theorem doLink_returns (env : Env) (s : AppState) :
  fst (doLink env s) = Ok tt
  /\ (org s = None \/ selectedIdx s = None
      \/ (exists i, selectedIdx s = Some i /\ (i < 0)%Z) ->
      doLink env s = (Ok tt, s) /\ openConfirm s = (Ok tt, s))
  /\ (forall o i, selected s o i ->
                  loading (snd (doLink env s)) = false
                  /\ openConfirm s = (Ok tt, withConfirmOpen true s)).
Proof.
  assert (Hrun : forall o i, selected s o i ->
                   fst (doLink env s) = Ok tt /\ loading (snd (doLink env s)) = false).
  { intros o i Hsel. rewrite (doLink_unfold env s o i Hsel).
    destruct (fetchOrg env (uuid o) (started s)) as [[latest | e] s1];
      [| split; reflexivity].
    destruct (hasRorIdentifier (identifiers latest)); [split; reflexivity |].
    destruct (nth_error (candidates s) (Z.to_nat i)) as [chosen |]; [| split; reflexivity].
    destruct (putOrg env _ _ _ s1) as [[parsed | e] s2]; split; reflexivity. }
  split; [| split].
  - destruct (guard_cases s) as [(o & i & Hsel) | Hblocked].
    + apply (Hrun o i Hsel).
    + rewrite (proj1 (doLink_blocked env s Hblocked)). reflexivity.
  - apply doLink_blocked.
  - intros o i Hsel. split; [apply (Hrun o i Hsel) |].
    destruct Hsel as (Horg & Hsel & Hi). unfold openConfirm. rewrite Horg, Hsel.
    replace (i <? 0)%Z with false by (symmetry; apply Z.ltb_ge; exact Hi). reflexivity.
Qed.

Lemma doLink_returns_witness :
  doLink (Examples.catalogWith None) Examples.idle = (Ok tt, Examples.idle)
  /\ loading (snd (doLink (Examples.catalogWith None)
                          (Examples.confirming (Examples.record "approved" None)))) = false.
Proof.
  destruct (doLink_returns (Examples.catalogWith None) Examples.idle) as (_ & Hblocked & _).
  destruct (doLink_returns (Examples.catalogWith None)
                           (Examples.confirming (Examples.record "approved" None)))
    as (_ & _ & Hselected).
  split.
  - apply Hblocked. left. reflexivity.
  - apply (Hselected (Examples.record "approved" None) 0%Z).
    unfold selected. repeat split. lia.
Defined.

Lemma fetchOrg_failed (env : Env) (s : AppState) (o : ExtOrgItem) (e : Exn) :
  refreshFails env s o e ->
  fetchOrg env (uuid o) (started s) = (Throw e, withRequest (itemRequest (uuid o)) (started s)).
Proof.
  unfold refreshFails. intros H. unfold fetchOrg. cbv zeta. rewrite limitedFetch_get.
  fold (itemRequest (uuid o)). unfold bind, fetch.
  change (requests (started s)) with (requests s).
  destruct (catalogItem env (requests s) (itemRequest (uuid o))) as [rejection | res].
  - subst e. reflexivity.
  - destruct (ok res); cbn [negb].
    + rewrite H. reflexivity.
    + subst e. reflexivity.
Qed.

Lemma fetchOrg_refreshes (env : Env) (s : AppState) (o latest : ExtOrgItem) :
  refreshes env s o latest ->
  fetchOrg env (uuid o) (started s) = (Ok latest, withRequest (itemRequest (uuid o)) (started s)).
Proof.
  intros (res & Hres & Hok & Hjson). apply (fetchOrg_ok env (uuid o) (started s) res latest);
    assumption.
Qed.

Lemma failed_reports (e : Exn) (s s1 : AppState) :
  sameView (started s) s1 -> reportsFailure e s (failed e s1).
Proof.
  intros (A & B & C & D & E & F & G & H & I). unfold reportsFailure. cbn.
  cbn in A, B, C, D, E, I.
  repeat split; assumption.
Qed.

(** X10.  When [doLink] cannot get to the write, nothing is written.  If the
    refresh fails, or if the refreshed record is not linked yet but the
    selected index points at no candidate, then the refresh is the only
    request issued (no [PUT], no next record), the error text is in
    [error] and in a failure toast, [loading] is off, and points,
    history, record, candidates, selection and the open modal are as
    they were. *)
Theorem doLink_stops_before_write (env : Env) (s : AppState) (o : ExtOrgItem) (i : Z) :
  selected s o i ->
  let s' := snd (doLink env s) in
  (forall e,
      refreshFails env s o e ->
      reportsFailure e s s'
      /\ requests s' = (requests s ++ [itemRequest (uuid o)])%list)
  /\ (forall latest,
         refreshes env s o latest ->
         hasRorIdentifier (identifiers latest) = false ->
         nth_error (candidates s) (Z.to_nat i) = None ->
         (exists e, exnName e = "TypeError" /\ reportsFailure e s s')
         /\ requests s' = (requests s ++ [itemRequest (uuid o)])%list).
Proof.
  intros Hsel s'. subst s'. rewrite (doLink_unfold env s o i Hsel). split.
  - intros e Hfails. rewrite (fetchOrg_failed env s o e Hfails). cbn [snd].
    split; [apply failed_reports, sameView_request | reflexivity].
  - intros latest Hlatest Hfresh Hnone.
    rewrite (fetchOrg_refreshes env s o latest Hlatest), Hfresh, Hnone. cbn [snd].
    split; [| reflexivity].
    eexists. split; [| apply failed_reports, sameView_request]. reflexivity.
Qed.

Lemma doLink_stops_before_write_witness :
  error (snd (doLink (Examples.scripted Examples.offline
                        (Examples.answer 404 Examples.unparsable)
                        Examples.offline Examples.offline Examples.offline)
                     (Examples.confirming (Examples.record "approved" None))))
  = Some "Failed to fetch organization: 404".
Proof.
  assert (Hsel : selected (Examples.confirming (Examples.record "approved" None))
                          (Examples.record "approved" None) 0%Z)
    by (unfold selected; repeat split; lia).
  destruct (doLink_stops_before_write
              (Examples.scripted Examples.offline (Examples.answer 404 Examples.unparsable)
                 Examples.offline Examples.offline Examples.offline)
              (Examples.confirming (Examples.record "approved" None))
              (Examples.record "approved" None) 0%Z Hsel) as [Hrefresh _].
  destruct (Hrefresh (Error "Failed to fetch organization: 404") eq_refl) as [(Herror & _) _].
  exact Herror.
Defined.

Lemma putOrg_failed (env : Env) (s : AppState) (o : ExtOrgItem) (chosen : Candidate)
    (latest : ExtOrgItem) (e : Exn) :
  putFails env s o chosen latest e ->
  putOrg env (uuid latest) (version latest)
         (identifierList latest ++ [newRorIdentifier (rorId (organization chosen))])
         (withRequest (itemRequest (uuid o)) (started s))
  = (Throw e,
     withRequest (linkRequest chosen latest) (withRequest (itemRequest (uuid o)) (started s))).
Proof.
  unfold putFails. intros H. rewrite putOrg_unfold. fold (linkRequest chosen latest).
  change (requests (withRequest (itemRequest (uuid o)) (started s)))
    with (requests s ++ [itemRequest (uuid o)])%list.
  destruct (catalogPut env (requests s ++ [itemRequest (uuid o)]) (linkRequest chosen latest))
    as [rejection | res].
  - subst e. reflexivity.
  - destruct H as [Hok He]. rewrite Hok. subst e. reflexivity.
Qed.

(** X11.  When the [PUT] of [doLink] fails, the workflow does not advance: the
    refresh and the [PUT] are the only requests (no next record is
    loaded), no points are awarded and no history entry is added, the
    error text is in [error] and in a failure toast, and record,
    candidates, selection and the open modal are as they were, ready for
    a retry. *)
Theorem doLink_failed_write (env : Env) (s : AppState) (o : ExtOrgItem) (i : Z)
    (chosen : Candidate) (latest : ExtOrgItem) (e : Exn) :
  selected s o i ->
  nth_error (candidates s) (Z.to_nat i) = Some chosen ->
  refreshes env s o latest ->
  hasRorIdentifier (identifiers latest) = false ->
  putFails env s o chosen latest e ->
  let s' := snd (doLink env s) in
  reportsFailure e s s'
  /\ requests s' = (requests s ++ [itemRequest (uuid o); linkRequest chosen latest])%list.
Proof.
  intros Hsel Hchosen Hlatest Hfresh Hput s'. subst s'.
  rewrite (doLink_unfold env s o i Hsel).
  rewrite (fetchOrg_refreshes env s o latest Hlatest), Hfresh, Hchosen.
  rewrite (putOrg_failed env s o chosen latest e Hput). cbn [snd].
  split.
  - apply failed_reports.
    eapply sameView_trans; [apply sameView_request | apply sameView_request].
  - cbn. rewrite <- app_assoc. reflexivity.
Qed.

Lemma doLink_failed_write_witness :
  reportsFailure (Error "PUT failed: 409")
    (Examples.confirming (Examples.record "approved" None))
    (snd (doLink (Examples.scripted Examples.offline
                    (Examples.answer 200 (Ok (Examples.record "approved" None)))
                    (Examples.answer 409 (Ok JNull)) Examples.offline Examples.offline)
                 (Examples.confirming (Examples.record "approved" None)))).
Proof.
  apply (doLink_failed_write
           (Examples.scripted Examples.offline
              (Examples.answer 200 (Ok (Examples.record "approved" None)))
              (Examples.answer 409 (Ok JNull)) Examples.offline Examples.offline)
           (Examples.confirming (Examples.record "approved" None))
           (Examples.record "approved" None) 0%Z (Examples.candidate 0.95 true)
           (Examples.record "approved" None) (Error "PUT failed: 409")).
  - unfold selected. repeat split. lia.
  - reflexivity.
  - eexists. repeat split; reflexivity.
  - reflexivity.
  - unfold putFails. cbn. split; reflexivity.
Defined.

Lemma loadNext_shows_eligible (env : Env) (s : AppState) (shown : ExtOrgItem) :
  org (snd (loadNext env s)) = Some shown -> recognisedEligible shown.
Proof.
  rewrite loadNext_unfold.
  destruct (fetchRandomOrg env (cleared s)) as [[[candidate |] | e] s1] eqn:Hprobe;
    destruct (fetchRandomOrg_view env _ _ _ Hprobe)
      as ((_ & _ & Horg1 & _) & Helig); cbn in Horg1.
  - assert (Hshown : forall s2, sameView (withOrg (Some candidate) s1) s2 \/
                                org s2 = Some candidate ->
                                org s2 = Some shown -> recognisedEligible shown).
    { intros s2 [(_ & _ & Horg & _) | Horg] Hs; cbn in Horg; rewrite Horg in Hs;
        inversion Hs; subst; apply Helig; reflexivity. }
    destruct (searchRor env candidate (withOrg (Some candidate) s1)) as [[rorList | e] s2]
      eqn:Hsearch;
      pose proof (searchRor_view env _ _ _ _ Hsearch) as Hview; cbn [snd].
    + destruct Hview as (_ & _ & _ & Horg & _). apply (Hshown s2). right. exact Horg.
    + apply (Hshown s2). left. exact Hview.
  - cbn. rewrite Horg1. discriminate.
  - cbn. rewrite Horg1. discriminate.
Qed.

(** X12.  The successful write, composed with what follows it: [doLink] sends
    the refresh and then one [PUT] to the refreshed record, with the
    refreshed version and the refreshed identifiers followed by the new
    one; it then reports "Linked ROR to “name”." (the name of the
    refreshed record, or "Org"), runs [loadNext] and ends with [loading]
    off; the toast survives [loadNext], and the record then on display,
    if any, is an eligible one. *)
Theorem doLink_links (env : Env) (s : AppState) (o : ExtOrgItem) (i : Z) (chosen : Candidate)
    (latest : ExtOrgItem) :
  linkSucceeds env s o i chosen latest ->
  let sent :=
    withRequest (linkRequest chosen latest) (withRequest (itemRequest (uuid o)) (started s)) in
  let s' := snd (doLink env s) in
  doLink env s
  = (Ok tt,
     withLoading false
       (snd (loadNext env
               (linkedView (linkTimestamp env s o chosen latest) latest chosen sent))))
  /\ url (linkRequest chosen latest)
     = buildUrl PURE_BASE_URL ("/external-organizations/" ++ uuid latest)
  /\ body (linkRequest chosen latest)
     = Some (mkPutPayload (version latest)
               (identifierList latest ++ [newRorIdentifier (rorId (organization chosen))])%list)
  /\ toast s'
     = Some (mkToast success
               ("Linked ROR to “"
                ++ orElse (pickedValue (pickPreferredLocale (name latest))) "Org" ++ "”."))
  /\ confirmOpen s' = false
  /\ loading s' = false
  /\ (forall shown, org s' = Some shown -> recognisedEligible shown).
Proof.
  intros (Horg & Hsel & Hi & Hchosen & Hrefresh & Hfresh & written & Hput & Hwritten).
  cbv zeta.
  assert (Hselected : selected s o i) by (repeat split; assumption).
  assert (Hrun : doLink env s
                 = (Ok tt,
                    withLoading false
                      (snd (loadNext env
                              (linkedView (linkTimestamp env s o chosen latest) latest chosen
                                 (withRequest (linkRequest chosen latest)
                                    (withRequest (itemRequest (uuid o)) (started s)))))))).
  { rewrite (doLink_unfold env s o i Hselected).
    rewrite (fetchOrg_refreshes env s o latest Hrefresh), Hfresh, Hchosen.
    rewrite putOrg_unfold. fold (linkRequest chosen latest).
    change (requests (withRequest (itemRequest (uuid o)) (started s)))
      with (requests s ++ [itemRequest (uuid o)])%list.
    rewrite Hput, Hwritten. unfold linkTimestamp.
    change (requests (withRequest (linkRequest chosen latest)
                        (withRequest (itemRequest (uuid o)) (started s))))
      with ((requests s ++ [itemRequest (uuid o)]) ++ [linkRequest chosen latest])%list.
    rewrite <- app_assoc. reflexivity. }
  rewrite Hrun. cbn [snd].
  split; [reflexivity | split; [reflexivity | split; [reflexivity |]]].
  match goal with
  | |- context [loadNext env ?st] =>
      pose proof (loadNext_keepsProgress env st _ _ (surjective_pairing _))
        as (_ & _ & Htoast & Hconfirm & _);
      pose proof (loadNext_shows_eligible env st) as Hshown
  end.
  split; [exact Htoast | split; [exact Hconfirm | split; [reflexivity | exact Hshown]]].
Qed.

Lemma doLink_links_witness :
  toast (snd (doLink (Examples.catalogWith None)
                     (Examples.confirming (Examples.record "approved" None))))
  = Some (mkToast success "Linked ROR to “Aalborg University”.").
Proof.
  destruct (doLink_links (Examples.catalogWith None)
              (Examples.confirming (Examples.record "approved" None))
              (Examples.record "approved" None) 0%Z (Examples.candidate 0.95 true)
              (Examples.record "approved" None)) as (_ & _ & _ & Htoast & _).
  - unfold linkSucceeds. repeat split; try reflexivity; try lia.
    + eexists. repeat split; reflexivity.
    + eexists. split; reflexivity.
  - exact Htoast.
Defined.

(** ** What is written is recognised *)

(** X13.  The writer and the reader agree: a record whose identifiers are a
    list written by [doLink] (any list followed by the new identifier)
    is found linked by [hasRorIdentifier], is not eligible whatever its
    workflow step, and makes a later [doLink] on it stop at "already
    linked" without a [PUT]. *)
Theorem written_record_is_linked (item : ExtOrgItem) (refreshed : list Identifier)
    (canonicalId : option string) :
  identifiers item = Some (refreshed ++ [newRorIdentifier canonicalId])%list ->
  hasRorIdentifier (identifiers item) = true
  /\ ~ recognisedEligible item
  /\ forall env s o i,
      selected s o i ->
      refreshes env s o item ->
      toast (snd (doLink env s)) = Some alreadyLinked
      /\ requestsGrowBy isGet s (snd (doLink env s)).
Proof.
  intros Hids.
  assert (Hlinked : hasRorIdentifier (identifiers item) = true).
  { rewrite Hids. unfold hasRorIdentifier. rewrite existsb_app. apply orb_true_iff.
    right. reflexivity. }
  split; [exact Hlinked | split].
  - intros Helig. apply eligible_iff in Helig. rewrite Hlinked in Helig.
    rewrite andb_false_r in Helig. discriminate Helig.
  - intros env s o i Hsel Hrefresh.
    rewrite (doLink_unfold env s o i Hsel).
    rewrite (fetchOrg_refreshes env s o item Hrefresh), Hlinked. cbn [snd].
    match goal with
    | |- context [loadNext env ?st] =>
        pose proof (loadNext_keepsProgress env st _ _ (surjective_pairing _))
          as (_ & _ & Htoast & _ & Hgets)
    end.
    split; [exact Htoast |].
    eapply requestsGrowBy_trans; [| eapply requestsGrowBy_trans; [exact Hgets |]].
    + apply (requestsGrowBy_trans _ _ (started s));
        [apply requestsGrowBy_same; reflexivity |].
      apply (requestsGrowBy_trans _ _ (withRequest (itemRequest (uuid o)) (started s)));
        [apply requestsGrowBy_request; reflexivity | apply requestsGrowBy_same; reflexivity].
    + apply requestsGrowBy_same. reflexivity.
Qed.

Lemma written_record_is_linked_witness :
  hasRorIdentifier
    (identifiers (Examples.record "approved"
                    (Some ([] ++ [newRorIdentifier (Some "https://ror.org/04m5j1k67")])%list)))
  = true.
Proof.
  apply (written_record_is_linked
           (Examples.record "approved"
              (Some ([] ++ [newRorIdentifier (Some "https://ror.org/04m5j1k67")])%list))
           [] (Some "https://ror.org/04m5j1k67")).
  reflexivity.
Defined.

(** ** Where requests go *)

Lemma prefix_append (a b : string) : prefix a (a ++ b) = true.
Proof.
  induction a as [| c rest IH]; [destruct b; reflexivity |].
  cbn [append prefix]. destruct (Ascii.ascii_dec c c) as [_ | Hne]; [exact IH |].
  exfalso. apply Hne. reflexivity.
Qed.

Lemma append_assoc (a b c : string) : (a ++ b) ++ c = a ++ b ++ c.
Proof. induction a as [| x rest IH]; [reflexivity |]. cbn [append]. rewrite IH. reflexivity. Qed.

Lemma buildUrl_toCatalog (path : string) (headers : list (string * string))
    (method : Method) (body : option PutPayload) :
  toCatalog (mkRequest method (buildUrl PURE_BASE_URL path) headers body).
Proof.
  unfold toCatalog, buildUrl. cbv zeta. cbn [url].
  rewrite <- append_assoc. apply prefix_append.
Qed.

Lemma issued_same (s s' : AppState) : requests s' = requests s -> requestsGrowBy issued s s'.
Proof. apply requestsGrowBy_same. Qed.

Ltac issued_bind :=
  apply (respects_bind (requestsGrowBy issued) (requestsGrowBy_trans issued)).

Ltac issued_step :=
  first
    [ apply (respects_ret (requestsGrowBy issued) (requestsGrowBy_refl issued))
    | apply (respects_throw (requestsGrowBy issued) (requestsGrowBy_refl issued))
    | apply (respects_await (requestsGrowBy issued) (requestsGrowBy_refl issued))
    | apply (respects_mathRandom (requestsGrowBy issued) (requestsGrowBy_refl issued))
    | apply (respects_dateNow (requestsGrowBy issued) (requestsGrowBy_refl issued))
    | apply respects_modify; intros; apply issued_same; reflexivity
    | apply respects_fetch; intros; apply requestsGrowBy_request; constructor
    | issued_bind; [| intros ]
    | apply (respects_tryCatch (requestsGrowBy issued) (requestsGrowBy_trans issued));
      [| intros ]
    | apply (respects_tryFinally (requestsGrowBy issued) (requestsGrowBy_trans issued));
      [| intros; apply issued_same; reflexivity ]
    | apply (respects_mapM (requestsGrowBy issued) (requestsGrowBy_refl issued)
                           (requestsGrowBy_trans issued));
      intros
    | match goal with
      | |- respects _ (if ?b then _ else _) => destruct b
      | |- respects _ (match ?x with _ => _ end) => destruct x
      end ].

Lemma issued_getCount (env : Env) : respects (requestsGrowBy issued) (getCount env).
Proof. unfold getCount, limitedFetch. cbv zeta. repeat issued_step. Qed.

Lemma issued_fetchRandomOrg (env : Env) :
  respects (requestsGrowBy issued) (fetchRandomOrg env).
Proof.
  unfold fetchRandomOrg, limitedFetch. cbv zeta.
  issued_bind; [apply issued_getCount | intros].
  repeat issued_step.
Qed.

Lemma issued_fetchOrg (env : Env) (uuid : string) :
  respects (requestsGrowBy issued) (fetchOrg env uuid).
Proof. unfold fetchOrg, limitedFetch. cbv zeta. repeat issued_step. Qed.

Lemma issued_putOrg (env : Env) (u v : string) (ids : list Identifier) :
  respects (requestsGrowBy issued) (putOrg env u v ids).
Proof.
  unfold putOrg, limitedFetch. cbv zeta. issued_bind.
  - apply respects_fetch. intros s. apply requestsGrowBy_request. apply (issuedPut u v ids).
  - intros res. repeat issued_step.
Qed.

Lemma issued_fetchLocations (env : Env) (item : Candidate) :
  respects (requestsGrowBy issued) (fetchLocations env item).
Proof. unfold fetchLocations. repeat issued_step. Qed.

Lemma issued_searchRor (env : Env) (o : ExtOrgItem) :
  respects (requestsGrowBy issued) (searchRor env o).
Proof.
  unfold searchRor. cbv zeta.
  destruct (negb _); [issued_step |].
  issued_bind; [issued_step | intros res].
  destruct (negb _); [issued_step |].
  issued_bind; [issued_step | intros data].
  issued_bind; [issued_step; apply issued_fetchLocations | intros l].
  unfold setSelectedIdx. repeat issued_step.
Qed.

Lemma issued_loadNext (env : Env) : respects (requestsGrowBy issued) (loadNext env).
Proof.
  unfold loadNext, setError, setLoading, setCandidates, setSelectedIdx, setOrg.
  do 5 (issued_bind; [issued_step | intros]).
  apply (respects_tryFinally (requestsGrowBy issued) (requestsGrowBy_trans issued));
    [| intros; apply issued_same; reflexivity].
  apply (respects_tryCatch (requestsGrowBy issued) (requestsGrowBy_trans issued));
    [| intros; issued_step].
  issued_bind; [apply issued_fetchRandomOrg | intros [candidate |]].
  - issued_bind; [issued_step | intros].
    issued_bind; [apply issued_searchRor | intros].
    issued_step.
  - issued_step.
Qed.

Lemma issued_doLink (env : Env) : respects (requestsGrowBy issued) (doLink env).
Proof.
  intros s r s' H. unfold doLink in H.
  destruct (org s) as [o |]; [| inversion H; subst; apply requestsGrowBy_refl].
  destruct (selectedIdx s) as [i |]; [| inversion H; subst; apply requestsGrowBy_refl].
  destruct (i <? 0)%Z; [inversion H; subst; apply requestsGrowBy_refl |].
  match type of H with
  | ?m s = _ => assert (Hm : respects (requestsGrowBy issued) m); [| exact (Hm _ _ _ H)]
  end.
  clear H.
  unfold setLoading, setError, setToast, setConfirmOpen, setPoints, setHistory.
  apply (respects_tryFinally (requestsGrowBy issued) (requestsGrowBy_trans issued));
    [| intros; apply issued_same; reflexivity].
  apply (respects_tryCatch (requestsGrowBy issued) (requestsGrowBy_trans issued)).
  - do 2 (issued_bind; [issued_step | intros]).
    issued_bind; [apply issued_fetchOrg | intros latest].
    destruct (hasRorIdentifier (identifiers latest)).
    + do 2 (issued_bind; [issued_step | intros]).
      apply issued_loadNext.
    + destruct (nth_error (candidates s) (Z.to_nat i)) as [chosen |]; [| issued_step].
      issued_bind; [apply issued_putOrg | intros].
      do 5 (issued_bind; [issued_step | intros]).
      apply issued_loadNext.
  - intros e. do 2 issued_step.
Qed.

(** X14.  Every request of [loadNext] and of [doLink] is one of four: a [GET]
    or the [PUT] under [PURE_BASE_URL], or the search or a detail lookup
    at the registry.  Each carries the [Accept] header.  The requests
    under [PURE_BASE_URL] carry the API key; the requests to
    "https://api.ror.org/" are [GET]s whose only header is [Accept], so
    the API key is never sent to the registry.  The [PUT] also carries
    the JSON content type. *)
Theorem requests_addressed (env : Env) (s : AppState) :
  requestsGrowBy issued s (snd (loadNext env s))
  /\ requestsGrowBy issued s (snd (doLink env s))
  /\ forall req,
      issued req ->
      In ("Accept", "application/json") (headers req)
      /\ ((toCatalog req /\ carriesKey req)
          \/ (toRegistry req /\ method req = GET /\ ~ carriesKey req
              /\ headers req = [("Accept", "application/json")]))
      /\ (method req = PUT -> In ("Content-Type", "application/json") (headers req)).
Proof.
  split; [apply (issued_loadNext env s _ _ (surjective_pairing _)) |].
  split; [apply (issued_doLink env s _ _ (surjective_pairing _)) |].
  intros req [path | u v ids | nameOnly | canonicalId].
  - split; [left; reflexivity |]. split; [| discriminate].
    left. split; [apply buildUrl_toCatalog | right; left; reflexivity].
  - split; [left; reflexivity |]. split.
    + left. split; [apply buildUrl_toCatalog | right; left; reflexivity].
    + intros _. right. right. left. reflexivity.
  - split; [left; reflexivity |]. split; [| discriminate].
    right. split; [reflexivity | split; [reflexivity | split; [| reflexivity]]].
    intros [Hkey | []]. inversion Hkey.
  - split; [left; reflexivity |]. split; [| discriminate].
    right. split; [reflexivity | split; [reflexivity | split; [| reflexivity]]].
    intros [Hkey | []]. inversion Hkey.
Qed.

(** ** Levels *)

Lemma reachedStop_snoc (stops : list LevelStop) (s : LevelStop) (points : number) :
  reachedStop (stops ++ [s]) points
  = if numberGeq points (Finite (inject_Z (threshold s))) then Some s
    else reachedStop stops points.
Proof. unfold reachedStop. rewrite rev_app_distr. reflexivity. Qed.

Lemma Qle_bool_lt (x y : Q) : Qle_bool x y = false -> y < x.
Proof.
  intros H. apply Qnot_le_lt. intros Hle. apply Qle_bool_iff in Hle. congruence.
Qed.

(** X15.  [currentLevel] shows the last stop of the list whose threshold the
    points have reached: every later stop is out of reach.  With the
    stops of the program that is the level of the tier the points are
    in, thresholds included.  Points below 0 and points that are [NaN]
    reach no stop and show the first level, so the total [parseInt]
    could not read is shown as a newcomer's. *)
Theorem currentLevel_tiers :
  (forall stops points s,
      reachedStop stops points = Some s ->
      numberGeq points (Finite (inject_Z (threshold s))) = true
      /\ exists before after,
          stops = (before ++ s :: after)%list
          /\ Forall (fun later => numberGeq points (Finite (inject_Z (threshold later))) = false)
                    after)
  /\ (forall stops points,
         reachedStop stops points = None ->
         Forall (fun s => numberGeq points (Finite (inject_Z (threshold s))) = false) stops)
  /\ (forall q : Q,
         (q < 250 -> currentLevel (Finite q) = "Unstructured Newbie 👶")
         /\ (250 <= q -> q < 500 -> currentLevel (Finite q) = "Metadata Apprentice 🧙‍♀️")
         /\ (500 <= q -> q < 700 -> currentLevel (Finite q) = "Pure Data influencer 🧑‍💻")
         /\ (700 <= q -> q < 900 -> currentLevel (Finite q) = "Persistent Identifier Pro 😎")
         /\ (900 <= q -> currentLevel (Finite q) = "Final Boss of Metadata 👹"))
  /\ currentLevel NaN = "Unstructured Newbie 👶"
  /\ currentLevel (loadPoints (Some "abc")) = "Unstructured Newbie 👶".
Proof.
  split; [| split; [| split; [| split; reflexivity]]].
  - intros stops points. induction stops as [| last stops IH] using rev_ind;
      intros s; [discriminate |].
    rewrite reachedStop_snoc.
    destruct (numberGeq points (Finite (inject_Z (threshold last)))) eqn:Hlast.
    + intros H. inversion H; subst. split; [exact Hlast |].
      exists stops, []. split; [reflexivity | constructor].
    + intros H. destruct (IH s H) as (Hs & before & after & Hstops & Hafter).
      split; [exact Hs |]. exists before, (after ++ [last])%list. split.
      * rewrite Hstops, <- app_assoc. reflexivity.
      * apply Forall_app. split; [exact Hafter | constructor; [exact Hlast | constructor]].
  - intros stops points. induction stops as [| last stops IH] using rev_ind;
      intros H; [constructor |].
    rewrite reachedStop_snoc in H.
    destruct (numberGeq points (Finite (inject_Z (threshold last)))) eqn:Hlast;
      [discriminate |].
    apply Forall_app. split; [apply IH; exact H | constructor; [exact Hlast | constructor]].
  - intros q. unfold currentLevel, reachedStop, levelStops.
    cbn [rev app find threshold label numberGeq hd].
    destruct (Qle_bool (inject_Z 900) q) eqn:H900;
      [apply Qle_bool_iff in H900 | apply Qle_bool_lt in H900];
    destruct (Qle_bool (inject_Z 700) q) eqn:H700;
      [apply Qle_bool_iff in H700 | apply Qle_bool_lt in H700
      | apply Qle_bool_iff in H700 | apply Qle_bool_lt in H700];
    destruct (Qle_bool (inject_Z 500) q) eqn:H500;
      try (apply Qle_bool_iff in H500); try (apply Qle_bool_lt in H500);
    destruct (Qle_bool (inject_Z 250) q) eqn:H250;
      try (apply Qle_bool_iff in H250); try (apply Qle_bool_lt in H250);
    destruct (Qle_bool (inject_Z 0) q) eqn:H0;
      try (apply Qle_bool_iff in H0); try (apply Qle_bool_lt in H0);
    repeat split; intros; try reflexivity; exfalso; unfold inject_Z in *; lra.
Qed.

(** ** The rate limiter *)

Lemma limiter_step (rateLimitMs lastCall now resumed : Z) :
  resumedAfter (limiterSleep rateLimitMs lastCall now) now resumed ->
  (lastCall + rateLimitMs <= resumed)%Z.
Proof.
  unfold limiterSleep, resumedAfter. cbv zeta.
  destruct (now - lastCall <? rateLimitMs)%Z eqn:Hdelta; intros H.
  - lia.
  - apply Z.ltb_ge in Hdelta. lia.
Qed.

(** X16.  The limited function keeps its calls apart.  It sleeps only when
    less than [rateLimitMs] has passed since the last call, then for
    exactly the remainder, which is at most [rateLimitMs] when the clock
    has not gone back.  When the calls come one after the other, each
    sleeping as asked, the times they leave in [lastCall.current] are at
    least [rateLimitMs] apart, the first one at least [rateLimitMs] after
    the initial value. *)
Theorem limiter_spacing (rateLimitMs lastCall : Z) (calls : list (Z * Z)) :
  timed rateLimitMs lastCall calls ->
  spaced rateLimitMs lastCall (map snd calls)
  /\ (forall now,
         (limiterSleep rateLimitMs lastCall now = None
          <-> (rateLimitMs <= now - lastCall)%Z)
         /\ (forall ms,
                limiterSleep rateLimitMs lastCall now = Some ms ->
                (now + ms = lastCall + rateLimitMs)%Z
                /\ (0 < ms)%Z
                /\ ((lastCall <= now)%Z -> (ms <= rateLimitMs)%Z))).
Proof.
  intros Htimed. split.
  - revert lastCall Htimed. induction calls as [| [now resumed] rest IH];
      intros lastCall Htimed; [exact I |].
    destruct Htimed as [Hcall Hrest]. cbn [map snd spaced]. split.
    + apply (limiter_step rateLimitMs lastCall now resumed Hcall).
    + apply IH. exact Hrest.
  - intros now. unfold limiterSleep. cbv zeta.
    destruct (now - lastCall <? rateLimitMs)%Z eqn:Hdelta.
    + apply Z.ltb_lt in Hdelta. split.
      * split; [discriminate | lia].
      * intros ms H. inversion H; subst. lia.
    + apply Z.ltb_ge in Hdelta. split.
      * split; [intros _; exact Hdelta | reflexivity].
      * intros ms H. discriminate H.
Qed.

Lemma limiter_spacing_witness :
  spaced 350 0 (map snd [(1000, 1000); (1100, 1350); (2000, 2001)])%Z.
Proof.
  apply (limiter_spacing 350 0 [(1000, 1000); (1100, 1350); (2000, 2001)])%Z.
  cbn. lia.
Defined.

(** ** The candidates on display *)

Lemma rankedBefore_keys (a b a' b' : Candidate) :
  chosen a' = chosen a -> scoreLocal a' = scoreLocal a ->
  chosen b' = chosen b -> scoreLocal b' = scoreLocal b ->
  rankedBefore a b -> rankedBefore a' b'.
Proof. unfold rankedBefore. intros -> -> -> ->. exact (fun H => H). Qed.

Lemma Forall_firstn {A : Type} (P : A -> Prop) (n : nat) (l : list A) :
  Forall P l -> Forall P (firstn n l).
Proof.
  intros Hall. revert n. induction Hall as [| x l Hx Hl IH]; intros n.
  - rewrite firstn_nil. constructor.
  - destruct n as [| n]; [constructor |]. cbn [firstn]. constructor; [exact Hx | apply IH].
Qed.

Lemma sorted_firstn (n : nat) (l : list Candidate) :
  StronglySorted rankedBefore l -> StronglySorted rankedBefore (firstn n l).
Proof.
  intros Hsorted. revert n. induction Hsorted as [| a l Hl IH Ha]; intros n.
  - rewrite firstn_nil. constructor.
  - destruct n as [| n]; [constructor |]. cbn [firstn].
    constructor; [apply IH | apply Forall_firstn; exact Ha].
Qed.

Lemma sorted_enriched (items result : list Candidate) :
  Forall2 (fun item r => r = item \/ exists locs, r = withLocations item locs) items result ->
  StronglySorted rankedBefore items -> StronglySorted rankedBefore result.
Proof.
  assert (Hkeys : forall item r,
             r = item \/ (exists locs, r = withLocations item locs) ->
             chosen r = chosen item /\ scoreLocal r = scoreLocal item).
  { intros item r [-> | [locs ->]]; split; reflexivity. }
  intros Hall. induction Hall as [| item r items result Hr Hrest IH]; intros Hsorted;
    [constructor |].
  inversion Hsorted as [| ? ? Hitems Hitem]; subst.
  constructor; [apply IH; exact Hitems |].
  clear IH Hsorted Hitems. induction Hrest as [| item' r' items result Hr' Hrest IH];
    [constructor |].
  inversion Hitem as [| ? ? Hhead Htail]; subst.
  constructor; [| apply IH; exact Htail].
  destruct (Hkeys _ _ Hr) as [Hc Hs]. destruct (Hkeys _ _ Hr') as [Hc' Hs'].
  apply (rankedBefore_keys item item' r r' Hc Hs Hc' Hs' Hhead).
Qed.

Lemma searchRor_sorted (env : Env) (o : ExtOrgItem) (s : AppState)
    (result : list Candidate) (s' : AppState) :
  searchRor env o s = (Ok result, s') -> StronglySorted rankedBefore result.
Proof.
  unfold searchRor. cbv zeta. fold (nameOnlyOf o).
  destruct (negb (truthy (nameOnlyOf o))).
  { intros H. inversion H; subst. constructor. }
  unfold bind at 1, fetch.
  destruct (rorSearch env (requests s) (searchRequest (nameOnlyOf o))) as [e | res].
  { intros H. discriminate H. }
  destruct (negb (ok res)).
  { intros H. discriminate H. }
  destruct (json res) as [data | e].
  2: { intros H. discriminate H. }
  cbn [await]. rewrite bind_ok with (a := data) (s1 := withRequest (searchRequest (nameOnlyOf o)) s)
    by reflexivity.
  rewrite (bind_ok _ _ _ _ _ (mapM_fetchLocations env _ _)).
  match goal with
  | |- context [lookupAll env ?log ?top] =>
      pose proof (lookupAll_pointwise env log top) as Hall;
      assert (Hsorted : StronglySorted rankedBefore (lookupAll env log top))
        by (apply (sorted_enriched top _ Hall), sorted_firstn, rankCandidates_sorted);
      set (enriched := lookupAll env log top) in *
  end.
  destruct (Qle_bool 0.7 _); intros H; inversion H; subst; exact Hsorted.
Qed.

(** X17.  The candidates [loadNext] puts on display are in ranking order: each
    one is recommended when a later one is, and among equally
    recommended ones no later one scores higher.  Sorting, cutting to
    ten and adding locations keep that order, so the first candidate,
    the only one ever preselected, ranks before every other one. *)
Theorem loadNext_candidates_ranked (env : Env) (s : AppState) :
  let s' := snd (loadNext env s) in
  StronglySorted rankedBefore (candidates s')
  /\ (forall top rest, candidates s' = top :: rest -> Forall (rankedBefore top) rest)
  /\ (forall i, selectedIdx s' = Some i ->
                exists top rest,
                  i = 0%Z /\ candidates s' = top :: rest
                  /\ 0.7 <= scoreLocal top /\ Forall (rankedBefore top) rest).
Proof.
  cbv zeta.
  assert (Hsorted : StronglySorted rankedBefore (candidates (snd (loadNext env s)))).
  { rewrite loadNext_unfold.
    destruct (fetchRandomOrg env (cleared s)) as [[[candidate |] | e] s1] eqn:Hprobe;
      destruct (fetchRandomOrg_view env _ _ _ Hprobe) as ((_ & _ & _ & Hcand & _) & _);
      cbn in Hcand.
    - destruct (searchRor env candidate (withOrg (Some candidate) s1)) as [[rorList | e] s2]
        eqn:Hsearch.
      + cbn. apply (searchRor_sorted env _ _ _ _ Hsearch).
      + destruct (searchRor_view env _ _ _ _ Hsearch) as (_ & _ & _ & Hcand2 & _).
        cbn in Hcand2 |- *. rewrite Hcand2, Hcand. constructor.
    - cbn. rewrite Hcand. constructor.
    - cbn. rewrite Hcand. constructor. }
  assert (Htop : forall top rest,
             candidates (snd (loadNext env s)) = top :: rest ->
             Forall (rankedBefore top) rest).
  { intros top rest Heq. rewrite Heq in Hsorted.
    inversion Hsorted; subst. assumption. }
  split; [exact Hsorted | split; [exact Htop |]].
  intros i Hi.
  assert (Hsel : selectedIdx (snd (loadNext env s)) = None
                 \/ (selectedIdx (snd (loadNext env s)) = Some 0%Z
                     /\ exists top rest,
                         candidates (snd (loadNext env s)) = top :: rest
                         /\ 0.7 <= scoreLocal top)).
  { rewrite loadNext_unfold.
    destruct (fetchRandomOrg env (cleared s)) as [[[candidate |] | e] s1] eqn:Hprobe;
      destruct (fetchRandomOrg_view env _ _ _ Hprobe) as ((_ & _ & _ & _ & Hsel1 & _) & _);
      cbn in Hsel1.
    - destruct (searchRor env candidate (withOrg (Some candidate) s1)) as [[rorList | e] s2]
        eqn:Hsearch;
        pose proof (searchRor_view env _ _ _ _ Hsearch) as Hview.
      + destruct Hview as (_ & _ & _ & _ & _ & _ & _ & _ & _ & [[Hsel Htop'] | [Hsel _]]);
          cbn in Hsel |- *.
        * right. split; [exact Hsel | exact Htop'].
        * left. rewrite Hsel. exact Hsel1.
      + destruct Hview as (_ & _ & _ & _ & Hsel & _). cbn in Hsel |- *.
        left. rewrite Hsel. exact Hsel1.
    - left. cbn. exact Hsel1.
    - left. cbn. exact Hsel1. }
  destruct Hsel as [Hnone | (Hzero & top & rest & Hcand & Hscore)].
  - rewrite Hnone in Hi. discriminate Hi.
  - rewrite Hzero in Hi. inversion Hi; subst i. exists top, rest.
    split; [reflexivity | split; [exact Hcand | split; [exact Hscore |]]].
    apply (Htop top rest Hcand).
Qed.

(** ** The random probe *)

Lemma floor_in_range (r : Q) (total : Z) :
  0 <= r -> r < 1 -> (0 < total)%Z ->
  (0 <= Qfloor (r * inject_Z total) < total)%Z.
Proof.
  intros Hlow Hhigh Htotal.
  assert (Ht : 0 < inject_Z total) by (rewrite Zlt_Qlt in Htotal; exact Htotal).
  split.
  - change 0%Z with (Qfloor 0). apply Qfloor_resp_le.
    apply Qmult_le_0_compat; [exact Hlow | apply Qlt_le_weak; exact Ht].
  - rewrite Zlt_Qlt. eapply Qle_lt_trans; [apply Qfloor_le |].
    assert (Hlt : r * inject_Z total < 1 * inject_Z total)
      by (apply Qmult_lt_compat_r; assumption).
    rewrite Qmult_1_l in Hlt. exact Hlt.
Qed.

Lemma fetchRandomOrg_probed (env : Env) (s : AppState) (total : Z) :
  getCount env s = (Ok total, withRequest countRequest s) ->
  total <> 0%Z ->
  requests (snd (fetchRandomOrg env s))
  = (requests s ++ [countRequest; pageRequest (probeOffset env s total)])%list.
Proof.
  intros Hcount Hnz.
  rewrite (fetchRandomOrg_after_count env s total Hcount Hnz).
  unfold bind, fetch.
  destruct (catalogPage env _ _) as [e | res]; [cbn; rewrite <- app_assoc; reflexivity |].
  destruct (negb (ok res)); [cbn; rewrite <- app_assoc; reflexivity |].
  destruct (json res) as [data | e]; [| cbn; rewrite <- app_assoc; reflexivity].
  cbn [await ret]. destruct (hd_error (items data)) as [item |];
    [match goal with |- context [if ?b then _ else _] => destruct b end |];
    cbn; rewrite <- app_assoc; reflexivity.
Qed.

Lemma fetchRandomOrg_trace (env : Env) (s : AppState) :
  requests (snd (fetchRandomOrg env s)) = (requests s ++ [countRequest])%list
  \/ exists total,
      requests (snd (fetchRandomOrg env s))
      = (requests s ++ [countRequest; pageRequest (probeOffset env s total)])%list.
Proof.
  destruct (getCount env s) as [[total | e] s1] eqn:Hcount;
    pose proof (getCount_requests env s _ _ Hcount) as Hs1; subst s1.
  - destruct (Z.eq_dec total 0) as [Hz | Hnz].
    + left. unfold fetchRandomOrg. rewrite (bind_ok _ _ _ _ _ Hcount).
      subst total. reflexivity.
    + right. exists total. apply (fetchRandomOrg_probed env s total Hcount Hnz).
  - left. unfold fetchRandomOrg, bind. rewrite Hcount. reflexivity.
Qed.

(** X18.  The probe of [fetchRandomOrg] stays inside the catalog: when the
    count request answers a positive count and [Math.random()] is in
    [0, 1), the call issues the count request and one page request, for
    an offset from 0 up to the count less one; with a single record that
    is offset 0. *)
Theorem fetchRandomOrg_probes_in_range (env : Env) (s : AppState)
    (cres : Response PageResponse) (cpage : PageResponse) :
  catalogPage env (requests s) countRequest = Resolved cres ->
  ok cres = true ->
  json cres = Ok cpage ->
  (0 < count cpage)%Z ->
  0 <= random env (requests s ++ [countRequest]) ->
  random env (requests s ++ [countRequest]) < 1 ->
  (0 <= probeOffset env s (count cpage) < count cpage)%Z
  /\ requests (snd (fetchRandomOrg env s))
     = (requests s ++ [countRequest; pageRequest (probeOffset env s (count cpage))])%list
  /\ (count cpage = 1%Z -> probeOffset env s (count cpage) = 0%Z).
Proof.
  intros Hres Hok Hjson Hpos Hlow Hhigh.
  assert (Hrange : (0 <= probeOffset env s (count cpage) < count cpage)%Z)
    by (apply floor_in_range; assumption).
  split; [exact Hrange | split; [| lia]].
  apply fetchRandomOrg_probed; [| lia].
  apply (getCount_ok env s cres cpage Hres Hok Hjson).
Qed.

Lemma fetchRandomOrg_probes_in_range_witness :
  requests (snd (fetchRandomOrg (Examples.catalogWith None) Examples.idle))
  = [countRequest; pageRequest 0].
Proof.
  pose proof (fetchRandomOrg_probes_in_range (Examples.catalogWith None) Examples.idle
                (mkResponse 200 "" (Ok (mkPageResponse 1 [Examples.record "approved" None])))
                (mkPageResponse 1 [Examples.record "approved" None])
                eq_refl eq_refl eq_refl) as Hprobe.
  destruct Hprobe as (_ & Hrequests & Hzero).
  - reflexivity.
  - vm_compute. discriminate.
  - vm_compute. reflexivity.
  - rewrite Hrequests, (Hzero eq_refl). reflexivity.
Defined.

(** ** How many requests a call issues *)

Lemma withinBudget_weaken (a b a' b' : nat) (s s' : AppState) :
  (a <= a')%nat -> (b <= b')%nat -> withinBudget a b s s' -> withinBudget a' b' s s'.
Proof.
  intros Ha Hb (catalog & registry & Hreq & Hc & Hlc & Hr & Hlr).
  exists catalog, registry. repeat split; try assumption; lia.
Qed.

Lemma withinBudget_catalog (s s' : AppState) (catalog : list Request) :
  requests s' = (requests s ++ catalog)%list -> Forall toCatalog catalog ->
  withinBudget (List.length catalog) 0 s s'.
Proof.
  intros Hreq Hc. exists catalog, []. rewrite app_nil_r.
  split; [exact Hreq | split; [exact Hc | split; [apply Nat.le_refl |]]].
  split; [constructor | apply Nat.le_refl].
Qed.

Lemma withinBudget_step (a b c : nat) (s1 s2 s3 : AppState) (catalog : list Request) :
  requests s2 = (requests s1 ++ catalog)%list -> Forall toCatalog catalog ->
  (List.length catalog + a <= c)%nat ->
  withinBudget a b s2 s3 -> withinBudget c b s1 s3.
Proof.
  intros Hreq Hc Hlen (catalog' & registry & Hreq' & Hc' & Hlc & Hr & Hlr).
  exists (catalog ++ catalog')%list, registry. split.
  - rewrite Hreq', Hreq, <- !app_assoc. reflexivity.
  - repeat split; try assumption.
    + apply Forall_app. split; assumption.
    + rewrite length_app. lia.
Qed.

Lemma toCatalog_get (path : string) : toCatalog (catalogGet (buildUrl PURE_BASE_URL path)).
Proof. apply buildUrl_toCatalog. Qed.

Lemma lookupRequests_registry (items : list Candidate) :
  Forall toRegistry (flat_map lookupRequests items)
  /\ (List.length (flat_map lookupRequests items) <= List.length items)%nat.
Proof.
  induction items as [| item rest [IHall IHlen]]; [split; [constructor | apply Nat.le_refl] |].
  cbn [flat_map]. unfold lookupRequests at 1 3.
  destruct (rorId (organization item)) as [canonicalId |]; cbn [app List.length].
  - split; [constructor; [reflexivity | exact IHall] | lia].
  - split; [exact IHall | lia].
Qed.

Lemma searchRor_budget (env : Env) (o : ExtOrgItem) (s : AppState) :
  withinBudget 0 11 s (snd (searchRor env o s)).
Proof.
  assert (Hnone : forall st : AppState, requests st = requests s -> withinBudget 0 11 s st).
  { intros st Hst. exists [], []. rewrite Hst, !app_nil_r.
    repeat split; try (cbn; lia); constructor. }
  assert (Hone : forall st : AppState,
             requests st = (requests s ++ [searchRequest (nameOnlyOf o)])%list ->
             withinBudget 0 11 s st).
  { intros st Hst. exists [], [searchRequest (nameOnlyOf o)]. rewrite Hst.
    split; [reflexivity | split; [constructor | split; [cbn; lia |]]].
    split; [constructor; [reflexivity | constructor] | cbn; lia]. }
  unfold searchRor. cbv zeta. fold (nameOnlyOf o).
  destruct (negb (truthy (nameOnlyOf o))); [apply Hnone; reflexivity |].
  unfold bind at 1, fetch.
  destruct (rorSearch env (requests s) (searchRequest (nameOnlyOf o))) as [e | res];
    [apply Hone; reflexivity |].
  destruct (negb (ok res)); [apply Hone; reflexivity |].
  destruct (json res) as [data | e]; [| apply Hone; reflexivity].
  cbn [await]. rewrite bind_ok with (a := data) (s1 := withRequest (searchRequest (nameOnlyOf o)) s)
    by reflexivity.
  rewrite (bind_ok _ _ _ _ _ (mapM_fetchLocations env _ _)).
  match goal with
  | |- context [logged (flat_map lookupRequests ?top) ?st] =>
      destruct (lookupRequests_registry top) as [Hall Hlen];
      assert (Htop : (List.length top <= 10)%nat) by apply firstn_le_length;
      pose proof (requests_logged (flat_map lookupRequests top) st) as Hlog;
      set (lookups := flat_map lookupRequests top) in *;
      set (after := logged lookups st) in *
  end.
  assert (Hafter : withinBudget 0 11 s after).
  { exists [], (searchRequest (nameOnlyOf o) :: lookups). rewrite Hlog. split.
    - cbn. rewrite <- app_assoc. reflexivity.
    - split; [constructor | split; [cbn; lia |]].
      split; [constructor; [reflexivity | exact Hall] | cbn [List.length]; lia]. }
  destruct (Qle_bool 0.7 _); cbn [snd bind]; [| exact Hafter].
  destruct Hafter as (catalog & registry & Hreq & Hrest).
  exists catalog, registry. split; [exact Hreq | exact Hrest].
Qed.

Lemma loadNext_budget (env : Env) (s : AppState) :
  withinBudget 2 11 s (snd (loadNext env s)).
Proof.
  rewrite loadNext_unfold.
  assert (Hprobe : exists catalog,
             requests (snd (fetchRandomOrg env (cleared s))) = (requests s ++ catalog)%list
             /\ Forall toCatalog catalog /\ (List.length catalog <= 2)%nat).
  { destruct (fetchRandomOrg_trace env (cleared s)) as [Hone | (total & Htwo)].
    - exists [countRequest]. split; [exact Hone |].
      split; [constructor; [apply toCatalog_get | constructor] | cbn; lia].
    - eexists. split; [exact Htwo |].
      split; [constructor; [apply toCatalog_get | constructor; [apply toCatalog_get | constructor]]
             | cbn; lia]. }
  destruct Hprobe as (catalog & Hreq & Hcat & Hlen).
  destruct (fetchRandomOrg env (cleared s)) as [[[candidate |] | e] s1]; cbn [snd] in Hreq.
  - pose proof (searchRor_budget env candidate (withOrg (Some candidate) s1)) as Hsearch.
    assert (Hboth : withinBudget 2 11 s (snd (searchRor env candidate
                                                (withOrg (Some candidate) s1)))).
    { apply (withinBudget_step 0 11 2 s (withOrg (Some candidate) s1) _ catalog);
        [exact Hreq | exact Hcat | lia | exact Hsearch]. }
    destruct (searchRor env candidate (withOrg (Some candidate) s1)) as [[rorList | e] s2];
      exact Hboth.
  - apply (withinBudget_weaken (List.length catalog) 0); [exact Hlen | lia |].
    apply withinBudget_catalog; assumption.
  - apply (withinBudget_weaken (List.length catalog) 0); [exact Hlen | lia |].
    apply withinBudget_catalog; assumption.
Qed.

(** X19.  One call issues a bounded number of requests, the catalog first.
    [loadNext] sends at most 2 requests to the catalog and then at most
    11 to the registry: the search and one detail lookup for each of at
    most 10 candidates.  [doLink] sends at most 4 requests to the
    catalog (the refresh, the [PUT] and those of [loadNext]) and then at
    most 11 to the registry.  Nothing is retried. *)
Theorem request_budget (env : Env) (s : AppState) :
  withinBudget 2 11 s (snd (loadNext env s))
  /\ withinBudget 4 11 s (snd (doLink env s))
  /\ forall o, withinBudget 0 11 s (snd (searchRor env o s)).
Proof.
  split; [apply loadNext_budget | split; [| intros o; apply searchRor_budget]].
  destruct (guard_cases s) as [(o & i & Hsel) | Hblocked].
  2: { rewrite (proj1 (doLink_blocked env s Hblocked)).
       exists [], []. rewrite !app_nil_r. repeat split; try (cbn; lia); constructor. }
  rewrite (doLink_unfold env s o i Hsel).
  assert (Hrefresh : requests (snd (fetchOrg env (uuid o) (started s)))
                     = (requests s ++ [itemRequest (uuid o)])%list).
  { unfold fetchOrg. cbv zeta. rewrite limitedFetch_get. fold (itemRequest (uuid o)).
    unfold bind, fetch. change (requests (started s)) with (requests s).
    destruct (catalogItem env (requests s) (itemRequest (uuid o))) as [e | res];
      [reflexivity |].
    destruct (negb (ok res)); [reflexivity |]. destruct (json res); reflexivity. }
  assert (Hitem : Forall toCatalog [itemRequest (uuid o)])
    by (constructor; [apply toCatalog_get | constructor]).
  destruct (fetchOrg env (uuid o) (started s)) as [[latest | e] s1]; cbn [snd] in Hrefresh.
  2: { apply (withinBudget_weaken 1 0); [lia | lia |].
       apply (withinBudget_catalog s _ [itemRequest (uuid o)]); [exact Hrefresh | exact Hitem]. }
  destruct (hasRorIdentifier (identifiers latest)).
  { cbn [snd].
    apply (withinBudget_step 2 11 4 s
             (withConfirmOpen false (withToast (Some alreadyLinked) s1)) _
             [itemRequest (uuid o)]);
      [exact Hrefresh | exact Hitem | cbn; lia |].
    destruct (loadNext_budget env (withConfirmOpen false (withToast (Some alreadyLinked) s1)))
      as (catalog & registry & Hreq & Hrest).
    exists catalog, registry. split; [exact Hreq | exact Hrest]. }
  destruct (nth_error (candidates s) (Z.to_nat i)) as [chosen |].
  2: { apply (withinBudget_weaken 1 0); [lia | lia |].
       apply (withinBudget_catalog s _ [itemRequest (uuid o)]); [exact Hrefresh | exact Hitem]. }
  fold (linkRequest chosen latest).
  assert (Hput : requests (snd (putOrg env (uuid latest) (version latest)
                                  (identifierList latest
                                   ++ [newRorIdentifier (rorId (organization chosen))]) s1))
                 = (requests s ++ [itemRequest (uuid o); linkRequest chosen latest])%list).
  { rewrite putOrg_unfold. fold (linkRequest chosen latest).
    destruct (catalogPut env (requests s1) (linkRequest chosen latest)) as [e | res];
      [| destruct (ok res)]; cbn; rewrite Hrefresh, <- app_assoc; reflexivity. }
  assert (Hsent : Forall toCatalog [itemRequest (uuid o); linkRequest chosen latest]).
  { constructor; [apply toCatalog_get |]. constructor; [apply buildUrl_toCatalog | constructor]. }
  destruct (putOrg env (uuid latest) (version latest)
              (identifierList latest ++ [newRorIdentifier (rorId (organization chosen))]) s1)
    as [[parsed | e] s2]; cbn [snd] in Hput |- *.
  2: { apply (withinBudget_weaken 2 0); [lia | lia |].
       apply (withinBudget_catalog s _ [itemRequest (uuid o); linkRequest chosen latest]);
         [exact Hput | exact Hsent]. }
  apply (withinBudget_step 2 11 4 s (linkedView (now env (requests s2)) latest chosen s2) _
           [itemRequest (uuid o); linkRequest chosen latest]);
    [exact Hput | exact Hsent | cbn; lia |].
  destruct (loadNext_budget env (linkedView (now env (requests s2)) latest chosen s2))
    as (catalog & registry & Hreq & Hrest).
  exists catalog, registry. split; [exact Hreq | exact Hrest].
Qed.

(** ** The states between two events *)

Lemma settled_view (s s' : AppState) :
  settled s ->
  loading s' = false -> org s' = org s -> candidates s' = candidates s ->
  selectedIdx s' = selectedIdx s -> (List.length (history s') <= 50)%nat ->
  settled s'.
Proof.
  intros (_ & Helig & Hlen & Horg & Hsel & _) Hloading Ho Hc Hi Hh.
  unfold settled. rewrite Ho, Hc, Hi.
  split; [exact Hloading | split; [exact Helig | split; [exact Hlen |]]].
  split; [exact Horg | split; [exact Hsel | exact Hh]].
Qed.

Lemma settled_loadNext (env : Env) (s : AppState) :
  (List.length (history s) <= 50)%nat ->
  settled (snd (loadNext env s)) /\ settled (withLoading false (snd (loadNext env s))).
Proof.
  intros Hh.
  destruct (loadNext_view env s) as (_ & Hloading & Helig & Hlen & Hsel & _ & Hnone & _).
  destruct (loadNext_keepsProgress env s _ _ (surjective_pairing _)) as (_ & Hhistory & _).
  assert (Hsettled : settled (snd (loadNext env s))).
  { unfold settled. rewrite Hhistory.
    split; [exact Hloading | split; [exact Helig | split; [exact Hlen |]]].
    split; [| split; [| exact Hh]].
    - intros Hcand Horg. apply Hcand. apply (proj1 (Hnone Horg)).
    - intros i Hi. destruct Hsel as [Hsel | (Hsel & (top & rest & Hcand & _) & _)].
      + rewrite Hsel in Hi. discriminate Hi.
      + rewrite Hsel in Hi. inversion Hi; subst i. rewrite Hcand. cbn [List.length]. lia. }
  split; [exact Hsettled |].
  apply (settled_view _ _ Hsettled); try reflexivity.
  apply Hsettled.
Qed.

Lemma fetchOrg_view (env : Env) (u : string) (s : AppState) :
  sameView s (snd (fetchOrg env u s)).
Proof.
  unfold fetchOrg. cbv zeta. rewrite limitedFetch_get. unfold bind, fetch.
  destruct (catalogItem env (requests s) _) as [e | res]; [apply sameView_request |].
  destruct (negb (ok res)); [apply sameView_request |].
  destruct (json res); apply sameView_request.
Qed.

Lemma putOrg_view (env : Env) (u v : string) (ids : list Identifier) (s : AppState) :
  sameView s (snd (putOrg env u v ids s)).
Proof.
  rewrite putOrg_unfold.
  destruct (catalogPut env (requests s) _) as [e | res]; [apply sameView_request |].
  destruct (ok res); apply sameView_request.
Qed.

Lemma settled_failed (e : Exn) (s s1 : AppState) :
  settled s -> sameView (started s) s1 -> settled (failed e s1).
Proof.
  intros Hs (_ & Hh & Ho & Hc & Hi & _). cbn in Hh, Ho, Hc, Hi.
  apply (settled_view s _ Hs); cbn; try assumption; try reflexivity.
  rewrite Hh. apply Hs.
Qed.

Lemma settled_doLink (env : Env) (s : AppState) : settled s -> settled (snd (doLink env s)).
Proof.
  intros Hs.
  destruct (guard_cases s) as [(o & i & Hsel) | Hblocked].
  2: { rewrite (proj1 (doLink_blocked env s Hblocked)). exact Hs. }
  rewrite (doLink_unfold env s o i Hsel).
  pose proof (fetchOrg_view env (uuid o) (started s)) as Hrefresh.
  destruct (fetchOrg env (uuid o) (started s)) as [[latest | e] s1]; cbn [snd] in Hrefresh.
  2: { apply (settled_failed e s s1 Hs Hrefresh). }
  assert (Hh1 : history s1 = history s) by apply Hrefresh.
  destruct (hasRorIdentifier (identifiers latest)).
  { cbn [snd]. apply settled_loadNext. cbn. rewrite Hh1. apply Hs. }
  destruct (nth_error (candidates s) (Z.to_nat i)) as [chosen |].
  2: { apply (settled_failed _ s s1 Hs Hrefresh). }
  match goal with
  | |- context [putOrg env ?u ?v ?ids s1] =>
      pose proof (putOrg_view env u v ids s1) as Hput;
      destruct (putOrg env u v ids s1) as [[parsed | e] s2]
  end; cbn [snd] in Hput |- *.
  - apply settled_loadNext. cbn [linkedView history withConfirmOpen withToast withHistory].
    rewrite insertHistory_length. lia.
  - apply (settled_failed e s s2 Hs). eapply sameView_trans; eassumption.
Qed.

Lemma settled_handle (env : Env) (ev : Event) (s : AppState) :
  settled s -> settled (handle env ev s).
Proof.
  intros Hs. unfold handle. destruct (offered ev s) eqn:Hoffered; [| exact Hs].
  destruct ev as [| | | | i | |].
  - apply settled_loadNext. apply Hs.
  - unfold openConfirm. destruct (org s); [| exact Hs].
    destruct (selectedIdx s) as [i |]; [| exact Hs].
    destruct (i <? 0)%Z; [exact Hs |].
    apply (settled_view s _ Hs); try reflexivity; apply Hs.
  - apply settled_doLink. exact Hs.
  - apply (settled_view s _ Hs); try reflexivity; apply Hs.
  - cbn [offered] in Hoffered. apply Nat.ltb_lt in Hoffered.
    destruct Hs as (Hloading & Helig & Hlen & Horg & Hsel & Hh).
    unfold settled. cbn.
    split; [exact Hloading | split; [exact Helig | split; [exact Hlen |]]].
    split; [exact Horg | split; [| exact Hh]].
    intros j Hj. inversion Hj; subst j. lia.
  - destruct Hs as (Hloading & Helig & Hlen & Horg & Hsel & Hh).
    unfold settled. cbn.
    split; [exact Hloading | split; [exact Helig | split; [exact Hlen |]]].
    split; [exact Horg | split; [exact Hsel | lia]].
  - apply (settled_view s _ Hs); try reflexivity; apply Hs.
Qed.

Lemma settled_run (env : Env) (events : list Event) (s : AppState) :
  settled s -> settled (run env events s).
Proof.
  unfold run. revert s. induction events as [| ev rest IH]; intros s Hs; [exact Hs |].
  cbn [fold_left]. apply IH. apply settled_handle. exact Hs.
Qed.

Lemma settled_selection (s : AppState) (i : Z) :
  settled s -> selectedIdx s = Some i ->
  (0 <= i)%Z
  /\ (exists chosen, nth_error (candidates s) (Z.to_nat i) = Some chosen)
  /\ exists o, org s = Some o /\ recognisedEligible o.
Proof.
  intros (_ & Helig & _ & Horg & Hsel & _) Hi.
  destruct (Hsel i Hi) as [Hlow Hhigh].
  split; [exact Hlow | split].
  - destruct (nth_error (candidates s) (Z.to_nat i)) as [chosen |] eqn:Hnth;
      [exists chosen; reflexivity |].
    apply nth_error_None in Hnth. lia.
  - destruct (org s) as [o |] eqn:Ho.
    + exists o. split; [reflexivity | apply Helig; reflexivity].
    + exfalso. apply Horg; [| reflexivity].
      intros Hnil. rewrite Hnil in Hhigh. cbn in Hhigh. lia.
Qed.

(** X20.  Handled one after the other, the events of the page keep the
    state settled: after the first [loadNext] and after any sequence of
    clicks, selections and timer ticks, nothing is in flight, the record
    on display is eligible, at most 10 candidates are shown and only
    beside a record, the selection points at a shown candidate and the
    history holds at most 50 entries.  So whenever "Link selected ROR"
    can be clicked, the click opens the modal; and whenever "Confirm &
    link" can be clicked, [doLink] has a record and a candidate to work
    on and does not stop at an undefined candidate. *)
Theorem ui_settled (env : Env) (events : list Event) (s : AppState) :
  settled s ->
  let s' := run env events s in
  settled s'
  /\ (offered linkClicked s' = true -> modalShown (handle env linkClicked s') = true)
  /\ (offered confirmClicked s' = true ->
      exists o i chosen,
        selected s' o i /\ recognisedEligible o
        /\ nth_error (candidates s') (Z.to_nat i) = Some chosen)
  /\ forall storedPoints storedHistory,
      (List.length storedHistory <= 50)%nat ->
      settled (mounted env storedPoints storedHistory).
Proof.
  intros Hs. cbv zeta. pose proof (settled_run env events s Hs) as Hrun.
  set (s' := run env events s) in *.
  split; [exact Hrun | split; [| split]].
  - intros Hoffered. unfold handle. rewrite Hoffered.
    cbn [offered] in Hoffered. apply negb_true_iff, orb_false_iff in Hoffered.
    destruct Hoffered as [_ Hsel].
    destruct (selectedIdx s') as [i |] eqn:Hi; [| discriminate Hsel].
    destruct (settled_selection s' i Hrun Hi) as (Hlow & (chosen & Hnth) & o & Ho & _).
    unfold openConfirm. rewrite Ho, Hi.
    replace (i <? 0)%Z with false by (symmetry; apply Z.ltb_ge; exact Hlow).
    unfold modalShown. cbn. rewrite Ho, Hi, Hnth.
    replace (0 <=? i)%Z with true by (symmetry; apply Z.leb_le; exact Hlow).
    reflexivity.
  - intros Hoffered. cbn [offered] in Hoffered.
    apply andb_true_iff in Hoffered. destruct Hoffered as [Hshown _].
    unfold modalShown in Hshown.
    destruct (selectedIdx s') as [i |] eqn:Hi;
      [| rewrite andb_false_r in Hshown; discriminate Hshown].
    destruct (settled_selection s' i Hrun Hi) as (Hlow & (chosen & Hnth) & o & Ho & Helig).
    exists o, i, chosen. split; [| split; [exact Helig | exact Hnth]].
    unfold selected. split; [exact Ho | split; [exact Hi | exact Hlow]].
  - intros storedPoints storedHistory Hh. unfold mounted.
    apply settled_loadNext. exact Hh.
Qed.

Lemma ui_settled_witness :
  modalShown
    (handle (Examples.scripted
               (Examples.answer 200
                  (Ok (mkPageResponse 1 [Examples.record "approved" None])))
               (Examples.answer 200 (Ok (Examples.record "approved" None)))
               (Examples.answer 200 (Ok JNull))
               (Examples.answer 200
                  (Ok (mkSearchData (Some [Examples.hit (VNumber (Finite 0.95))]))))
               Examples.offline)
            linkClicked
            (run (Examples.scripted
                    (Examples.answer 200
                       (Ok (mkPageResponse 1 [Examples.record "approved" None])))
                    (Examples.answer 200 (Ok (Examples.record "approved" None)))
                    (Examples.answer 200 (Ok JNull))
                    (Examples.answer 200
                       (Ok (mkSearchData (Some [Examples.hit (VNumber (Finite 0.95))]))))
                    Examples.offline)
                 [nextClicked] Examples.idle))
  = true
  /\ exists o i chosen,
      selected
        (run (Examples.scripted
                (Examples.answer 200
                   (Ok (mkPageResponse 1 [Examples.record "approved" None])))
                (Examples.answer 200 (Ok (Examples.record "approved" None)))
                (Examples.answer 200 (Ok JNull))
                (Examples.answer 200
                   (Ok (mkSearchData (Some [Examples.hit (VNumber (Finite 0.95))]))))
                Examples.offline)
             [nextClicked; linkClicked] Examples.idle) o i
      /\ recognisedEligible o
      /\ nth_error
           (candidates
              (run (Examples.scripted
                      (Examples.answer 200
                         (Ok (mkPageResponse 1 [Examples.record "approved" None])))
                      (Examples.answer 200 (Ok (Examples.record "approved" None)))
                      (Examples.answer 200 (Ok JNull))
                      (Examples.answer 200
                         (Ok (mkSearchData (Some [Examples.hit (VNumber (Finite 0.95))]))))
                      Examples.offline)
                   [nextClicked; linkClicked] Examples.idle))
           (Z.to_nat i)
         = Some chosen.
Proof.
  assert (Hidle : settled Examples.idle).
  { unfold settled. cbn.
    split; [reflexivity | split; [discriminate | split; [lia |]]].
    split; [intros Hcand; exfalso; apply Hcand; reflexivity | split; [discriminate | lia]]. }
  split.
  - refine (proj1 (proj2 (ui_settled _ [nextClicked] Examples.idle Hidle)) _).
    vm_compute. reflexivity.
  - refine (proj1 (proj2 (proj2 (ui_settled _ [nextClicked; linkClicked] Examples.idle Hidle)))
              _).
    vm_compute. reflexivity.
Defined.

(** ** The short-circuit of [doLink] *)

Lemma searchRor_gets (env : Env) (o : ExtOrgItem) (s : AppState) :
  requestsGrowBy isGet s (snd (searchRor env o s)).
Proof.
  apply (respects_searchRor (requestsGrowBy isGet) (requestsGrowBy_refl isGet)
           (requestsGrowBy_trans isGet)
           (fun v st => requestsGrowBy_same isGet st (withSelectedIdx v st) eq_refl)
           (fun req st Hget => requestsGrowBy_request isGet req st Hget)
           env o s _ _ (surjective_pairing _)).
Qed.

(** [loadNext] starts with the count request and issues [GET] requests
    only. *)
Lemma loadNext_trace (env : Env) (s : AppState) :
  exists more,
    requests (snd (loadNext env s)) = (requests s ++ countRequest :: more)%list
    /\ Forall isGet more.
Proof.
  rewrite loadNext_unfold.
  assert (Hprobe : exists page,
             requests (snd (fetchRandomOrg env (cleared s)))
             = (requests s ++ countRequest :: page)%list
             /\ Forall isGet page).
  { destruct (fetchRandomOrg_trace env (cleared s)) as [Hone | (total & Htwo)].
    - exists []. split; [exact Hone | constructor].
    - eexists. split; [exact Htwo | constructor; [reflexivity | constructor]]. }
  destruct Hprobe as (page & Hreq & Hpage).
  destruct (fetchRandomOrg env (cleared s)) as [[[next |] | e] s1]; cbn [snd] in Hreq.
  - destruct (searchRor_gets env next (withOrg (Some next) s1)) as (new & Hnew & Hgets).
    cbn [requests withOrg] in Hnew.
    exists (page ++ new)%list. split.
    + destruct (searchRor env next (withOrg (Some next) s1)) as [[rorList | e] s2];
        cbn [snd] in Hnew |- *; cbn; rewrite Hnew, Hreq, <- app_assoc; reflexivity.
    + apply Forall_app. split; assumption.
  - exists page. split; [exact Hreq | exact Hpage].
  - exists page. split; [exact Hreq | exact Hpage].
Qed.

(** C2, amended.  When the record re-fetched by [doLink] carries an
    identifier that [hasRorIdentifier] recognises (discriminator
    "ClassifiedId" and a type URI ending in "/ror"), [doLink] returns
    normally, issues no [PUT] request, sets the success toast "Already
    linked: ROR ID is present.", closes the modal and loads the next
    record: after the refresh it sends the count request of the next
    probe and then [GET] requests only, and it ends in the state
    [loadNext] reaches from the cleared state, with [loading] off, where
    the record on display, if any, is a freshly probed eligible one and
    not the linked one.  Points and history are as they were. *)
Theorem doLink_already_linked (env : Env) (s : AppState) (o : ExtOrgItem) (i : Z)
    (latest : ExtOrgItem) :
  selected s o i ->
  refreshes env s o latest ->
  hasRorIdentifier (identifiers latest) = true ->
  let refreshed :=
    withConfirmOpen false
      (withToast (Some alreadyLinked) (withRequest (itemRequest (uuid o)) (started s))) in
  let s' := snd (doLink env s) in
  fst (doLink env s) = Ok tt
  /\ s' = withLoading false
            match fetchRandomOrg env (cleared refreshed) with
            | (Throw e, s1) => stopped (errorText e) s1
            | (Ok None, s1) =>
                stopped "No eligible external organizations found right now." s1
            | (Ok (Some next), s1) =>
                match searchRor env next (withOrg (Some next) s1) with
                | (Ok rorList, s2) => withLoading false (withCandidates rorList s2)
                | (Throw e, s2) => stopped (errorText e) s2
                end
            end
  /\ (exists more,
         requests s' = (requests s ++ itemRequest (uuid o) :: countRequest :: more)%list
         /\ Forall (fun req => method req = GET) more)
  /\ toast s' = Some alreadyLinked
  /\ confirmOpen s' = false
  /\ points s' = points s
  /\ history s' = history s
  /\ loading s' = false
  /\ (forall shown, org s' = Some shown -> recognisedEligible shown /\ shown <> latest)
  /\ (org s' = None -> candidates s' = [] /\ exists msg, error s' = Some msg).
Proof.
  intros Hsel Hrefresh Hlinked refreshed s'. subst s'.
  rewrite (doLink_unfold env s o i Hsel).
  rewrite (fetchOrg_refreshes env s o latest Hrefresh), Hlinked.
  fold refreshed. cbn [fst snd].
  split; [reflexivity |].
  split.
  { rewrite loadNext_unfold.
    destruct (fetchRandomOrg env (cleared refreshed)) as [[[next |] | e] s1]; [| reflexivity ..].
    destruct (searchRor env next (withOrg (Some next) s1)) as [[rorList | e] s2]; reflexivity. }
  destruct (loadNext_trace env refreshed) as (more & Hreq & Hgets).
  destruct (loadNext_keepsProgress env refreshed _ _ (surjective_pairing _))
    as (Hpoints & Hhistory & Htoast & Hconfirm & _).
  destruct (loadNext_view env refreshed) as (_ & _ & Helig & _ & _ & _ & Hnone & _).
  cbn [requests points history toast confirmOpen loading org candidates error withLoading].
  split.
  { exists more. split; [| exact Hgets].
    rewrite Hreq. unfold refreshed. cbn [requests withConfirmOpen withToast withRequest started
                                         withError withLoading].
    rewrite <- app_assoc. reflexivity. }
  split; [exact Htoast |].
  split; [exact Hconfirm |].
  split; [exact Hpoints |].
  split; [exact Hhistory |].
  split; [reflexivity |].
  split; [| exact Hnone].
  intros shown Hshown. pose proof (Helig shown Hshown) as Heligible.
  split; [exact Heligible |].
  intros Heq. subst shown. apply eligible_iff in Heligible.
  rewrite Hlinked in Heligible. rewrite andb_false_r in Heligible. discriminate Heligible.
Qed.

Lemma doLink_already_linked_witness :
  toast (snd (doLink (Examples.scripted Examples.offline
                        (Examples.answer 200
                           (Ok (Examples.record "approved"
                                  (Some [Examples.classified Examples.aalborg]))))
                        Examples.offline Examples.offline Examples.offline)
                     (Examples.confirming (Examples.record "approved" None))))
  = Some alreadyLinked
  /\ requests (snd (doLink (Examples.scripted Examples.offline
                              (Examples.answer 200
                                 (Ok (Examples.record "approved"
                                        (Some [Examples.classified Examples.aalborg]))))
                              Examples.offline Examples.offline Examples.offline)
                           (Examples.confirming (Examples.record "approved" None))))
     = [itemRequest "6a1f0c2e"; countRequest].
Proof.
  destruct (doLink_already_linked
              (Examples.scripted Examples.offline
                 (Examples.answer 200
                    (Ok (Examples.record "approved"
                           (Some [Examples.classified Examples.aalborg]))))
                 Examples.offline Examples.offline Examples.offline)
              (Examples.confirming (Examples.record "approved" None))
              (Examples.record "approved" None) 0%Z
              (Examples.record "approved" (Some [Examples.classified Examples.aalborg])))
    as (_ & Hstate & _ & Htoast & _).
  - unfold selected. repeat split. lia.
  - eexists. repeat split; reflexivity.
  - reflexivity.
  - split; [exact Htoast |]. rewrite Hstate. vm_compute. reflexivity.
Defined.

(** C2 as stated fails: a refreshed record whose registry identifier (type
    URI ending in "/ror") has a discriminator other than "ClassifiedId"
    does not take the short-circuit.  [doLink] then sends a [PUT], awards
    10 points, adds a history entry and reports a link, not "already
    linked". *)
Lemma doLink_unclassified_is_written :
  let latest := Examples.record "approved" (Some [Examples.unclassified Examples.aalborg]) in
  let s' := snd (doLink (Examples.scripted Examples.offline (Examples.answer 200 (Ok latest))
                           (Examples.answer 200 (Ok JNull)) Examples.offline Examples.offline)
                        (Examples.confirming (Examples.record "approved" None))) in
  existsb typeUriEndsInRor (identifierList latest) = true
  /\ map method (requests s') = [GET; PUT; GET]
  /\ points s' = Finite 10
  /\ List.length (history s') = 1%nat
  /\ toast s' = Some (mkToast success "Linked ROR to “Aalborg University”.")
  /\ toast s' <> Some alreadyLinked.
Proof.
  cbv zeta.
  split; [reflexivity |].
  split; [vm_compute; reflexivity |].
  split; [vm_compute; reflexivity |].
  split; [vm_compute; reflexivity |].
  split; [vm_compute; reflexivity |].
  vm_compute. discriminate.
Qed.

(** ** What [doLink] writes *)

Lemma fetchOrg_cases (env : Env) (u : string) (s : AppState) :
  snd (fetchOrg env u s) = withRequest (itemRequest u) s
  /\ forall latest,
      fst (fetchOrg env u s) = Ok latest ->
      exists res,
        catalogItem env (requests s) (itemRequest u) = Resolved res
        /\ ok res = true /\ json res = Ok latest.
Proof.
  unfold fetchOrg. cbv zeta. rewrite limitedFetch_get. fold (itemRequest u).
  unfold bind, fetch.
  destruct (catalogItem env (requests s) (itemRequest u)) as [e | res];
    [split; [reflexivity | discriminate] |].
  destruct (ok res) eqn:Hok; cbn [negb].
  - destruct (json res) as [parsed | e] eqn:Hjson.
    + split; [reflexivity |]. intros latest H. inversion H; subst.
      exists res. repeat split; assumption.
    + split; [reflexivity | discriminate].
  - split; [reflexivity | discriminate].
Qed.

Lemma written_list (refreshed : list Identifier) (canonicalId : option string) :
  existsb isRorIdentifier refreshed = false ->
  firstn (List.length refreshed) (refreshed ++ [newRorIdentifier canonicalId]) = refreshed
  /\ skipn (List.length refreshed) (refreshed ++ [newRorIdentifier canonicalId])
     = [newRorIdentifier canonicalId]
  /\ filter isRorIdentifier (refreshed ++ [newRorIdentifier canonicalId])
     = [newRorIdentifier canonicalId].
Proof.
  intros Hnone. split; [| split].
  - rewrite firstn_app, Nat.sub_diag, firstn_all. cbn [firstn]. apply app_nil_r.
  - rewrite skipn_app, Nat.sub_diag, skipn_all. reflexivity.
  - rewrite filter_app, (filter_none _ _ Hnone). reflexivity.
Qed.

(** C3, amended.  [doLink] writes at most once, and what it writes is
    fixed by the refresh: either every request it adds is a [GET], or a
    record and a candidate are selected, the refresh answered a record
    [latest] in which [hasRorIdentifier] found no identifier
    (discriminator "ClassifiedId" and type URI ending in "/ror"), and
    the requests are the refresh, one [PUT] to [latest] that carries the
    version of [latest] and the identifiers of [latest], in their order,
    followed by the one new identifier (discriminator "ClassifiedId",
    the id of the chosen candidate, type [ROR_TYPE]), and then [GET]
    requests only.  Under those conditions the [PUT] is always sent.
    The written list holds exactly one identifier that
    [hasRorIdentifier] recognises, the new one.  [loadNext] issues [GET]
    requests only and [openConfirm] issues none. *)
Theorem doLink_writes_one_ror (env : Env) (s : AppState) :
  requestsGrowBy putsOneRor s (snd (doLink env s))
  /\ requestsGrowBy isGet s (snd (loadNext env s))
  /\ requests (snd (openConfirm s)) = requests s
  /\ (requestsGrowBy isGet s (snd (doLink env s))
      \/ exists o i latest chosen more,
          selected s o i
          /\ refreshes env s o latest
          /\ hasRorIdentifier (identifiers latest) = false
          /\ nth_error (candidates s) (Z.to_nat i) = Some chosen
          /\ requests (snd (doLink env s))
             = (requests s
                ++ itemRequest (uuid o)
                :: putRequest (uuid latest) (version latest)
                     (identifierList latest
                      ++ [mkIdentifier (Some "ClassifiedId") (rorId (organization chosen))
                                       (Some ROR_TYPE) []])
                :: more)%list
          /\ Forall isGet more)
  /\ (forall o i latest chosen,
         selected s o i ->
         refreshes env s o latest ->
         hasRorIdentifier (identifiers latest) = false ->
         nth_error (candidates s) (Z.to_nat i) = Some chosen ->
         exists more,
           requests (snd (doLink env s))
           = (requests s
              ++ itemRequest (uuid o)
              :: putRequest (uuid latest) (version latest)
                   (identifierList latest
                    ++ [mkIdentifier (Some "ClassifiedId") (rorId (organization chosen))
                                     (Some ROR_TYPE) []])
              :: more)%list
           /\ Forall isGet more)
  /\ (forall u v ids,
         method (putRequest u v ids) = PUT
         /\ url (putRequest u v ids) = buildUrl PURE_BASE_URL ("/external-organizations/" ++ u)
         /\ body (putRequest u v ids) = Some (mkPutPayload v ids))
  /\ (forall latest canonicalId,
         hasRorIdentifier (identifiers latest) = false ->
         let written :=
           (identifierList latest
            ++ [mkIdentifier (Some "ClassifiedId") canonicalId (Some ROR_TYPE) []])%list in
         firstn (List.length (identifierList latest)) written = identifierList latest
         /\ skipn (List.length (identifierList latest)) written
            = [mkIdentifier (Some "ClassifiedId") canonicalId (Some ROR_TYPE) []]
         /\ filter isRorIdentifier written
            = [mkIdentifier (Some "ClassifiedId") canonicalId (Some ROR_TYPE) []]).
Proof.
  assert (Hwrite : forall o i latest chosen,
             selected s o i ->
             refreshes env s o latest ->
             hasRorIdentifier (identifiers latest) = false ->
             nth_error (candidates s) (Z.to_nat i) = Some chosen ->
             exists more,
               requests (snd (doLink env s))
               = (requests s
                  ++ itemRequest (uuid o)
                  :: putRequest (uuid latest) (version latest)
                       (identifierList latest
                        ++ [newRorIdentifier (rorId (organization chosen))])
                  :: more)%list
               /\ Forall isGet more).
  { intros o i latest chosen Hsel Hrefresh Hfresh Hchosen.
    rewrite (doLink_unfold env s o i Hsel).
    rewrite (fetchOrg_refreshes env s o latest Hrefresh), Hfresh, Hchosen.
    rewrite putOrg_unfold.
    set (put := putRequest (uuid latest) (version latest)
                  (identifierList latest ++ [newRorIdentifier (rorId (organization chosen))])).
    set (refreshed := withRequest (itemRequest (uuid o)) (started s)).
    assert (Hsent : requests (withRequest put refreshed)
                    = (requests s ++ [itemRequest (uuid o); put])%list).
    { unfold refreshed. cbn. rewrite <- app_assoc. reflexivity. }
    assert (Hstop : forall e, exists more,
               requests (failed e (withRequest put refreshed))
               = (requests s ++ itemRequest (uuid o) :: put :: more)%list
               /\ Forall isGet more).
    { intros e. exists []. split; [exact Hsent | constructor]. }
    destruct (catalogPut env (requests refreshed) put) as [e | res]; [apply Hstop |].
    destruct (ok res); [| apply Hstop].
    cbn [snd].
    match goal with
    | |- context [loadNext env ?st] =>
        destruct (loadNext_keepsProgress env st _ _ (surjective_pairing _))
          as (_ & _ & _ & _ & new & Hnew & Hgets);
        assert (Hst : requests st = requests (withRequest put refreshed)) by reflexivity
    end.
    exists new. split; [| exact Hgets].
    cbn [requests withLoading]. rewrite Hnew, Hst, Hsent, <- app_assoc. reflexivity. }
  split; [destruct (doLink env s) as [r s'] eqn:H; exact (doLink_puts_one_ror env s r s' H) |].
  split.
  { destruct (loadNext env s) as [r s'] eqn:H.
    destruct (loadNext_keepsProgress env s r s' H) as (_ & _ & _ & _ & Hgets). exact Hgets. }
  split.
  { unfold openConfirm. destruct (org s); [| reflexivity].
    destruct (selectedIdx s) as [i |]; [| reflexivity].
    destruct (i <? 0)%Z; reflexivity. }
  split.
  { destruct (guard_cases s) as [(o & i & Hsel) | Hblocked].
    2: { left. rewrite (proj1 (doLink_blocked env s Hblocked)). apply requestsGrowBy_refl. }
    destruct (fetchOrg_cases env (uuid o) (started s)) as [Hstate Hanswer].
    assert (Hone : forall st : AppState,
               requests st = (requests s ++ [itemRequest (uuid o)])%list ->
               requestsGrowBy isGet s st).
    { intros st Hst. exists [itemRequest (uuid o)].
      split; [exact Hst | constructor; [reflexivity | constructor]]. }
    destruct (fetchOrg env (uuid o) (started s)) as [[latest | e] s1] eqn:Hfetch;
      cbn [fst snd] in Hstate, Hanswer; subst s1.
    2: { left. rewrite (doLink_unfold env s o i Hsel), Hfetch. apply Hone. reflexivity. }
    assert (Hrefresh : refreshes env s o latest) by (apply Hanswer; reflexivity).
    destruct (hasRorIdentifier (identifiers latest)) eqn:Hfresh.
    { left. rewrite (doLink_unfold env s o i Hsel), Hfetch, Hfresh. cbn [snd].
      match goal with
      | |- context [loadNext env ?st] =>
          destruct (loadNext_keepsProgress env st _ _ (surjective_pairing _))
            as (_ & _ & _ & _ & new & Hnew & Hgets)
      end.
      exists (itemRequest (uuid o) :: new). split.
      - cbn [requests withLoading]. rewrite Hnew. cbn. rewrite <- app_assoc. reflexivity.
      - constructor; [reflexivity | exact Hgets]. }
    destruct (nth_error (candidates s) (Z.to_nat i)) as [chosen |] eqn:Hchosen.
    2: { left. rewrite (doLink_unfold env s o i Hsel), Hfetch, Hfresh, Hchosen.
         apply Hone. reflexivity. }
    right. destruct (Hwrite o i latest chosen Hsel Hrefresh Hfresh Hchosen) as (more & Hreq & Hgets).
    exists o, i, latest, chosen, more. repeat split; try assumption; apply Hsel. }
  split; [exact Hwrite |].
  split; [intros u v ids; repeat split |].
  intros latest canonicalId Hfresh. cbv zeta.
  apply (written_list (identifierList latest) canonicalId).
  apply hasRorIdentifier_false. exact Hfresh.
Qed.

Lemma doLink_writes_one_ror_witness :
  exists more,
    requests (snd (doLink (Examples.catalogWith (Some [Examples.isni]))
                          (Examples.confirming (Examples.record "approved" None))))
    = (requests (Examples.confirming (Examples.record "approved" None))
       ++ itemRequest "6a1f0c2e"
       :: putRequest "6a1f0c2e" "v7" [Examples.isni; Examples.classified Examples.aalborg]
       :: more)%list
    /\ Forall isGet more.
Proof.
  destruct (doLink_writes_one_ror (Examples.catalogWith (Some [Examples.isni]))
              (Examples.confirming (Examples.record "approved" None)))
    as (_ & _ & _ & _ & Hwrite & _).
  apply (Hwrite (Examples.record "approved" None) 0%Z
                (Examples.record "approved" (Some [Examples.isni]))
                (Examples.candidate 0.95 true)).
  - unfold selected. repeat split. lia.
  - eexists. repeat split; reflexivity.
  - reflexivity.
  - reflexivity.
Defined.
